(** * The character-record processor of the Genshin wiki corpus builder

    A shallow embedding of [EnhancedGenshinProcessor]
    (src/crawler/data_processor_v3.py): the text normalizer, the field
    extractors, the description synthesizer, the record assembler, the
    chunker, the batch driver and the statistics, followed by the
    properties the specification states about them and by further
    properties that the code shows.

    Python strings are sequences of Unicode code points; a code point is an
    [N].  Regular expressions are kept as syntax and run by a backtracking
    matcher with the priorities of Python's [re] module. *)

From Stdlib Require Import ZArith NArith List Bool Ascii String Lia.
From Stdlib Require Import DecimalString.
From stdpp Require Import base option list strings gmap.

Set Default Proof Using "Type".

(** ** Strings *)

Abbreviation char := N (only parsing).
Abbreviation str := (list N) (only parsing).

(** [py "abc"] is the Python string literal ['abc'] (ASCII literals only;
    other code points are written by number). *)
Definition py (s : string) : str := map N_of_ascii (list_ascii_of_string s).

Definition c_quote : char := 34%N.       (* the double quote character *)
Definition c_newline : char := 10%N.
Definition c_info_icon : char := 9432%N. (* U+24D8, circled small letter i *)
Definition c_zwj : char := 8205%N.       (* U+200D, zero width joiner *)
Definition c_soft_hyphen : char := 173%N. (* U+00AD *)
Definition c_em_dash : char := 8212%N.   (* U+2014 *)
Definition c_star : char := 9733%N.      (* U+2605, black star *)

Definition str_eqb (a b : str) : bool := bool_decide (a = b).

Fixpoint starts_with (pre s : str) : bool :=
  match pre, s with
  | [], _ => true
  | a :: pre', b :: s' => N.eqb a b && starts_with pre' s'
  | _ :: _, [] => false
  end.

(** [sub in s] *)
Fixpoint contains (sub s : str) : bool :=
  starts_with sub s ||
  match s with
  | [] => false
  | _ :: t => contains sub t
  end.

(** [s.replace(old, new)] for a one-character [old]. *)
Definition replace_char (old : char) (new : str) (s : str) : str :=
  flat_map (fun c => if N.eqb c old then new else [c]) s.

(** [sep.join(parts)] *)
Fixpoint join (sep : str) (parts : list str) : str :=
  match parts with
  | [] => []
  | [x] => x
  | x :: rest => x ++ sep ++ join sep rest
  end.

(** [x in l] for a list (or set) of strings. *)
Definition str_in (x : str) (l : list str) : bool := existsb (str_eqb x) l.

(** ** What the interpreter knows about code points

    The repository relies on Python's Unicode tables through [str.lower],
    [str.strip], [str.split], [str.capitalize], [int] and the classes [\s],
    [\w], [\d] of [re].  On ASCII these are fixed below; beyond ASCII they
    are taken from the interpreter and stay abstract here.  So does the
    number of digits beyond which [int] refuses a string (4300 by default
    since CPython 3.11, no limit before). *)

Inductive pyval :=
| VNone
| VBool (b : bool)
| VInt (n : Z)
| VStr (s : str)
| VList (l : list str)
| VFlags (d : list (string * bool))
| VDict (d : list (str * str)).

Record Unicode := {
  u_isspace : char -> bool;   (* whitespace beyond ASCII *)
  u_isalnum : char -> bool;   (* alphanumeric beyond ASCII *)
  u_decimal : char -> option Z; (* value of a decimal digit beyond ASCII *)
  (* lower-casing of a code point beyond ASCII, given what is already read
     and what follows (final sigma): one code point or more *)
  u_lower : str -> char -> str -> char * str;
  (* upper-casing of a first code point: one code point or more *)
  u_upper : char -> char * str;
  u_caseless_eq : char -> char -> bool; (* equality under re.IGNORECASE *)
  u_repr : pyval -> str;      (* built-in formatting of containers *)
  (* sys.get_int_max_str_digits(): the most digits [int] converts from a
     string, 0 when the interpreter sets no limit *)
  u_int_max_str_digits : N;
}.

(** An instance in which no code point beyond ASCII has a class or a case,
    with CPython's default limit of 4300 digits.  It agrees with every
    interpreter of that limit on ASCII strings. *)
Definition ascii_only : Unicode := {|
  u_isspace := fun _ => false;
  u_isalnum := fun _ => false;
  u_decimal := fun _ => None;
  u_lower := fun _ c _ => (c, []);
  u_upper := fun c => (c, []);
  u_caseless_eq := N.eqb;
  u_repr := fun _ => [];
  u_int_max_str_digits := 4300;
|}.

Definition is_ascii (c : char) : bool := (c <? 128)%N.
Definition in_range (lo hi c : char) : bool := (lo <=? c)%N && (c <=? hi)%N.
Definition ascii_lower_char (c : char) : char :=
  if in_range 65 90 c then (c + 32)%N else c.
Definition ascii_upper_char (c : char) : char :=
  if in_range 97 122 c then (c - 32)%N else c.
Definition ascii_digit (c : char) : bool := in_range 48 57 c.
Definition ascii_alpha (c : char) : bool := in_range 65 90 c || in_range 97 122 c.
(* \t \n \v \f \r, the four separators 0x1c-0x1f and the space *)
Definition ascii_space (c : char) : bool :=
  in_range 9 13 c || in_range 28 31 c || N.eqb c 32.

Section Processor.

Context (U : Unicode).

Definition is_space (c : char) : bool :=
  if is_ascii c then ascii_space c else u_isspace U c.

Definition digit_value (c : char) : option Z :=
  if is_ascii c then (if ascii_digit c then Some (Z.of_N c - 48)%Z else None)
  else u_decimal U c.

Definition is_digit (c : char) : bool :=
  match digit_value c with Some _ => true | None => false end.

(** [\w]: alphanumeric or underscore. *)
Definition is_word (c : char) : bool :=
  if is_ascii c then ascii_alpha c || ascii_digit c || N.eqb c 95
  else u_isalnum U c.

(** [s.lower()] *)
Fixpoint lower_from (before : str) (s : str) : str :=
  match s with
  | [] => []
  | c :: t =>
      (if is_ascii c then [ascii_lower_char c]
       else let '(c', more) := u_lower U before c t in c' :: more)
      ++ lower_from (c :: before) t
  end.

Definition lower (s : str) : str := lower_from [] s.

(** [s.capitalize()] *)
Definition capitalize (s : str) : str :=
  match s with
  | [] => []
  | c :: t =>
      (if is_ascii c then [ascii_upper_char c]
       else let '(c', more) := u_upper U c in c' :: more)
      ++ lower_from [c] t
  end.

(** [s.strip()] *)
Fixpoint skip_spaces (s : str) : str :=
  match s with
  | c :: t => if is_space c then skip_spaces t else s
  | [] => []
  end.

Definition lstrip (s : str) : str := skip_spaces s.
Definition rstrip (s : str) : str := reverse (skip_spaces (reverse s)).
Definition strip (s : str) : str := rstrip (lstrip s).

(** [s.split()]: the maximal runs of non-whitespace. *)
Fixpoint split_ws_from (cur : str) (s : str) : list str :=
  match s with
  | [] => match cur with [] => [] | _ => [reverse cur] end
  | c :: t =>
      if is_space c
      then match cur with
           | [] => split_ws_from [] t
           | _ => reverse cur :: split_ws_from [] t
           end
      else split_ws_from (c :: cur) t
  end.

Definition split_ws (s : str) : list str := split_ws_from [] s.

(** [int(s)] for a string of decimal digits; [None] is a ValueError: on
    the empty string, on a character that is no digit, and on more digits
    than the interpreter converts. *)
Fixpoint int_from (acc : Z) (s : str) : option Z :=
  match s with
  | [] => Some acc
  | c :: t =>
      match digit_value c with
      | Some d => int_from (10 * acc + d)%Z t
      | None => None
      end
  end.

Definition over_int_limit (s : str) : bool :=
  (0 <? u_int_max_str_digits U)%N
  && (u_int_max_str_digits U <? N.of_nat (length s))%N.

Definition py_int (s : str) : option Z :=
  match s with
  | [] => None
  | _ => if over_int_limit s then None else int_from 0 s
  end.

(** [str(n)] *)
Definition str_of_Z (n : Z) : str := py (NilEmpty.string_of_int (Z.to_int n)).

(** What an f-string prints for a value. *)
Definition py_str (v : pyval) : str :=
  match v with
  | VNone => py "None"
  | VBool b => if b then py "True" else py "False"
  | VInt n => str_of_Z n
  | VStr s => s
  | _ => u_repr U v
  end.

(** Truth value of a Python object. *)
Definition truthy (v : pyval) : bool :=
  match v with
  | VNone => false
  | VBool b => b
  | VInt n => negb (Z.eqb n 0)
  | VStr s => match s with [] => false | _ => true end
  | VList l => match l with [] => false | _ => true end
  | VFlags d => match d with [] => false | _ => true end
  | VDict d => match d with [] => false | _ => true end
  end.

(** ** Regular expressions

    The patterns of the source are kept as syntax.  Only the constructs the
    source uses are present. *)

Inductive citem :=
| IChar (c : char)          (* a literal character *)
| IRange (lo hi : char)     (* lo-hi *)
| IDigit                    (* \d *)
| ISpace                    (* \s *)
| IWord.                    (* \w *)

Inductive cset :=
| CAny                      (* .  : any character but a newline *)
| CIn (items : list citem)  (* [...] *)
| CNotIn (items : list citem). (* [^...] *)

Inductive regex :=
| Eps
| Chr (c : cset)
| Lit (s : str)
| Seq (a b : regex)
| Alt (a b : regex)
| Rep (a : regex) (lo : nat) (hi : option nat) (greedy : bool)
| Grp (i : nat) (a : regex)  (* the i-th capturing group *)
| Behind (c : cset)          (* (?<=[...]) *)
| WordB                      (* \b *)
| Bol.                       (* ^ *)

Definition Star a := Rep a 0 None true.
Definition Plus a := Rep a 1 None true.
Definition Opt a := Rep a 0 (Some 1) true.
Definition LazyStar a := Rep a 0 None false.
Definition LazyPlus a := Rep a 1 None false.
Definition Between a lo hi := Rep a lo (Some hi) true.

Fixpoint cat (rs : list regex) : regex :=
  match rs with
  | [] => Eps
  | [r] => r
  | r :: rest => Seq r (cat rest)
  end.

Fixpoint alts (rs : list regex) : regex :=
  match rs with
  | [] => Eps
  | [r] => r
  | r :: rest => Alt r (alts rest)
  end.

Definition d := Chr (CIn [IDigit]).
Definition sp := Chr (CIn [ISpace]).
Definition w := Chr (CIn [IWord]).
Definition lower_az := Chr (CIn [IRange 97 122]).
Definition upper_AZ := Chr (CIn [IRange 65 90]).
Definition L (s : string) := Lit (py s).
Definition one_of (s : string) := CIn (map IChar (py s)).
Definition none_of (s : string) := CNotIn (map IChar (py s)).

(** The template of a substitution: text and group references. *)
Inductive titem :=
| TText (s : str)
| TGroup (i : nat).

Definition captures := list (nat * str).

Fixpoint group (i : nat) (g : captures) : option str :=
  match g with
  | [] => None
  | (j, s) :: rest => if Nat.eqb i j then Some s else group i rest
  end.

(** An unmatched group expands to the empty string. *)
Definition expand (t : list titem) (g : captures) : str :=
  flat_map (fun x => match x with
                     | TText s => s
                     | TGroup i => default [] (group i g)
                     end) t.

Section Matcher.

(** [icase] is the flag re.IGNORECASE. *)
Context (icase : bool).

Definition char_eq (c l : char) : bool :=
  if icase
  then (if is_ascii c && is_ascii l
        then N.eqb (ascii_lower_char c) (ascii_lower_char l)
        else u_caseless_eq U c l)
  else N.eqb c l.

Definition range_chars (lo hi : char) : list char :=
  map (fun i => (lo + N.of_nat i)%N) (seq 0 (N.to_nat (hi + 1 - lo))).

Definition citem_match (it : citem) (c : char) : bool :=
  match it with
  | IChar l => char_eq c l
  | IRange lo hi =>
      if icase then existsb (char_eq c) (range_chars lo hi)
      else in_range lo hi c
  | IDigit => is_digit c
  | ISpace => is_space c
  | IWord => is_word c
  end.

Definition cset_match (cs : cset) (c : char) : bool :=
  match cs with
  | CAny => negb (N.eqb c c_newline)
  | CIn items => existsb (fun it => citem_match it c) items
  | CNotIn items => negb (existsb (fun it => citem_match it c) items)
  end.

(** A position in the subject: the character just before it, what is left,
    and the groups captured so far (the latest first). *)
Definition position := (option char * str * captures)%type.
Definition cont := option char -> str -> captures -> option position.

Fixpoint lit_match (l : str) (p : option char) (s : str) : option (option char * str) :=
  match l with
  | [] => Some (p, s)
  | a :: l' =>
      match s with
      | c :: t => if char_eq c a then lit_match l' (Some c) t else None
      | [] => None
      end
  end.

Definition word_before (p : option char) : bool :=
  match p with Some c => is_word c | None => false end.

Definition below (n : nat) (hi : option nat) : bool :=
  match hi with Some h => Nat.ltb n h | None => true end.

(** The loop of a repetition: [n] iterations are done.  A greedy loop first
    tries one more iteration and gives up iterations on failure; a lazy one
    first tries to go on.  An iteration has to consume input, so the fuel,
    one more than what is left of the subject, is never used up. *)
Fixpoint rep_loop (m : option char -> str -> captures -> cont -> option position)
    (lo : nat) (hi : option nat) (greedy : bool) (fuel n : nat)
    (p : option char) (s : str) (g : captures) (k : cont) : option position :=
  match fuel with
  | O => None
  | S fuel' =>
      if greedy then
        match (if below n hi
               then m p s g (fun p' s' g' =>
                      if Nat.ltb (length s') (length s)
                      then rep_loop m lo hi greedy fuel' (S n) p' s' g' k
                      else None)
               else None) with
        | Some r => Some r
        | None => if Nat.leb lo n then k p s g else None
        end
      else
        match (if Nat.leb lo n then k p s g else None) with
        | Some r => Some r
        | None =>
            if below n hi
            then m p s g (fun p' s' g' =>
                   if Nat.ltb (length s') (length s)
                   then rep_loop m lo hi greedy fuel' (S n) p' s' g' k
                   else None)
            else None
        end
  end.

(** [rx r p s g k]: match [r] at the position, then go on with [k];
    alternatives are tried in the order of Python's matcher. *)
Fixpoint rx (r : regex) (p : option char) (s : str) (g : captures) (k : cont)
    {struct r} : option position :=
  match r with
  | Eps => k p s g
  | Chr cs =>
      match s with
      | c :: t => if cset_match cs c then k (Some c) t g else None
      | [] => None
      end
  | Lit l =>
      match lit_match l p s with
      | Some (p', s') => k p' s' g
      | None => None
      end
  | Seq a b => rx a p s g (fun p' s' g' => rx b p' s' g' k)
  | Alt a b =>
      match rx a p s g k with
      | Some r => Some r
      | None => rx b p s g k
      end
  | Rep a lo hi greedy => rep_loop (rx a) lo hi greedy (S (length s)) 0 p s g k
  | Grp i a =>
      rx a p s g (fun p' s' g' =>
        k p' s' ((i, take (length s - length s') s) :: g'))
  | Behind cs =>
      match p with
      | Some c => if cset_match cs c then k p s g else None
      | None => None
      end
  | WordB =>
      if xorb (word_before p) (word_before (head s)) then k p s g else None
  | Bol =>
      match p with
      | None => k p s g
      | Some _ => None
      end
  end.

Definition finish : cont := fun p s g => Some (p, s, g).

(** A match of [r] that starts exactly at the position. *)
Definition match_here (r : regex) (p : option char) (s : str) : option position :=
  rx r p s [] finish.

(** A successful [re.search]: the text before the match, the matched text,
    the groups and the text after it. *)
Record found := {
  f_before : str;
  f_text : str;
  f_groups : captures;
  f_after : str;
}.

Fixpoint search_from (r : regex) (before : str) (p : option char) (s : str) : option found :=
  match match_here r p s with
  | Some (_, s', g) =>
      Some {| f_before := reverse before;
              f_text := take (length s - length s') s;
              f_groups := g;
              f_after := s' |}
  | None =>
      match s with
      | [] => None
      | c :: t => search_from r (c :: before) (Some c) t
      end
  end.

(** [re.search(r, s)] *)
Definition re_search (r : regex) (s : str) : option found :=
  search_from r [] None s.

(** [re.match(r, s)] *)
Definition re_match (r : regex) (s : str) : option found :=
  match match_here r None s with
  | Some (_, s', g) =>
      Some {| f_before := []; f_text := take (length s - length s') s;
              f_groups := g; f_after := s' |}
  | None => None
  end.

Definition matched (m : option found) : bool :=
  match m with Some _ => true | None => false end.

(** [re.sub(r, t, s)].  [skip] characters of the last match are still to be
    passed over.  No pattern of the source matches the empty string; an
    empty match would be replaced and the scan moved on by one character. *)
Fixpoint sub_from (r : regex) (t : list titem) (s : str) (skip : nat)
    (p : option char) : str :=
  match skip with
  | S skip' =>
      match s with
      | [] => []
      | c :: rest => sub_from r t rest skip' (Some c)
      end
  | O =>
      match match_here r p s with
      | Some (_, s', g) =>
          expand t g ++
          match s with
          | [] => []
          | c :: rest =>
              match length s - length s' with
              | O => c :: sub_from r t rest 0 (Some c)
              | S n => sub_from r t rest n (Some c)
              end
          end
      | None =>
          match s with
          | [] => []
          | c :: rest => c :: sub_from r t rest 0 (Some c)
          end
      end
  end.

Definition re_sub (r : regex) (t : list titem) (s : str) : str :=
  sub_from r t s 0 None.

(** [re.split(r, s)] for a pattern without groups that matches no empty
    string: the pieces between the matches. *)
Fixpoint split_from (r : regex) (s : str) (skip : nat) (p : option char)
    (cur : str) : list str :=
  match skip with
  | S skip' =>
      match s with
      | [] => [reverse cur]
      | c :: rest => split_from r rest skip' (Some c) cur
      end
  | O =>
      match s with
      | [] => [reverse cur]
      | c :: rest =>
          match match_here r p s with
          | Some (_, s', _) =>
              match length s - length s' with
              | O => split_from r rest 0 (Some c) (c :: cur)
              | S n => reverse cur :: split_from r rest n (Some c) []
              end
          | None => split_from r rest 0 (Some c) (c :: cur)
          end
      end
  end.

Definition re_split (r : regex) (s : str) : list str :=
  split_from r s 0 None [].

(** What a match can consume and capture: [den r t g g'] holds when [r] can
    match the text [t] and turn the captures [g] into [g'], whatever stands
    around [t]. *)
Fixpoint iter (P : str -> captures -> captures -> Prop) (n : nat)
    (t : str) (g g' : captures) : Prop :=
  match n with
  | O => t = [] /\ g' = g
  | S n' => exists t1 t2 gm, t = t1 ++ t2 /\ P t1 g gm /\ iter P n' t2 gm g'
  end.

Fixpoint den (r : regex) (t : str) (g g' : captures) : Prop :=
  match r with
  | Eps => t = [] /\ g' = g
  | Chr cs => exists c, t = [c] /\ cset_match cs c = true /\ g' = g
  | Lit l => length t = length l /\ g' = g
  | Seq a b => exists t1 t2 gm, t = t1 ++ t2 /\ den a t1 g gm /\ den b t2 gm g'
  | Alt a b => den a t g g' \/ den b t g g'
  | Rep a lo hi _ => exists n, lo <= n /\ iter (den a) n t g g'
  | Grp i a => exists gm, den a t g gm /\ g' = (i, t) :: gm
  | Behind _ | WordB | Bol => t = [] /\ g' = g
  end.

(** A group that the pattern is sure to go through is set after a match. *)
Fixpoint binds (i : nat) (r : regex) : bool :=
  match r with
  | Seq a b => binds i a || binds i b
  | Alt a b => binds i a && binds i b
  | Grp j a => Nat.eqb i j || binds i a
  | _ => false
  end.

End Matcher.

(** ** The text normalizer *)

Definition T (s : string) : titem := TText (py s).

(** [\[\d+\]] *)
Definition re_ref_marker : regex := cat [L "["; Plus d; L "]"].
(** [\[edit\]] *)
Definition re_edit_marker : regex := L "[edit]".
(** [\[Note\s*\d+\]] *)
Definition re_note_marker : regex := cat [L "[Note"; Star sp; Plus d; L "]"].
(** [([a-z])([A-Z])] *)
Definition re_lower_upper : regex := cat [Grp 1 lower_az; Grp 2 upper_AZ].

Definition stuck_patterns : list (regex * list titem) :=
  [ (* (\w)(Card|Wish|Quality|Weapon|Element|Model) -> \1 \2 *)
    (cat [Grp 1 w;
          Grp 2 (alts [L "Card"; L "Wish"; L "Quality"; L "Weapon";
                       L "Element"; L "Model"])],
     [TGroup 1; T " "; TGroup 2]);
    (* (Type|Bonus|Roles|Bio|Birthday|Region|Dish)([\w]) -> \1 \2 *)
    (cat [Grp 1 (alts [L "Type"; L "Bonus"; L "Roles"; L "Bio"; L "Birthday";
                       L "Region"; L "Dish"]);
          Grp 2 w],
     [TGroup 1; T " "; TGroup 2]);
    (* (English|Chinese|Japanese|Korean)([A-Z]) -> \1 \2 *)
    (cat [Grp 1 (alts [L "English"; L "Chinese"; L "Japanese"; L "Korean"]);
          Grp 2 upper_AZ],
     [TGroup 1; T " "; TGroup 2]);
    (* (Playable\s*Characters)(\w) -> \1. \2 *)
    (cat [Grp 1 (cat [L "Playable"; Star sp; L "Characters"]); Grp 2 w],
     [TGroup 1; T ". "; TGroup 2]);
    (* (Genshin)(Impact) -> \1 \2 *)
    (cat [Grp 1 (L "Genshin"); Grp 2 (L "Impact")],
     [TGroup 1; T " "; TGroup 2]);
    (* (\w)(character)(in) -> \1 \2 \3 *)
    (cat [Grp 1 w; Grp 2 (L "character"); Grp 3 (L "in")],
     [TGroup 1; T " "; TGroup 2; T " "; TGroup 3]);
    (* (in)(Genshin) -> \1 \2 *)
    (cat [Grp 1 (L "in"); Grp 2 (L "Genshin")],
     [TGroup 1; T " "; TGroup 2]) ].

(** [\s+] *)
Definition re_spaces : regex := Plus sp.
(** [\s+([.,!?])] *)
Definition re_space_punct : regex := cat [Plus sp; Grp 1 (Chr (one_of ".,!?"))].

(** Remove reference markers *)
Definition remove_markers (text : str) : str :=
  let text := re_sub false re_ref_marker [] text in
  let text := re_sub false re_edit_marker [] text in
  re_sub false re_note_marker [] text.

(** Remove special unicode characters *)
Definition remove_special_unicode (text : str) : str :=
  let text := replace_char c_info_icon [] text in
  let text := replace_char c_zwj [] text in
  replace_char c_soft_hyphen [] text.

(** Fix stuck words - add space before capitals after lowercase *)
Definition fix_stuck_words (text : str) : str :=
  re_sub false re_lower_upper [TGroup 1; T " "; TGroup 2] text.

(** Fix common stuck patterns *)
Definition fix_stuck_patterns (text : str) : str :=
  fold_left (fun text pr => re_sub false (fst pr) (snd pr) text)
            stuck_patterns text.

(** Clean up whitespace *)
Definition clean_whitespace (text : str) : str :=
  let text := re_sub false re_spaces [T " "] text in
  re_sub false re_space_punct [TGroup 1] text.

(** [clean_text] *)
Definition clean_text (text : str) : str :=
  match text with
  | [] => []
  | _ =>
      let text := remove_markers text in
      let text := remove_special_unicode text in
      let text := fix_stuck_words text in
      let text := fix_stuck_patterns text in
      let text := clean_whitespace text in
      strip text
  end.

(** ** Keyword extractors *)

(** [_extract_field]: the first option whose lowercase form occurs in the
    lowercased text. *)
Fixpoint _extract_field (text : str) (options : list str) : option str :=
  match options with
  | [] => None
  | option :: rest =>
      if contains (lower option) (lower text) then Some option
      else _extract_field text rest
  end.

Definition elements : list str :=
  map py ["Pyro"; "Hydro"; "Electro"; "Cryo"; "Anemo"; "Geo"; "Dendro"]%string.
Definition weapons : list str :=
  map py ["Sword"; "Claymore"; "Polearm"; "Bow"; "Catalyst"]%string.
Definition regions : list str :=
  map py ["Mondstadt"; "Liyue"; "Inazuma"; "Sumeru"; "Fontaine"; "Natlan";
          "Snezhnaya"; "Khaenri'ah"; "Nod-Krai"]%string.

(** [_extract_model_type] *)
Fixpoint first_model (text : str) (models : list str) : option str :=
  match models with
  | [] => None
  | model :: rest =>
      if contains (replace_char 32 [] (lower model))
                  (replace_char 32 [] (lower text))
      then Some model
      else first_model text rest
  end.

Definition _extract_model_type (text : str) : option str :=
  first_model text
    (map py ["Tall Male"; "Tall Female"; "Medium Male"; "Medium Female";
             "Short Male"; "Short Female"]%string).

(** Known 5-star characters. *)
Definition FIVE_STAR_CHARS : list str :=
  map py
    ["Albedo"; "Alhaitham"; "Tartaglia"; "Lyney"; "Baizhu"; "Chasca"; "Chiori";
     "Citlali"; "Clorinde"; "Cyno"; "Dehya"; "Diluc"; "Eula"; "Furina";
     "Ganyu"; "Hu Tao"; "Itto"; "Jean"; "Kazuha"; "Keqing"; "Kinich";
     "Klee"; "Mavuika"; "Mona"; "Mualani"; "Nahida"; "Navia"; "Neuvillette";
     "Nilou"; "Qiqi"; "Raiden Shogun"; "Shenhe"; "Sigewinne"; "Tighnari";
     "Venti"; "Wanderer"; "Wriothesley"; "Xiao"; "Xianyun"; "Xilonen";
     "Yae Miko"; "Yelan"; "Yoimiya"; "Zhongli"; "Arlecchino"; "Emilie";
     "Kamisato Ayaka"; "Kamisato Ayato"; "Kaedehara Kazuha"; "Arataki Itto";
     "Sangonomiya Kokomi"; "Yae Miko"; "Raiden Shogun"; "Columbina";
     "Zibai"; "Ineffa"; "Nefer"; "Lauma"; "Flins"; "Aloy"; "Traveler";
     "Yumemizuki Mizuki"; "Durin"; "Escoffier"; "Skirk"; "Varesa"]%string.

(** '5★', '5-Star', '5 Star', 'Quality5', '★★★★★' *)
Definition five_star_indicators : list str :=
  [ py "5" ++ [c_star]; py "5-Star"; py "5 Star"; py "Quality5";
    [c_star; c_star; c_star; c_star; c_star] ].

(** [extract_rarity] *)
Definition extract_rarity (name intro : str) : Z :=
  (* Check known 5-star list first *)
  if existsb (fun part => str_in part FIVE_STAR_CHARS) (split_ws name) then 5%Z
  else if str_in name FIVE_STAR_CHARS then 5%Z
  (* Check for 5-star indicators in text *)
  else if existsb (fun indicator => contains (lower indicator) (lower intro))
                  five_star_indicators then 5%Z
  (* Default to 4-star for playable characters *)
  else 4%Z.

(** ** Regex extractors

    A call that would raise in Python gives [None]; a Python [None] result
    is the inner [None]. *)

Definition has (kw : string) (text : str) : bool := contains (py kw) text.

(** [extract_character_roles] *)
Definition extract_character_roles (intro : str) : list (string * bool) :=
  let intro_lower := lower intro in
  [ ("on_field", has "on-field" intro_lower || has "on field" intro_lower);
    ("off_field", has "off-field" intro_lower || has "off field" intro_lower);
    ("dps", has "dps" intro_lower);
    ("support", has "support" intro_lower);
    ("survivability", has "survivability" intro_lower || has "healing" intro_lower
                      || has "healer" intro_lower) ]%string.

Definition flag (key : string) (roles : list (string * bool)) : bool :=
  default false (snd <$> find (fun kv => String.eqb (fst kv) key) roles).

(** [_create_role_summary] *)
Definition _create_role_summary (roles : list (string * bool)) : str :=
  let role_parts :=
    (if flag "on_field" roles then [py "On-Field"] else []) ++
    (if flag "off_field" roles then [py "Off-Field"] else []) ++
    (if flag "dps" roles then [py "DPS"] else []) ++
    (if flag "support" roles then [py "Support"] else []) ++
    (if flag "survivability" roles then [py "Healer/Shielder"] else []) in
  match role_parts with
  | [] => py "Unknown"
  | _ => join (py " / ") role_parts
  end.

(** [Event Wish\s*[—-]\s*([^F]+?)(?: Featured|Release)] *)
Definition re_event_wish_name : regex :=
  cat [L "Event Wish"; Star sp; Chr (CIn [IChar c_em_dash; IChar 45]); Star sp;
       Grp 1 (LazyPlus (Chr (none_of "F")));
       Alt (L " Featured") (L "Release")].

(** [extract_how_to_obtain] *)
Definition extract_how_to_obtain (intro : str) : option (list str) :=
  let low := lower intro in
  let methods := [] in
  (* Check for common obtain methods *)
  let methods :=
    if has "wishes" low || has "wish" low then methods ++ [py "Wishes"]
    else methods in
  methods ←
    (if has "event wish" low then
       (* Try to extract event wish name *)
       match re_search false re_event_wish_name intro with
       | Some m =>
           event_name ← strip <$> group 1 (f_groups m);
           Some (methods ++ [py "Event Wish: " ++ event_name])
       | None => Some methods
       end
     else Some methods);
  let methods :=
    if has "chronicled wishes" low then methods ++ [py "Chronicled Wishes"]
    else methods in
  let methods :=
    if has "paimon's bargains" low then methods ++ [py "Paimon's Bargains"]
    else methods in
  let methods :=
    if has "adventure rank" low then methods ++ [py "Adventure Rank Reward"]
    else methods in
  let methods :=
    if has "archon quest" low || has "complete" low
    then methods ++ [py "Quest Reward"] else methods in
  Some (match methods with [] => [py "Wishes"] | _ => methods end).

(** The cascade shared by the regex extractors: the patterns are searched
    in order; [accept] turns a match into the value to return, or into
    nothing, in which case the next pattern is tried. *)
Fixpoint first_accepted {A} (icase : bool) (patterns : list regex) (text : str)
    (accept : found -> option (option A)) : option (option A) :=
  match patterns with
  | [] => Some None
  | pattern :: rest =>
      match re_search icase pattern text with
      | Some m =>
          r ← accept m;
          match r with
          | Some v => Some (Some v)
          | None => first_accepted icase rest text accept
          end
      | None => first_accepted icase rest text accept
      end
  end.

Definition nonempty (s : str) : bool := match s with [] => false | _ => true end.

(** [[A-Z][a-z]+\s+\d{1,2},?\s*\d{4}] *)
Definition re_month_day_year : regex :=
  cat [upper_AZ; Plus lower_az; Plus sp; Between d 1 2; Opt (L ","); Star sp;
       Between d 4 4].

Definition release_date_patterns : list regex :=
  [ (* Release\s*Date\s*([A-Z][a-z]+\s+\d{1,2},?\s*\d{4}) *)
    cat [L "Release"; Star sp; L "Date"; Star sp; Grp 1 re_month_day_year];
    (* Released?\s*(?:on\s* )?([A-Z][a-z]+\s+\d{1,2},?\s*\d{4}), the blank apart *)
    cat [L "Release"; Opt (L "d"); Star sp; Opt (cat [L "on"; Star sp]);
         Grp 1 re_month_day_year] ].

(** [extract_release_date] *)
Definition extract_release_date (intro : str) : option (option str) :=
  first_accepted false release_date_patterns intro
    (fun m => g ← group 1 (f_groups m); Some (Some (strip g))).

(** [[A-Z][a-z]+(?:\s+[A-Z][a-z]+)*] *)
Definition re_capitalized_words : regex :=
  cat [upper_AZ; Plus lower_az; Star (cat [Plus sp; upper_AZ; Plus lower_az])].

(** [X\s*([^\[\]]+?)(?:\s*\([^)]+\))?\s*(?:\[|Y)] *)
Definition re_actor_between (X Y : string) : regex :=
  cat [L X; Star sp; Grp 1 (LazyPlus (Chr (none_of "[]")));
       Opt (cat [Star sp; L "("; Plus (Chr (none_of ")")); L ")"]);
       Star sp; Alt (L "[") (L Y)].

Definition voice_actor_patterns : list (string * regex) :=
  [ ("english", cat [L "English"; Star sp; Grp 1 re_capitalized_words]);
    ("chinese", re_actor_between "Chinese" "Japanese");
    ("japanese", re_actor_between "Japanese" "Korean");
    ("korean", re_actor_between "Korean" "Additional") ]%string.

(** [\s*\([^)]*\)\s*] *)
Definition re_parenthesis : regex :=
  cat [Star sp; L "("; Star (Chr (none_of ")")); L ")"; Star sp].

(** [extract_voice_actors] *)
Fixpoint voice_actors_from (patterns : list (string * regex)) (intro : str)
    (voice_actors : list (str * str)) : option (list (str * str)) :=
  match patterns with
  | [] => Some voice_actors
  | (lang, pattern) :: rest =>
      match re_search false pattern intro with
      | Some m =>
          actor ← strip <$> group 1 (f_groups m);
          (* Clean up the actor name *)
          let actor := re_sub false re_parenthesis [] actor in
          let actor := re_sub false re_ref_marker [] actor in
          if nonempty actor && Nat.ltb 1 (length actor) && Nat.ltb (length actor) 50
          then voice_actors_from rest intro (voice_actors ++ [(py lang, actor)])
          else voice_actors_from rest intro voice_actors
      | None => voice_actors_from rest intro voice_actors
      end
  end.

Definition extract_voice_actors (intro : str) : option (list (str * str)) :=
  voice_actors_from voice_actor_patterns intro [].

(** [extract_character_type] *)
Definition extract_character_type (intro : str) : str :=
  let intro_lower := lower intro in
  if has "synthetic" intro_lower then
    if has "creator" intro_lower || has "created by" intro_lower
    then py "Synthetic (Created)"
    else if has "derived from" intro_lower then py "Synthetic (Derived)"
    else py "Synthetic"
  else if has "adoptive" intro_lower then py "Adoptive"
  else py "Biological".

Definition event_wishes_patterns : list regex :=
  [ (* promoted or featured with a drop-rate boost in\s*(\d+)\s*Event Wish *)
    cat [L "promoted or featured with a drop-rate boost in"; Star sp;
         Grp 1 (Plus d); Star sp; L "Event Wish"];
    (* featured.*?(\d+)\s*Event Wish *)
    cat [L "featured"; LazyStar (Chr CAny); Grp 1 (Plus d); Star sp;
         L "Event Wish"] ].

(** [extract_event_wishes] *)
Definition extract_event_wishes (intro : str) : option (option Z) :=
  first_accepted true event_wishes_patterns intro
    (fun m => g ← group 1 (f_groups m); n ← py_int g; Some (Some n)).

Definition special_dish_patterns : list regex :=
  [ (* Special\s*Dish\s*([A-Z][^N]+?)(?: Namecard|How) *)
    cat [L "Special"; Star sp; L "Dish"; Star sp;
         Grp 1 (cat [upper_AZ; LazyPlus (Chr (none_of "N"))]);
         Alt (L " Namecard") (L "How")];
    (* Special\s*Dish([^N]+?)Namecard *)
    cat [L "Special"; Star sp; L "Dish";
         Grp 1 (LazyPlus (Chr (none_of "N"))); L "Namecard"] ].

(** [extract_special_dish] *)
Definition extract_special_dish (intro : str) : option (option str) :=
  first_accepted false special_dish_patterns intro
    (fun m =>
       dish ← strip <$> group 1 (f_groups m);
       (* Clean up *)
       let dish := re_sub false re_ref_marker [] dish in
       let dish := strip dish in
       if nonempty dish && Nat.ltb 2 (length dish) && Nat.ltb (length dish) 100
       then Some (Some dish) else Some None).

Definition namecard_patterns : list regex :=
  [ (* Namecard\s*([A-Z][^H]+?)(?:How|Featured|Release) *)
    cat [L "Namecard"; Star sp;
         Grp 1 (cat [upper_AZ; LazyPlus (Chr (none_of "H"))]);
         alts [L "How"; L "Featured"; L "Release"]];
    (* Namecard([^H]+?)How *)
    cat [L "Namecard"; Grp 1 (LazyPlus (Chr (none_of "H"))); L "How"] ].

(** [extract_namecard] *)
Definition extract_namecard (intro : str) : option (option str) :=
  first_accepted false namecard_patterns intro
    (fun m =>
       namecard ← strip <$> group 1 (f_groups m);
       let namecard := re_sub false re_ref_marker [] namecard in
       if nonempty namecard && Nat.ltb 2 (length namecard)
       then Some (Some namecard) else Some None).

(** [Real\s*Name\s*(W)], W being the capitalized words above *)
Definition real_name_patterns : list regex :=
  [ cat [L "Real"; Star sp; L "Name"; Star sp; Grp 1 re_capitalized_words] ].

(** [extract_real_name] *)
Definition extract_real_name (intro : str) : option (option str) :=
  first_accepted false real_name_patterns intro
    (fun m =>
       name ← strip <$> group 1 (f_groups m);
       if nonempty name && Nat.ltb 2 (length name)
       then Some (Some name) else Some None).

(** A lead-in, [\s+], an optional quote, group 1 of one or more characters
    other than quote, comma, full stop and square brackets, an optional
    quote. *)
Definition re_title_after (lead : string) : regex :=
  cat [L lead; Plus sp; Opt (Lit [c_quote]);
       Grp 1 (Plus (Chr (CNotIn (IChar c_quote :: map IChar (py ",.[]")))));
       Opt (Lit [c_quote])].

Definition title_patterns : list regex :=
  [ (* quoted titles: a quote, group 1 of one or more non-quotes, a quote *)
    cat [Lit [c_quote]; Grp 1 (Plus (Chr (CNotIn [IChar c_quote])));
         Lit [c_quote]];
    re_title_after "also known as";
    re_title_after "known as";
    re_title_after "titled" ].

(** [extract_title].  The handler of [re.error] in the source is never
    entered: searching with a pattern that compiles does not raise it. *)
Definition extract_title (intro : str) : option (option str) :=
  first_accepted true title_patterns intro
    (fun m =>
       title ← strip <$> group 1 (f_groups m);
       if Nat.ltb 3 (length title) && Nat.ltb (length title) 50
       then Some (Some title) else Some None).

Definition affiliation_keywords : list str :=
  map py
    ["Knights of Favonius"; "Liyue Qixing"; "Fatui"; "Adventurers' Guild";
     "Wangsheng Funeral Parlor"; "Yashiro Commission"; "Tenryou Commission";
     "Kamisato Clan"; "Arataki Gang"; "Watatsumi Army"; "Sumeru Akademiya";
     "Spina di Rosula"; "Hotel Bouffes d'ete"; "House of the Hearth";
     "Maison Gardiennage"; "The Crux"; "Church of Favonius";
     "Grand Narukami Shrine"; "Sangonomiya Shrine"; "Shuumatsuban";
     "Hexenzirkel"; "Eleven Fatui Harbingers"; "The Seven";
     "Bubu Pharmacy"; "Adepti"; "Forest Rangers"; "Matra";
     "Temple of Silence"; "The Steambird"; "Zubayr Theater";
     "Lightkeepers"; "Three Moons"; "Frostmoon Scions"]%string.

(** [extract_affiliation] *)
Definition extract_affiliation (intro : str) : list str :=
  filter (fun affiliation => Is_true (contains (lower affiliation) (lower intro)))
         affiliation_keywords.

(** [[A-Z][a-z]+\s*[A-Z]?[a-z]*] *)
Definition re_constellation_name : regex :=
  cat [upper_AZ; Plus lower_az; Star sp; Opt upper_AZ; Star lower_az].

Definition constellation_patterns : list regex :=
  [ cat [L "Constellation"; Star sp; Grp 1 re_constellation_name];
    cat [L "lation"; Star sp; Grp 1 re_constellation_name] ].

(** [extract_constellation] *)
Definition extract_constellation (intro : str) : option (option str) :=
  first_accepted false constellation_patterns intro
    (fun m =>
       constellation ← strip <$> group 1 (f_groups m);
       (* Validate it looks like a constellation name *)
       if nonempty constellation && Nat.ltb 3 (length constellation)
          && negb (starts_with (py "Story") constellation)
       then Some (Some constellation) else Some None).

(** [Birthday\s*([A-Z][a-z]+\s+\d+)] *)
Definition re_birthday : regex :=
  cat [L "Birthday"; Star sp; Grp 1 (cat [upper_AZ; Plus lower_az; Plus sp; Plus d])].

(** ** The description synthesizer *)

Definition IDENTITY_KEYWORDS : list str :=
  map py ["archon"; "god"; "deity"; "immortal"; "former"; "current"; "leader";
          "founder"; "captain"; "consultant"; "knight"; "descendant"; "wander";
          "guardian"]%string.

Definition NOISE : list str :=
  map py ["voice actor"; "english"; "chinese"; "japanese"; "birthday";
          "constellation"; "release date"; "featured"; "event wish";
          "how to obtain"]%string.

(** [^(a|an|the)\s+] *)
Definition re_article : regex :=
  cat [Bol; Grp 1 (alts [L "a"; L "an"; L "the"]); Plus sp].
(** [\b(he|she)\s+is\b] *)
Definition re_pronoun_is : regex :=
  cat [WordB; Grp 1 (Alt (L "he") (L "she")); Plus sp; L "is"; WordB].

Definition count_in (kws : list str) (s : str) : Z :=
  Z.of_nat (length (filter (fun kw => Is_true (contains kw s)) kws)).

(** [_score_sentence] *)
Definition _score_sentence (sentence name : str) : Z :=
  let s := lower sentence in
  let score := 0%Z in
  (* Narrative openers *)
  let score := if matched (re_match false re_article s) then (score + 3)%Z else score in
  (* Pronoun-based identity *)
  let score := if matched (re_search false re_pronoun_is s) then (score + 3)%Z else score in
  (* Name explicitly mentioned *)
  let score := if contains (lower name) s then (score + 4)%Z else score in
  (* Identity keywords *)
  let score := (score + 2 * count_in IDENTITY_KEYWORDS s)%Z in
  (* Penalty: obvious noise *)
  (score - 4 * count_in NOISE s)%Z.

(** [_aggressive_spacing_fix] *)
Definition _aggressive_spacing_fix (text : str) : str :=
  match text with
  | [] => text
  | _ =>
      let letter := Chr (CIn [IRange 97 122; IRange 65 90]) in
      let text := re_sub false re_lower_upper [TGroup 1; T " "; TGroup 2] text in
      (* (is)([A-Z]) *)
      let text := re_sub false (cat [Grp 1 (L "is"); Grp 2 upper_AZ])
                         [TGroup 1; T " "; TGroup 2] text in
      (* ([a-zA-Z])(character), ignoring case *)
      let text := re_sub true (cat [Grp 1 letter; Grp 2 (L "character")])
                         [TGroup 1; T " character"] text in
      (* ([a-zA-Z])(Archon) *)
      let text := re_sub false (cat [Grp 1 letter; Grp 2 (L "Archon")])
                         [TGroup 1; T " Archon"] text in
      (* ([a-zA-Z])(Harbinger) *)
      let text := re_sub false (cat [Grp 1 letter; Grp 2 (L "Harbinger")])
                         [TGroup 1; T " Harbinger"] text in
      let text := re_sub false re_spaces [T " "] text in
      strip text
  end.

(** [(?<=[.!?])\s+]: the boundary between two sentences. *)
Definition re_sentence_end : regex := cat [Behind (one_of ".!?"); Plus sp].

Definition split_sentences (text : str) : list str :=
  re_split false re_sentence_end text.

Definition len_between (lo hi : nat) (s : str) : bool :=
  Nat.leb lo (length s) && Nat.leb (length s) hi.

(** The markers of [_extract_marker_lore]; [Lit name] is [re.escape(name)]. *)
Definition MARKERS (name : str) : list regex :=
  [ cat [L "Playable Characters"; Star sp; Lit name];
    cat [L "Playable Characters"; LazyStar (Chr CAny); Lit name];
    cat [Lit name; Plus sp; L "is"; Plus sp; L "a"; Plus sp; L "playable"] ].

(** [_extract_marker_lore] *)
Definition _extract_marker_lore (text name : str) : list str :=
  flat_map
    (fun marker =>
       match re_search true marker text with
       | Some m =>
           let tail := take 800 (f_after m) in
           let sentences := split_sentences tail in
           filter (fun s => Is_true (len_between 40 400 s))
                  (map strip (take 3 sentences))
       | None => []
       end)
    (MARKERS name).

Definition role_reveal_patterns : list regex :=
  [ L "is later revealed to be";
    cat [L "is the "; LazyStar (Chr CAny); L " archon"];
    cat [L "is the "; LazyStar (Chr CAny); L " harbinger"];
    L "a consultant of";
    cat [L "former "; LazyStar (Chr CAny); L " of"];
    L "leader of";
    L "founder of";
    L "from another world";
    L "crossover character" ].

(** [_extract_role_reveal_lore] *)
Definition _extract_role_reveal_lore (sentences : list str) : list str :=
  flat_map
    (fun s =>
       let s_low := lower s in
       if existsb (fun p => matched (re_search false p s_low))
                  role_reveal_patterns
       then (if len_between 40 300 s then [strip s] else [])
       else [])
    sentences.

(** [_extract_official_intro] *)
Fixpoint first_official_intro (items : list (str * str)) : option str :=
  match items with
  | [] => None
  | (key, value) :: rest =>
      if str_eqb (lower key) (py "official introduction")
         && nonempty value && Nat.ltb 200 (length value)
      then Some (strip value)
      else first_official_intro rest
  end.

Definition _extract_official_intro (sections : list (str * str)) : option str :=
  match sections with
  | [] => None
  | _ => first_official_intro sections
  end.

(** [_is_system_character] *)
Definition _is_system_character (name url intro : str) : bool :=
  let text := lower (name ++ py " " ++ url ++ py " " ++ intro) in
  has "wonderland" text || has "gameplay mode" text || has "system character" text.

Definition SYSTEM_CHARACTER_DESCRIPTION : str :=
  py ("The Wonderland Manekin is a playable system character representing "
      ++ "the Miliastra Wonderland gameplay mode in Genshin Impact.").

(** [for s in new: if s not in parts: parts.append(s)] *)
Definition append_new (parts new : list str) : list str :=
  fold_left (fun parts s => if str_in s parts then parts else parts ++ [s])
            new parts.

(** A stable sort by decreasing score: [sort(key=..., reverse=True)]. *)
Fixpoint insert_scored (x : str * Z) (l : list (str * Z)) : list (str * Z) :=
  match l with
  | [] => [x]
  | y :: rest =>
      if (snd y <? snd x)%Z then x :: l else y :: insert_scored x rest
  end.

Definition sort_scored (l : list (str * Z)) : list (str * Z) :=
  fold_left (fun acc x => insert_scored x acc) l [].

(** [extract_clean_description] *)
Definition extract_clean_description (name intro full_text : str)
    (sections : list (str * str)) (url : str) : str :=
  (* Tier-2: System / mode characters (early return) *)
  if _is_system_character name url intro then SYSTEM_CHARACTER_DESCRIPTION
  else
    let description_parts := [] in
    (* Tier-1.5: Official Introduction *)
    let description_parts :=
      match _extract_official_intro sections with
      | Some official_intro =>
          if nonempty official_intro then description_parts ++ [official_intro]
          else description_parts
      | None => description_parts
      end in
    let fixed_intro := _aggressive_spacing_fix intro in
    (* Sentence split AFTER aggressive spacing fix *)
    let sentences := split_sentences fixed_intro in
    (* Tier-0: Marker-based lore *)
    let description_parts :=
      append_new description_parts (_extract_marker_lore fixed_intro name) in
    (* Tier-1: Role / identity reveal lore *)
    let description_parts :=
      append_new description_parts (_extract_role_reveal_lore sentences) in
    (* Existing scoring logic *)
    let scored :=
      map (fun s => (s, _score_sentence s name))
          (filter (fun s => Is_true (len_between 30 400 s)) (map strip sentences)) in
    let scored := sort_scored scored in
    let selected :=
      take 3 (map fst (filter (fun x => Is_true (4 <=? snd x)%Z) scored)) in
    let description_parts := append_new description_parts selected in
    (* Final fallback *)
    let description :=
      match description_parts with
      | [] => match sentences with
              | s0 :: _ => s0
              | [] => take 300 fixed_intro
              end
      | _ => join (py " ") (take 3 description_parts)
      end in
    (* Final cleanup *)
    let description := clean_text description in
    strip (re_sub false re_spaces [T " "] description).

(** ** Dictionaries whose values are Python objects

    The processed record is a Python dict; whether a key is present or holds
    [None] is visible to [dict.get] with a default.  A call that raises
    gives [None]. *)

(** [d.get(key)] *)
Definition get (d : gmap string pyval) (key : string) : pyval :=
  default VNone (d !! key).

(** [d.get(key, dflt)] *)
Definition get_or (d : gmap string pyval) (key : string) (dflt : pyval) : pyval :=
  default dflt (d !! key).

Definition opt_str (o : option str) : pyval :=
  match o with Some s => VStr s | None => VNone end.

Definition opt_int (o : option Z) : pyval :=
  match o with Some n => VInt n | None => VNone end.

(** The string of a value on which a [str] method is called. *)
Definition as_str (v : pyval) : option str :=
  match v with VStr s => Some s | _ => None end.

(** [len(v)] *)
Definition py_len (v : pyval) : option nat :=
  match v with
  | VStr s => Some (length s)
  | VList l => Some (length l)
  | VFlags d => Some (length d)
  | VDict d => Some (length d)
  | _ => None
  end.

(** What [for x in v] goes through. *)
Definition py_iter (v : pyval) : option (list str) :=
  match v with
  | VStr s => Some (map (fun c => [c]) s)
  | VList l => Some l
  | VFlags d => Some (map (fun kv => py (fst kv)) d)
  | VDict d => Some (map fst d)
  | _ => None
  end.

(** [sep.join(v)] *)
Definition py_join (sep : str) (v : pyval) : option str :=
  join sep <$> py_iter v.

(** [v.items()] *)
Definition py_items (v : pyval) : option (list (str * pyval)) :=
  match v with
  | VFlags d => Some (map (fun kv => (py (fst kv), VBool (snd kv))) d)
  | VDict d => Some (map (fun kv => (fst kv, VStr (snd kv))) d)
  | _ => None
  end.

Definition scalar_eqb (a b : pyval) : bool :=
  match a, b with
  | VNone, VNone => true
  | VBool x, VBool y => Bool.eqb x y
  | VInt x, VInt y => Z.eqb x y
  | VBool x, VInt y | VInt y, VBool x => Z.eqb y (if x then 1 else 0)
  | VStr x, VStr y => str_eqb x y
  | VList x, VList y => bool_decide (x = y)
  | _, _ => false
  end.

Fixpoint lookup_item (k : str) (items : list (str * pyval)) : option pyval :=
  match items with
  | [] => None
  | (k', v) :: rest => if str_eqb k k' then Some v else lookup_item k rest
  end.

(** [a == b]; two dicts are equal when they map the same keys to equal
    values, whatever the order of insertion. *)
Definition py_eqb (a b : pyval) : bool :=
  match py_items a, py_items b with
  | Some x, Some y =>
      Nat.eqb (length x) (length y)
      && forallb (fun kv => match lookup_item (fst kv) y with
                            | Some v => scalar_eqb (snd kv) v
                            | None => false
                            end) x
  | None, None => scalar_eqb a b
  | _, _ => false
  end.

(** [d[key] = value] on an ordered dict: a present key keeps its place. *)
Fixpoint dict_set (d : list (str * str)) (key value : str) : list (str * str) :=
  match d with
  | [] => [(key, value)]
  | (k, v) :: rest =>
      if str_eqb k key then (k, value) :: rest
      else (k, v) :: dict_set rest key value
  end.

(** ** The record assembler *)

(** [_clean_section_name] *)
Definition _clean_section_name (name : str) : str :=
  (* \[\] *)
  let name := re_sub false (L "[]") [] name in
  (* \[.*?\] *)
  let name := re_sub false (cat [L "["; LazyStar (Chr CAny); L "]"]) [] name in
  strip name.

Definition nl : str := [c_newline].

(** [when c block]: the lines appended under the condition [c]. *)
Definition when {A} (c : bool) (block : list A) : list A :=
  if c then block else [].

Definition rag_fields : list (string * string) :=
  [ ("Element", "element"); ("Weapon", "weapon"); ("Rarity", "rarity");
    ("Region", "region"); ("Model", "model_type"); ("Birthday", "birthday");
    ("Constellation", "constellation");
    ("Character Type", "character_type") ]%string.

Definition skip_sections : list str :=
  map py ["Ascensions"; "Stats"; "Wishes"; "Bargains"; "Gallery"; "Trivia"]%string.

(** The lines of one section in [_create_rag_text]. *)
Definition section_lines (item : str * pyval) : option (list str) :=
  let '(section_name, section_content) := item in
  if negb (existsb (fun skip => contains skip section_name) skip_sections) then
    if truthy section_content then
      n ← py_len section_content;
      if Nat.ltb 30 n
      then Some [py "## " ++ section_name; py_str section_content; []]
      else Some []
    else Some []
  else Some [].

(** [_create_rag_text].  [parts] grows by one block of lines at a time; a
    block whose condition fails is empty. *)
Definition _create_rag_text (info : gmap string pyval) : option str :=
  (* Character name as header *)
  name ← info !! "name";
  let parts := [py "# " ++ py_str name] in
  let parts := parts ++
    when (truthy (get info "title"))
         [py "Also known as: " ++ py_str (get info "title")] in
  let parts := parts ++
    when (truthy (get info "real_name")
          && negb (py_eqb (get info "real_name") name))
         [py "Real name: " ++ py_str (get info "real_name")] in
  let parts := parts ++ [[]] in
  (* Basic information in a structured format *)
  let parts := parts ++ [py "## Basic Information"] in
  let parts := parts ++
    flat_map
      (fun field =>
         let '(label, key) := field in
         let value := get info key in
         when (truthy value)
              [if String.eqb key "rarity"
               then py "- " ++ py label ++ py ": " ++ py_str value ++ py "-Star"
               else py "- " ++ py label ++ py ": " ++ py_str value])
      rag_fields in
  (* Affiliations *)
  affiliations ←
    (if truthy (get info "affiliations") then
       joined ← py_join (py ", ") (get info "affiliations");
       Some [py "- Affiliations: " ++ joined]
     else Some []);
  let parts := parts ++ affiliations in
  let parts := parts ++ [[]] in
  (* Role information *)
  let parts := parts ++
    when (truthy (get info "role_summary"))
         [py "## Character Roles";
          py "- Role: " ++ py_str (get info "role_summary"); []] in
  (* Obtain methods *)
  obtain ←
    (if truthy (get info "how_to_obtain") then
       methods ← py_iter (get info "how_to_obtain");
       Some ([py "## How to Obtain"]
             ++ map (fun method => py "- " ++ method) methods
             ++ when (truthy (get info "event_wishes_count"))
                     [py "- Featured in "
                      ++ py_str (get info "event_wishes_count")
                      ++ py " Event Wishes"]
             ++ [[]])
     else Some []);
  let parts := parts ++ obtain in
  (* Release date *)
  let parts := parts ++
    when (truthy (get info "release_date"))
         [py "## Release Date";
          py "Released on: " ++ py_str (get info "release_date"); []] in
  (* Voice actors *)
  actors ←
    (if truthy (get info "voice_actors") then
       items ← py_items (get info "voice_actors");
       Some ([py "## Voice Actors"]
             ++ map (fun kv => py "- " ++ capitalize (fst kv) ++ py ": "
                               ++ py_str (snd kv)) items
             ++ [[]])
     else Some []);
  let parts := parts ++ actors in
  (* Special dish *)
  let parts := parts ++
    when (truthy (get info "special_dish"))
         [py "## Special Dish"; py "- " ++ py_str (get info "special_dish"); []] in
  (* Namecard *)
  let parts := parts ++
    when (truthy (get info "namecard"))
         [py "## Namecard"; py "- " ++ py_str (get info "namecard"); []] in
  (* Description *)
  about ←
    (if truthy (get info "description") then
       description ← as_str (get info "description");
       Some [py "## About"; description; []]
     else Some []);
  let parts := parts ++ about in
  (* Include relevant sections *)
  items ← py_items (get_or info "sections" (VDict []));
  sections ← mapM section_lines items;
  Some (join nl (parts ++ concat sections)).

(** The raw record of the crawler, as loaded from JSON; a key may be
    missing. *)
Record RawCharacterRecord := {
  raw_name : option str;
  raw_url : option str;
  raw_introduction : option str;
  raw_full_text : option str;
  raw_sections : option (list (str * str));
}.

(** The comprehension that cleans the sections. *)
Definition clean_sections (sections : list (str * str)) : list (str * str) :=
  fold_left
    (fun acc kv =>
       if nonempty (snd kv) && Nat.ltb 20 (length (snd kv))
       then dict_set acc (_clean_section_name (fst kv)) (clean_text (snd kv))
       else acc)
    sections [].

(** [process_character] *)
Definition process_character (raw_data : RawCharacterRecord)
    : option (gmap string pyval) :=
  let name := default (py "Unknown") (raw_name raw_data) in
  let intro := default [] (raw_introduction raw_data) in
  (* Extract all fields *)
  title ← extract_title intro;
  constellation ← extract_constellation intro;
  let info : gmap string pyval :=
    <["constellation" := opt_str constellation]> (
    <["affiliations" := VList (extract_affiliation intro)]> (
    <["title" := opt_str title]> (
    <["model_type" := opt_str (_extract_model_type intro)]> (
    <["region" := opt_str (_extract_field intro regions)]> (
    <["rarity" := VInt (extract_rarity name intro)]> (
    <["weapon" := opt_str (_extract_field intro weapons)]> (
    <["element" := opt_str (_extract_field intro elements)]> (
    <["url" := VStr (default [] (raw_url raw_data))]> (
    <["name" := VStr name]> ∅))))))))) in
  (* Extract character roles *)
  let roles := extract_character_roles intro in
  let info := <["roles" := VFlags roles]> info in
  let info := <["role_summary" := VStr (_create_role_summary roles)]> info in
  (* Extract how to obtain *)
  how_to_obtain ← extract_how_to_obtain intro;
  let info := <["how_to_obtain" := VList how_to_obtain]> info in
  (* Extract release date *)
  release_date ← extract_release_date intro;
  let info := <["release_date" := opt_str release_date]> info in
  (* Extract voice actors *)
  voice_actors ← extract_voice_actors intro;
  let info := <["voice_actors" := VDict voice_actors]> info in
  (* Extract character type (biological/synthetic/adoptive) *)
  let info := <["character_type" := VStr (extract_character_type intro)]> info in
  (* Extract event wishes count *)
  event_wishes_count ← extract_event_wishes intro;
  let info := <["event_wishes_count" := opt_int event_wishes_count]> info in
  (* Extract special dish *)
  special_dish ← extract_special_dish intro;
  let info := <["special_dish" := opt_str special_dish]> info in
  (* Extract namecard *)
  namecard ← extract_namecard intro;
  let info := <["namecard" := opt_str namecard]> info in
  (* Extract real name *)
  real_name ← extract_real_name intro;
  let info := <["real_name" := opt_str real_name]> info in
  (* Extract birthday *)
  info ←
    match re_search false re_birthday intro with
    | Some birthday_match =>
        birthday ← group 1 (f_groups birthday_match);
        Some (<["birthday" := VStr birthday]> info)
    | None => Some info
    end;
  (* Create clean description *)
  let info :=
    <["description" :=
        VStr (extract_clean_description name intro
                (default [] (raw_full_text raw_data))
                (default [] (raw_sections raw_data))
                (default [] (raw_url raw_data)))]> info in
  (* Clean sections *)
  let sections := default [] (raw_sections raw_data) in
  let info := <["sections" := VDict (clean_sections sections)]> info in
  (* Create optimized full text for RAG *)
  full_text ← _create_rag_text info;
  Some (<["full_text" := VStr full_text]> info).

(** The processed record as a typed structure, and the dict it stands for.
    [structured] takes every field from its extractor; [process_character],
    when it returns, is shown below to return the dict of [structured],
    with its rendering under the key 'full_text'. *)
Record StructuredCharacterRecord := {
  sc_name : str;
  sc_url : str;
  sc_element : option str;
  sc_weapon : option str;
  sc_rarity : Z;
  sc_region : option str;
  sc_model_type : option str;
  sc_title : option str;
  sc_affiliations : list str;
  sc_constellation : option str;
  sc_roles : list (string * bool);
  sc_role_summary : str;
  sc_how_to_obtain : list str;
  sc_release_date : option str;
  sc_voice_actors : list (str * str);
  sc_character_type : str;
  sc_event_wishes_count : option Z;
  sc_special_dish : option str;
  sc_namecard : option str;
  sc_real_name : option str;
  sc_birthday : option str;     (* [None]: the key is absent *)
  sc_description : str;
  sc_sections : list (str * str);
}.

Definition with_birthday (birthday : option str) (info : gmap string pyval)
    : gmap string pyval :=
  match birthday with
  | Some birthday => <["birthday" := VStr birthday]> info
  | None => info
  end.

Definition to_dict (r : StructuredCharacterRecord) : gmap string pyval :=
  <["sections" := VDict (sc_sections r)]> (
  <["description" := VStr (sc_description r)]> (
  with_birthday (sc_birthday r) (
  <["real_name" := opt_str (sc_real_name r)]> (
  <["namecard" := opt_str (sc_namecard r)]> (
  <["special_dish" := opt_str (sc_special_dish r)]> (
  <["event_wishes_count" := opt_int (sc_event_wishes_count r)]> (
  <["character_type" := VStr (sc_character_type r)]> (
  <["voice_actors" := VDict (sc_voice_actors r)]> (
  <["release_date" := opt_str (sc_release_date r)]> (
  <["how_to_obtain" := VList (sc_how_to_obtain r)]> (
  <["role_summary" := VStr (sc_role_summary r)]> (
  <["roles" := VFlags (sc_roles r)]> (
  <["constellation" := opt_str (sc_constellation r)]> (
  <["affiliations" := VList (sc_affiliations r)]> (
  <["title" := opt_str (sc_title r)]> (
  <["model_type" := opt_str (sc_model_type r)]> (
  <["region" := opt_str (sc_region r)]> (
  <["rarity" := VInt (sc_rarity r)]> (
  <["weapon" := opt_str (sc_weapon r)]> (
  <["element" := opt_str (sc_element r)]> (
  <["url" := VStr (sc_url r)]> (
  <["name" := VStr (sc_name r)]> ∅)))))))))))))))))))))).

(** The value of an extractor where it does not raise. *)
Definition value {A} (dflt : A) (result : option A) : A := default dflt result.

Definition structured (raw_data : RawCharacterRecord) : StructuredCharacterRecord :=
  let name := default (py "Unknown") (raw_name raw_data) in
  let intro := default [] (raw_introduction raw_data) in
  let url := default [] (raw_url raw_data) in
  let sections := default [] (raw_sections raw_data) in
  let roles := extract_character_roles intro in
  {| sc_name := name;
     sc_url := url;
     sc_element := _extract_field intro elements;
     sc_weapon := _extract_field intro weapons;
     sc_rarity := extract_rarity name intro;
     sc_region := _extract_field intro regions;
     sc_model_type := _extract_model_type intro;
     sc_title := value None (extract_title intro);
     sc_affiliations := extract_affiliation intro;
     sc_constellation := value None (extract_constellation intro);
     sc_roles := roles;
     sc_role_summary := _create_role_summary roles;
     sc_how_to_obtain := value [] (extract_how_to_obtain intro);
     sc_release_date := value None (extract_release_date intro);
     sc_voice_actors := value [] (extract_voice_actors intro);
     sc_character_type := extract_character_type intro;
     sc_event_wishes_count := value None (extract_event_wishes intro);
     sc_special_dish := value None (extract_special_dish intro);
     sc_namecard := value None (extract_namecard intro);
     sc_real_name := value None (extract_real_name intro);
     sc_birthday :=
       match re_search false re_birthday intro with
       | Some birthday_match => group 1 (f_groups birthday_match)
       | None => None
       end;
     sc_description :=
       extract_clean_description name intro
         (default [] (raw_full_text raw_data)) sections url;
     sc_sections := clean_sections sections |}.

(** ** The chunker *)

(** The values of the key 'chunk_type'. *)
Inductive ChunkType := ct_basic_info | ct_description | ct_meta_info | ct_section.

Global Instance ChunkType_eq_dec : EqDecision ChunkType.
Proof. solve_decision. Defined.

Record Chunk := {
  id : str;
  character : str;
  chunk_type : ChunkType;
  section_name : option str;
  content : str;
  metadata : list (string * pyval);
}.

(** [name.lower().replace(' ', '_')] *)
Definition slug (name : str) : str := replace_char 32 (py "_") (lower name).

Definition metadata_of (char : gmap string pyval) (keys : list string)
    : list (string * pyval) :=
  map (fun key => (key, get char key)) keys.

(** The basic-info chunk of one record. *)
Definition basic_chunk (char : gmap string pyval) (name : str) : option Chunk :=
  let basic_info :=
    py "# " ++ name ++ nl ++ nl
    ++ py "## Basic Information" ++ nl
    ++ py "- Element: " ++ py_str (get_or char "element" (VStr (py "Unknown"))) ++ nl
    ++ py "- Weapon: " ++ py_str (get_or char "weapon" (VStr (py "Unknown"))) ++ nl
    ++ py "- Rarity: " ++ py_str (get_or char "rarity" (VInt 4)) ++ py "-Star" ++ nl
    ++ py "- Region: " ++ py_str (get_or char "region" (VStr (py "Unknown"))) ++ nl
    ++ py "- Role: " ++ py_str (get_or char "role_summary" (VStr (py "Unknown"))) ++ nl in
  affiliations ←
    (if truthy (get char "affiliations") then
       joined ← py_join (py ", ") (get char "affiliations");
       Some (py "- Affiliations: " ++ joined ++ nl)
     else Some []);
  let basic_info := basic_info ++ affiliations in
  let basic_info := basic_info ++
    when (truthy (get char "birthday"))
         (py "- Birthday: " ++ py_str (get char "birthday") ++ nl) in
  let basic_info := basic_info ++
    when (truthy (get char "release_date"))
         (py "- Release Date: " ++ py_str (get char "release_date") ++ nl) in
  Some {| id := slug name ++ py "_basic";
          character := name;
          chunk_type := ct_basic_info;
          section_name := None;
          content := strip basic_info;
          metadata := metadata_of char ["element"; "weapon"; "rarity"; "region";
                                        "role_summary"; "url"]%string |}.

(** The description chunk, when the description is longer than 50. *)
Definition description_chunks (char : gmap string pyval) (name : str)
    : option (list Chunk) :=
  if truthy (get char "description") then
    n ← py_len (get char "description");
    if Nat.ltb 50 n then
      let desc_chunk :=
        py "# " ++ name ++ py " - Description" ++ nl ++ nl
        ++ py_str (get char "description") ++ nl in
      Some [ {| id := slug name ++ py "_description";
                character := name;
                chunk_type := ct_description;
                section_name := None;
                content := strip desc_chunk;
                metadata := metadata_of char ["element"; "weapon"; "region";
                                              "url"]%string |} ]
    else Some []
  else Some [].

(** The chunk of voice actors and other meta information. *)
Definition meta_chunks (char : gmap string pyval) (name : str)
    : option (list Chunk) :=
  if truthy (get char "voice_actors") || truthy (get char "special_dish") then
    let meta_content := py "# " ++ name ++ py " - Additional Info" ++ nl ++ nl in
    actors ←
      (if truthy (get char "voice_actors") then
         items ← py_items (get char "voice_actors");
         Some (py "## Voice Actors" ++ nl
               ++ concat (map (fun kv => py "- " ++ capitalize (fst kv) ++ py ": "
                                         ++ py_str (snd kv) ++ nl) items)
               ++ nl)
       else Some []);
    let meta_content := meta_content ++ actors in
    let meta_content := meta_content ++
      when (truthy (get char "special_dish"))
           (py "## Special Dish" ++ nl ++ py "- "
            ++ py_str (get char "special_dish") ++ nl ++ nl) in
    let meta_content := meta_content ++
      when (truthy (get char "namecard"))
           (py "## Namecard" ++ nl ++ py "- "
            ++ py_str (get char "namecard") ++ nl ++ nl) in
    obtain ←
      (if truthy (get char "how_to_obtain") then
         methods ← py_iter (get char "how_to_obtain");
         Some (py "## How to Obtain" ++ nl
               ++ concat (map (fun method => py "- " ++ method ++ nl) methods))
       else Some []);
    let meta_content := meta_content ++ obtain in
    Some [ {| id := slug name ++ py "_meta";
              character := name;
              chunk_type := ct_meta_info;
              section_name := None;
              content := strip meta_content;
              metadata := metadata_of char ["element"; "url"]%string |} ]
  else Some [].

(** The chunk of one section, when its body is longer than 50. *)
Definition section_chunks (char : gmap string pyval) (name : str)
    (item : str * pyval) : option (list Chunk) :=
  let '(the_section_name, section_content) := item in
  if truthy section_content then
    n ← py_len section_content;
    if Nat.ltb 50 n then
      let section_chunk :=
        py "# " ++ name ++ py " - " ++ the_section_name ++ nl ++ nl
        ++ py_str section_content ++ nl in
      Some [ {| id := slug name ++ py "_" ++ slug the_section_name;
                character := name;
                chunk_type := ct_section;
                section_name := Some the_section_name;
                content := strip section_chunk;
                metadata := metadata_of char ["element"; "weapon"; "region";
                                              "url"]%string |} ]
    else Some []
  else Some [].

(** The body of the loop of [create_smart_chunks]: the chunks of one
    record.  The name has to be a string for the chunk ids. *)
Definition character_chunks (char : gmap string pyval) : option (list Chunk) :=
  name ← as_str (get_or char "name" (VStr (py "Unknown")));
  (* Chunk 1: Basic info chunk (always created) *)
  basic ← basic_chunk char name;
  (* Chunk 2: Description chunk *)
  desc ← description_chunks char name;
  (* Chunk 3: Voice actors and meta info *)
  meta ← meta_chunks char name;
  (* Additional chunks from sections *)
  items ← py_items (get_or char "sections" (VDict []));
  sections ← mapM (section_chunks char name) items;
  Some (basic :: desc ++ meta ++ concat sections).

(** [create_smart_chunks]; the parameter [chunk_size] is not used by the
    source. *)
Definition create_smart_chunks (data : list (gmap string pyval))
    : option (list Chunk) :=
  chunks ← mapM character_chunks data;
  Some (concat chunks).

(** ** The batch driver

    [process_all], for the list that [json.load] returns: a record whose
    processing raises is reported and left out of the result. *)
Definition process_all (raw_data : list RawCharacterRecord)
    : list (gmap string pyval) :=
  omap process_character raw_data.

(** ** The statistics *)

(** A value that can be the key of a dict. *)
Definition hashable (v : pyval) : bool :=
  match v with
  | VNone | VBool _ | VInt _ | VStr _ => true
  | _ => false
  end.

(** [d[key] = d.get(key, 0) + 1] on an ordered dict of counts. *)
Fixpoint count_up (d : list (pyval * nat)) (key : pyval) : list (pyval * nat) :=
  match d with
  | [] => [(key, 1)]
  | (k, n) :: rest =>
      if scalar_eqb k key then (k, n + 1) :: rest
      else (k, n) :: count_up rest key
  end.

(** The same, raising TypeError on a key that cannot be hashed. *)
Definition bump (d : list (pyval * nat)) (key : pyval)
    : option (list (pyval * nat)) :=
  if hashable key then Some (count_up d key) else None.

Record MissingFields := {
  missing_element : nat;
  missing_weapon : nat;
  missing_region : nat;
  missing_description : nat;
  missing_voice_actors : nat;
}.

Record Stats := {
  total_characters : nat;
  by_element : list (pyval * nat);
  by_weapon : list (pyval * nat);
  by_region : list (pyval * nat);
  by_rarity : list (pyval * nat);
  by_role : list (pyval * nat);
  by_character_type : list (pyval * nat);
  missing_fields : MissingFields;
}.

(** [n += 1] under the condition [c]. *)
Definition incr_if (c : bool) (n : nat) : nat := if c then n + 1 else n.

(** The body of the loop of [generate_stats]. *)
Definition stats_step (stats : Stats) (char : gmap string pyval) : option Stats :=
  let unknown := VStr (py "Unknown") in
  (* Count by element, weapon, region, rarity, role, character type *)
  by_element' ← bump (by_element stats) (get_or char "element" unknown);
  by_weapon' ← bump (by_weapon stats) (get_or char "weapon" unknown);
  by_region' ← bump (by_region stats) (get_or char "region" unknown);
  by_rarity' ← bump (by_rarity stats) (get_or char "rarity" unknown);
  by_role' ← bump (by_role stats) (get_or char "role_summary" unknown);
  by_character_type' ←
    bump (by_character_type stats) (get_or char "character_type" unknown);
  (* Count missing fields *)
  let missing := missing_fields stats in
  no_description ←
    (if negb (truthy (get char "description")) then Some true
     else n ← py_len (get_or char "description" (VStr [])); Some (Nat.ltb n 50));
  Some {| total_characters := total_characters stats;
          by_element := by_element';
          by_weapon := by_weapon';
          by_region := by_region';
          by_rarity := by_rarity';
          by_role := by_role';
          by_character_type := by_character_type';
          missing_fields :=
            {| missing_element :=
                 incr_if (negb (truthy (get char "element")))
                         (missing_element missing);
               missing_weapon :=
                 incr_if (negb (truthy (get char "weapon")))
                         (missing_weapon missing);
               missing_region :=
                 incr_if (negb (truthy (get char "region")))
                         (missing_region missing);
               missing_description :=
                 incr_if no_description (missing_description missing);
               missing_voice_actors :=
                 incr_if (negb (truthy (get char "voice_actors")))
                         (missing_voice_actors missing) |} |}.

Fixpoint stats_loop (stats : Stats) (data : list (gmap string pyval))
    : option Stats :=
  match data with
  | [] => Some stats
  | char :: rest => stats' ← stats_step stats char; stats_loop stats' rest
  end.

(** [generate_stats] *)
Definition generate_stats (data : list (gmap string pyval)) : option Stats :=
  stats_loop
    {| total_characters := length data;
       by_element := []; by_weapon := []; by_region := []; by_rarity := [];
       by_role := []; by_character_type := [];
       missing_fields :=
         {| missing_element := 0; missing_weapon := 0; missing_region := 0;
            missing_description := 0; missing_voice_actors := 0 |} |}
    data.

End Processor.


(** ** Vocabulary of the properties *)

(** The keywords that [extract_how_to_obtain] looks for. *)
Definition obtain_keywords : list str :=
  map py ["wishes"; "wish"; "event wish"; "chronicled wishes";
          "paimon's bargains"; "adventure rank"; "archon quest";
          "complete"]%string.

(** The introduction of the first scenario of the specification. *)
Definition diluc_intro : str := py "DilucisaPyrocharacterwhousesClaymore.".

(** A string of [n] characters holds no run of digits that [int] refuses. *)
Definition fits_int_limit (U : Unicode) (n : nat) : Prop :=
  u_int_max_str_digits U = 0%N \/ (N.of_nat n <= u_int_max_str_digits U)%N.


(** The number of chunks of one kind. *)
Definition count_type (t : ChunkType) (chunks : list Chunk) : nat :=
  length (filter (fun c => chunk_type c = t) chunks).

(** The condition of the description chunk: a description that is present
    and longer than 50. *)
Definition has_long_description (char : gmap string pyval) : bool :=
  truthy (get char "description")
  && match py_len (get char "description") with
     | Some n => Nat.ltb 50 n
     | None => false
     end.

(** A record whose description has 40 characters. *)
Definition short_description_record : gmap string pyval :=
  <["description" := VStr (py "A cheerful outrider of the Knights here.")]> (
  <["name" := VStr (py "Amber")]> ∅).

(** A raw record whose introduction names no element, weapon or region. *)
Definition plain_raw : RawCharacterRecord :=
  {| raw_name := Some (py "Paimon");
     raw_url := Some (py "https://wiki/Paimon");
     raw_introduction := Some (py "A small floating companion.");
     raw_full_text := None;
     raw_sections := None |}.

(** A raw record with no key at all. *)
Definition empty_raw : RawCharacterRecord :=
  {| raw_name := None; raw_url := None; raw_introduction := None;
     raw_full_text := None; raw_sections := None |}.

(** The record with the defaults of [process_character] filled in for a
    missing name and a missing introduction. *)
Definition with_defaults (raw : RawCharacterRecord) : RawCharacterRecord :=
  {| raw_name := Some (default (py "Unknown") (raw_name raw));
     raw_url := raw_url raw;
     raw_introduction := Some (default [] (raw_introduction raw));
     raw_full_text := raw_full_text raw;
     raw_sections := raw_sections raw |}.

(** The record with the empty string for a missing name and a missing
    introduction. *)
Definition with_empty_strings (raw : RawCharacterRecord) : RawCharacterRecord :=
  {| raw_name := Some (default [] (raw_name raw));
     raw_url := raw_url raw;
     raw_introduction := Some (default [] (raw_introduction raw));
     raw_full_text := raw_full_text raw;
     raw_sections := raw_sections raw |}.

(** [a == b] for two raw records: the same keys with equal values, the
    sections compared as dicts. *)
Definition opt_eqb (a b : option str) : bool :=
  match a, b with
  | Some x, Some y => str_eqb x y
  | None, None => true
  | _, _ => false
  end.

Definition raw_eqb (a b : RawCharacterRecord) : bool :=
  opt_eqb (raw_name a) (raw_name b)
  && opt_eqb (raw_url a) (raw_url b)
  && opt_eqb (raw_introduction a) (raw_introduction b)
  && opt_eqb (raw_full_text a) (raw_full_text b)
  && match raw_sections a, raw_sections b with
     | Some x, Some y => py_eqb (VDict x) (VDict y)
     | None, None => true
     | _, _ => false
     end.

(** The keys of a processed record that are computed from the sections. *)
Definition section_keys : list string :=
  ["description"; "sections"; "full_text"]%string.

(** Two raw records that hold the same two sections in a different order. *)
Definition appearance_section : str * str :=
  (py "Appearance", py "She wears a red outfit with a long ribbon in her hair.").
Definition personality_section : str * str :=
  (py "Personality", py "She is cheerful and always ready to help the citizens.").

Definition with_sections (sections : list (str * str)) : RawCharacterRecord :=
  {| raw_name := Some (py "Amber");
     raw_url := Some (py "https://wiki/Amber");
     raw_introduction := Some (py "Amber is a Pyro character who uses a Bow.");
     raw_full_text := None;
     raw_sections := Some sections |}.

Definition appearance_first : RawCharacterRecord :=
  with_sections [appearance_section; personality_section].
Definition personality_first : RawCharacterRecord :=
  with_sections [personality_section; appearance_section].

(** A raw record without name whose introduction counts event wishes with
    4301 digits. *)
Definition long_count_raw : RawCharacterRecord :=
  {| raw_name := None;
     raw_url := None;
     raw_introduction :=
       Some (py "featured in " ++ repeat 49%N 4301 ++ py " Event Wishes");
     raw_full_text := None;
     raw_sections := None |}.

(** The keys whose extractor returns [None] when it finds nothing. *)
Definition optional_keys : list string :=
  ["element"; "weapon"; "region"; "model_type"; "title"; "constellation";
   "release_date"; "event_wishes_count"; "special_dish"; "namecard";
   "real_name"]%string.

(** The passes of [clean_text] that remove markers and separate glued
    words: all of it but the clean-up of whitespace and the final trim. *)
Definition unglue (U : Unicode) (text : str) : str :=
  fix_stuck_patterns U
    (fix_stuck_words U (remove_special_unicode (remove_markers U text))).

(** The length of the run of whitespace that starts a string, and the
    character that stands before what follows the run. *)
Fixpoint run_length (U : Unicode) (s : str) : nat :=
  match s with
  | c :: t => if is_space U c then S (run_length U t) else 0
  | [] => 0
  end.

Fixpoint prev_after_run (U : Unicode) (p : option char) (s : str) : option char :=
  match s with
  | c :: t => if is_space U c then prev_after_run U (Some c) t else p
  | [] => p
  end.

(** One of the characters [.,!?]. *)
Definition is_punct (c : char) : bool :=
  N.eqb c 46 || N.eqb c 44 || N.eqb c 33 || N.eqb c 63.

Definition head_space (U : Unicode) (s : str) : bool :=
  match s with c :: _ => is_space U c | [] => false end.

Definition head_punct (s : str) : bool :=
  match s with c :: _ => is_punct c | [] => false end.

(** Every whitespace character of [s] is the space, and what follows it is
    not [bad_next]. *)
Fixpoint spaced (U : Unicode) (bad_next : str -> bool) (s : str) : bool :=
  match s with
  | [] => true
  | c :: t =>
      (if is_space U c then N.eqb c 32 && negb (bad_next t) else true)
      && spaced U bad_next t
  end.

(** No run of whitespace but single spaces. *)
Definition single_spaced (U : Unicode) (s : str) : bool :=
  spaced U (head_space U) s.

(** Moreover no space stands before [.,!?]. *)
Definition tidy (U : Unicode) (s : str) : bool :=
  spaced U (fun t => head_space U t || head_punct t) s.

(** The letters and the digits of ASCII. *)
Definition ascii_letters : list N := range_chars 65 90 ++ range_chars 97 122.
Definition ascii_digits : list N := range_chars 48 57.

(** Some ASCII letter of [s] is immediately followed by a decimal digit. *)
Fixpoint letter_then_digit (s : str) : bool :=
  match s with
  | a :: t =>
      (ascii_alpha a && match t with b :: _ => ascii_digit b | [] => false end)
      || letter_then_digit t
  | [] => false
  end.

(** The patterns that [clean_text] substitutes, in the order of use. *)
Definition normalizer_patterns : list regex :=
  [re_ref_marker; re_edit_marker; re_note_marker; re_lower_upper]
  ++ map fst stuck_patterns ++ [re_spaces; re_space_punct].

Definition is_none {A} (o : option A) : bool :=
  match o with None => true | Some _ => false end.

(** ** Vocabulary of the further properties *)

(** Neither the first nor the last character is whitespace. *)
Definition trimmed (U : Unicode) (s : str) : bool :=
  negb (head_space U s) && negb (head_space U (reverse s)).

(** Every captured text is made of characters with the property [P]. *)
Definition caps_ok (P : N -> Prop) (g : captures) : Prop :=
  Forall (fun ig => Forall P (snd ig)) g.

(** The characters that a substitution template writes by itself. *)
Definition template_chars (tm : list titem) : str :=
  flat_map (fun x => match x with TText s => s | TGroup _ => [] end) tm.

(** The model types that [_extract_model_type] looks for, and the values of
    [extract_character_type]. *)
Definition model_types : list str :=
  map py ["Tall Male"; "Tall Female"; "Medium Male"; "Medium Female";
          "Short Male"; "Short Female"]%string.

Definition character_types : list str :=
  map py ["Synthetic (Created)"; "Synthetic (Derived)"; "Synthetic";
          "Adoptive"; "Biological"]%string.

(** A value that is [None] or one of the strings of a list. *)
Definition none_or_in (options : list str) (v : pyval) : Prop :=
  v = VNone \/ exists option, option ∈ options /\ v = VStr option.

(** The keys that every processed record has. *)
Definition record_keys : list string :=
  ["name"; "url"; "element"; "weapon"; "rarity"; "region"; "model_type";
   "title"; "affiliations"; "constellation"; "roles"; "role_summary";
   "how_to_obtain"; "release_date"; "voice_actors"; "character_type";
   "event_wishes_count"; "special_dish"; "namecard"; "real_name";
   "description"; "sections"; "full_text"]%string.

(** The obtain methods that do not go through wishes. *)
Definition reward_methods : list str :=
  map py ["Paimon's Bargains"; "Adventure Rank Reward"; "Quest Reward"]%string.

(** The role flags read back from a role summary. *)
Definition roles_of_summary (summary : str) : list (string * bool) :=
  [ ("on_field", contains (py "On-Field") summary);
    ("off_field", contains (py "Off-Field") summary);
    ("dps", contains (py "DPS") summary);
    ("support", contains (py "Support") summary);
    ("survivability", contains (py "Healer/Shielder") summary) ]%string.

(** The bodies of the groups numbered [i] in a pattern. *)
Fixpoint group_bodies (i : nat) (r : regex) : list regex :=
  match r with
  | Seq a b | Alt a b => group_bodies i a ++ group_bodies i b
  | Rep a _ _ _ => group_bodies i a
  | Grp j a => (if Nat.eqb i j then [a] else []) ++ group_bodies i a
  | _ => []
  end.

(** A pattern without literals all of whose character classes lie within
    [Q]: what it matches is made of characters of [Q]. *)
Fixpoint made_of (U : Unicode) (icase : bool) (Q : N -> Prop) (r : regex) : Prop :=
  match r with
  | Chr cs => forall c, cset_match U icase cs c = true -> Q c
  | Lit l => l = []
  | Seq a b | Alt a b => made_of U icase Q a /\ made_of U icase Q b
  | Rep a _ _ _ | Grp _ a => made_of U icase Q a
  | _ => True
  end.

(** An ASCII letter or a whitespace character. *)
Definition letter_or_space (U : Unicode) (c : N) : Prop :=
  ascii_alpha c = true \/ is_space U c = true.

(** The text of a group after a match is the text the group had before, or
    a text that the body of a group with this number matches. *)
Definition captured_by (U : Unicode) (icase : bool) (i : nat) (r : regex)
    (g : captures) (x : str) : Prop :=
  group i g = Some x
  \/ exists a g1 g2, a ∈ group_bodies i r /\ den U icase a x g1 g2.

(** The languages of [extract_voice_actors], in the order of the source. *)
Definition voice_languages : list str :=
  map py ["english"; "chinese"; "japanese"; "korean"]%string.

(** The condition of the meta-info chunk: voice actors or a special dish. *)
Definition has_meta_info (char : gmap string pyval) : bool :=
  truthy (get char "voice_actors") || truthy (get char "special_dish").

(** A section whose text is longer than 50. *)
Definition long_item (item : str * pyval) : bool :=
  truthy (snd item)
  && match py_len (snd item) with
     | Some n => Nat.ltb 50 n
     | None => false
     end.

(** The sections of a record, as the chunker goes through them. *)
Definition section_items (char : gmap string pyval) : list (str * pyval) :=
  default [] (py_items (get_or char "sections" (VDict []))).

Definition long_sections (char : gmap string pyval) : nat :=
  length (filter (fun item => long_item item = true) (section_items char)).

(** A chunk as the chunker writes it: the id has no space and starts with
    the slug of the character, the content is trimmed and starts with the
    header of the character. *)
Definition well_formed_chunk (U : Unicode) (c : Chunk) : Prop :=
  (32%N ∉ id c)
  /\ starts_with (slug U (character c)) (id c) = true
  /\ starts_with (py "# " ++ character c) (content c) = true
  /\ trimmed U (content c) = true.

(** A record with a long description and a long section named
    'Description'. *)
Definition record_with_description_section : gmap string pyval :=
  <["sections" :=
      VDict [(py "Description",
              py "An outrider who patrols the plains and the cliffs of Mondstadt.")]]> (
  <["description" :=
      VStr (py "Amber is the only outrider of the Knights of Favonius today.")]> (
  <["name" := VStr (py "Amber")]> ∅)).

(** The sum of the counts of a dict of counts, and [d.get(key, 0)]. *)
Definition total (d : list (pyval * nat)) : nat := sum_list (map snd d).

Definition count_get (key : pyval) (d : list (pyval * nat)) : nat :=
  default 0 (snd <$> find (fun kn => scalar_eqb (fst kn) key) d).

(** [None] or a string. *)
Definition none_or_str (v : pyval) : Prop :=
  v = VNone \/ exists s, v = VStr s.

(** The counts of one field agree with the count of its missing values:
    the records without a value are counted under the key [None], and the
    default key 'Unknown' is not used. *)
Definition none_counted (d : list (pyval * nat)) (missing : nat) : Prop :=
  count_get VNone d = missing /\ count_get (VStr (py "Unknown")) d = 0.

(** [d.get(key)] on an ordered dict of strings. *)
Definition section_get (key : str) (d : list (str * str)) : option str :=
  snd <$> find (fun kv => str_eqb (fst kv) key) d.

(** A raw section that the assembler keeps: a text longer than 20. *)
Definition kept_section (kv : str * str) : bool :=
  nonempty (snd kv) && Nat.ltb 20 (length (snd kv)).

(** The kept sections with their cleaned names and texts, in the order of
    the raw record. *)
Definition cleaned_sections (U : Unicode) (sections : list (str * str))
    : list (str * str) :=
  map (fun kv => (_clean_section_name U (fst kv), clean_text U (snd kv)))
      (filter (fun kv => kept_section kv = true) sections).

(** A section that [_create_rag_text] leaves out: its name contains one of
    the skipped words, or its text has at most 30 characters. *)
Definition skipped_section (k v : str) : bool :=
  existsb (fun skip => contains skip k) skip_sections
  || Nat.leb (length v) 30.

(** A record with three sections, one of them a gallery. *)
Definition record_with_gallery (gallery : list (str * str)) : gmap string pyval :=
  <["sections" :=
      VDict ([(py "Story",
               py "A long story about the outrider of the Knights of Favonius.")]
             ++ gallery
             ++ [(py "Personality",
                  py "Cheerful, honest and always eager to help everyone.")])]> (
  <["name" := VStr (py "Amber")]> ∅).

(** The two patterns of [_clean_section_name]. *)
Definition re_empty_brackets : regex := L "[]".
Definition re_bracketed : regex := cat [L "["; LazyStar (Chr CAny); L "]"].

(** A raw record whose introduction gives a description longer than 50. *)
Definition amber_raw : RawCharacterRecord :=
  {| raw_name := Some (py "Amber");
     raw_url := Some (py "https://wiki/Amber");
     raw_introduction :=
       Some (py "Amber is the only outrider of the Knights of Favonius in Mondstadt.");
     raw_full_text := None;
     raw_sections := None |}.

(** * Properties *)

(** ** The matcher is sound for [den] *)

Section MatcherFacts.

Context (U : Unicode) (icase : bool).

Lemma lit_match_sound l : forall p s p' s',
  lit_match U icase l p s = Some (p', s') ->
  exists t, s = t ++ s' /\ length t = length l.
Proof.
  induction l as [|a l IH]; intros p s p' s' H; simpl in H.
  - inversion H; subst. by exists [].
  - destruct s as [|c s]; [done|].
    destruct (char_eq U icase c a); [|done].
    destruct (IH _ _ _ _ H) as (t & -> & Hlen).
    exists (c :: t). simpl. by rewrite Hlen.
Qed.

Lemma rep_loop_sound (P : str -> captures -> captures -> Prop) m lo hi greedy :
  (forall p s g k x, m p s g k = Some x ->
     exists t s' p' g', s = t ++ s' /\ P t g g' /\ k p' s' g' = Some x) ->
  forall fuel n p s g k x,
    rep_loop m lo hi greedy fuel n p s g k = Some x ->
    exists j t s' p' g',
      s = t ++ s' /\ iter P j t g g' /\ lo <= n + j /\ k p' s' g' = Some x.
Proof.
  intros Hm. induction fuel as [|fuel IH]; intros n p s g k x H; [done|].
  assert (Hmore : forall y,
    m p s g (fun p' s' g' =>
      if Nat.ltb (length s') (length s)
      then rep_loop m lo hi greedy fuel (S n) p' s' g' k else None) = Some y ->
    exists j t s' p' g',
      s = t ++ s' /\ iter P j t g g' /\ lo <= n + j /\ k p' s' g' = Some y).
  { intros y Hy. apply Hm in Hy as (t1 & s1 & p1 & g1 & -> & HP & Hk).
    destruct (Nat.ltb _ _); [|done].
    apply IH in Hk as (j & t2 & s2 & p2 & g2 & -> & Hit & Hlo & Hk).
    exists (S j), (t1 ++ t2), s2, p2, g2. split; [by rewrite app_assoc|].
    split; [|split; [lia|done]].
    simpl. by exists t1, t2, g1. }
  assert (Hstop : forall y,
    (if Nat.leb lo n then k p s g else None) = Some y ->
    exists j t s' p' g',
      s = t ++ s' /\ iter P j t g g' /\ lo <= n + j /\ k p' s' g' = Some y).
  { intros y Hy. destruct (Nat.leb lo n) eqn:Hle; [|done].
    apply Nat.leb_le in Hle.
    exists 0, [], s, p, g. simpl. repeat split; [lia|done]. }
  simpl in H. destruct greedy.
  - destruct (below n hi).
    + destruct (m p s g _) eqn:Hm1.
      * inversion H; subst. by apply Hmore.
      * by apply Hstop.
    + by apply Hstop.
  - destruct (if Nat.leb lo n then k p s g else None) eqn:Hk1.
    + inversion H; subst. by apply Hstop.
    + destruct (below n hi); [|done]. by apply Hmore.
Qed.

Lemma rx_sound r : forall p s g k x,
  rx U icase r p s g k = Some x ->
  exists t s' p' g',
    s = t ++ s' /\ den U icase r t g g' /\ k p' s' g' = Some x.
Proof.
  induction r as [|cs|l|a IHa b IHb|a IHa b IHb|a IHa lo hi greedy|i a IHa|cs| |];
    intros p s g k x H; cbn [rx] in H.
  - exists [], s, p, g. simpl. eauto.
  - destruct s as [|c s]; [done|].
    destruct (cset_match U icase cs c) eqn:Hc; [|done].
    exists [c], s, (Some c), g. split; [done|]. split; [by exists c|done].
  - destruct (lit_match U icase l p s) as [[p' s']|] eqn:Hl; [|done].
    apply lit_match_sound in Hl as (t & -> & Hlen).
    by exists t, s', p', g.
  - apply IHa in H as (t1 & s1 & p1 & g1 & -> & Ha & H).
    apply IHb in H as (t2 & s2 & p2 & g2 & -> & Hb & H).
    exists (t1 ++ t2), s2, p2, g2. split; [by rewrite app_assoc|].
    split; [|done]. simpl. by exists t1, t2, g1.
  - destruct (rx U icase a p s g k) eqn:Ha.
    + inversion H; subst. apply IHa in Ha as (t & s' & p' & g' & ? & ? & ?).
      exists t, s', p', g'. simpl. eauto.
    + apply IHb in H as (t & s' & p' & g' & ? & ? & ?).
      exists t, s', p', g'. simpl. eauto.
  - apply (rep_loop_sound (den U icase a)) in H
      as (j & t & s' & p' & g' & -> & Hit & Hlo & Hk); [|done].
    exists t, s', p', g'. split; [done|]. split; [|done].
    simpl. exists j. split; [lia|done].
  - apply IHa in H as (t & s' & p' & g' & -> & Ha & H).
    rewrite length_app, Nat.add_sub, take_app_length in H.
    exists t, s', p', ((i, t) :: g'). split; [done|]. split; [|done].
    simpl. by exists g'.
  - destruct p as [c|]; [|done]. destruct (cset_match U icase cs c); [|done].
    by exists [], s, (Some c), g.
  - destruct (xorb _ _); [|done]. by exists [], s, p, g.
  - destruct p; [done|]. by exists [], s, None, g.
Qed.

(** *** The fuel of a repetition is never used up

    The matcher depends on its continuation only through the values it
    returns, so any fuel above the length of the subject gives the same
    result: the result [None] of a repetition always means that nothing
    matches. *)

Lemma rep_loop_ext m lo hi greedy :
  (forall p s g k1 k2,
     (forall p' s' g', k1 p' s' g' = k2 p' s' g') -> m p s g k1 = m p s g k2) ->
  forall fuel n p s g k1 k2,
    (forall p' s' g', k1 p' s' g' = k2 p' s' g') ->
    rep_loop m lo hi greedy fuel n p s g k1
    = rep_loop m lo hi greedy fuel n p s g k2.
Proof.
  intros Hm. induction fuel as [|fuel IH]; intros n p s g k1 k2 Hk; [done|].
  cbn [rep_loop]. rewrite (Hk p s g).
  rewrite (Hm p s g _
             (fun p' s' g' =>
                if Nat.ltb (length s') (length s)
                then rep_loop m lo hi greedy fuel (S n) p' s' g' k2 else None)).
  - done.
  - intros p' s' g'. destruct (Nat.ltb _ _); [|done]. by apply IH.
Qed.

Lemma rx_ext r : forall p s g k1 k2,
  (forall p' s' g', k1 p' s' g' = k2 p' s' g') ->
  rx U icase r p s g k1 = rx U icase r p s g k2.
Proof.
  induction r as [|cs|l|a IHa b IHb|a IHa b IHb|a IHa lo hi greedy|i a IHa|cs| |];
    intros p s g k1 k2 Hk; cbn [rx].
  - apply Hk.
  - destruct s; [done|]. by rewrite Hk.
  - destruct (lit_match U icase l p s) as [[p' s']|]; [|done]. apply Hk.
  - apply IHa. intros p' s' g'. by apply IHb.
  - by rewrite (IHa _ _ _ k1 k2 Hk), (IHb _ _ _ k1 k2 Hk).
  - by apply rep_loop_ext.
  - apply IHa. intros p' s' g'. apply Hk.
  - destruct p; [|done]. by rewrite Hk.
  - by rewrite Hk.
  - destruct p; [done|]. apply Hk.
Qed.

Lemma rep_loop_fuel a lo hi greedy : forall fuel fuel' n p s g k,
  length s < fuel -> length s < fuel' ->
  rep_loop (rx U icase a) lo hi greedy fuel n p s g k
  = rep_loop (rx U icase a) lo hi greedy fuel' n p s g k.
Proof.
  induction fuel as [|fuel IH]; intros fuel' n p s g k Hf Hf'; [lia|].
  destruct fuel' as [|fuel']; [lia|]. cbn [rep_loop].
  rewrite (rx_ext a p s g _
             (fun p' s' g' =>
                if Nat.ltb (length s') (length s)
                then rep_loop (rx U icase a) lo hi greedy fuel' (S n) p' s' g' k
                else None)).
  - done.
  - intros p' s' g'. destruct (Nat.ltb _ _) eqn:Hlt; [|done].
    apply Nat.ltb_lt in Hlt. apply IH; lia.
Qed.

Lemma match_here_sound r p s p' s' g :
  match_here U icase r p s = Some (p', s', g) ->
  exists t, s = t ++ s' /\ den U icase r t [] g.
Proof.
  unfold match_here. intros H.
  apply rx_sound in H as (t & s1 & p1 & g1 & -> & Hden & Hk).
  unfold finish in Hk. inversion Hk; subst. by exists t.
Qed.

Lemma search_from_sound r : forall s before p m,
  search_from U icase r before p s = Some m ->
  den U icase r (f_text m) [] (f_groups m).
Proof.
  assert (Hhere : forall s p p' s' g,
    match_here U icase r p s = Some (p', s', g) ->
    den U icase r (take (length s - length s') s) [] g).
  { intros s p p' s' g Hm.
    apply match_here_sound in Hm as (t & -> & Hden).
    by rewrite length_app, Nat.add_sub, take_app_length. }
  induction s as [|c s IH]; intros before p m H; cbn [search_from] in H.
  - destruct (match_here U icase r p []) as [[[p' s'] g]|] eqn:Hm; [|done].
    injection H as <-. exact (Hhere _ _ _ _ _ Hm).
  - destruct (match_here U icase r p (c :: s)) as [[[p' s'] g]|] eqn:Hm.
    + injection H as <-. exact (Hhere _ _ _ _ _ Hm).
    + by eapply IH.
Qed.

Lemma re_search_sound r s m :
  re_search U icase r s = Some m -> den U icase r (f_text m) [] (f_groups m).
Proof. apply search_from_sound. Qed.

Lemma iter_keeps_group (P : str -> captures -> captures -> Prop) i :
  (forall t g g', P t g g' -> is_Some (group i g) -> is_Some (group i g')) ->
  forall n t g g', iter P n t g g' -> is_Some (group i g) -> is_Some (group i g').
Proof.
  intros HP. induction n as [|n IH]; intros t g g' H Hg; simpl in H.
  - destruct H as [_ ->]. done.
  - destruct H as (t1 & t2 & gm & _ & H1 & H2). eauto.
Qed.

Lemma den_binds i r : forall t g g',
  den U icase r t g g' ->
  binds i r = true \/ is_Some (group i g) -> is_Some (group i g').
Proof.
  induction r as [|cs|l|a IHa b IHb|a IHa b IHb|a IHa lo hi greedy|j a IHa|cs| |];
    intros t g g' H Hb; simpl in H, Hb;
    try (destruct Hb as [Hb|Hb]; [done|]).
  - by destruct H as [_ ->].
  - by destruct H as (c & _ & _ & ->).
  - by destruct H as [_ ->].
  - destruct H as (t1 & t2 & gm & _ & Ha & Hb').
    destruct Hb as [Hb|Hb].
    + apply orb_true_iff in Hb as [Hb|Hb].
      * eapply IHb; [done|]. right. eapply IHa; eauto.
      * eapply IHb; eauto.
    + eapply IHb; [done|]. right. eapply IHa; eauto.
  - destruct Hb as [Hb|Hb].
    + apply andb_true_iff in Hb as [Hb1 Hb2]. destruct H; eauto.
    + destruct H; eauto.
  - destruct H as (n & _ & Hit).
    eapply iter_keeps_group; [|done|done]. intros; eapply IHa; eauto.
  - destruct H as (gm & Ha & ->). simpl.
    destruct (Nat.eqb i j) eqn:Hij; [done|].
    eapply IHa; [done|]. destruct Hb as [Hb|Hb]; [|by right].
    by left.
  - by destruct H as [_ ->].
  - by destruct H as [_ ->].
  - by destruct H as [_ ->].
Qed.

Lemma re_search_binds i r s m :
  binds i r = true -> re_search U icase r s = Some m ->
  is_Some (group i (f_groups m)).
Proof.
  intros Hb Hm. apply re_search_sound in Hm.
  eapply den_binds; [done|]. by left.
Qed.

End MatcherFacts.

(** ** Where the extractors raise

    No extractor raises but [extract_event_wishes], which does when [int]
    refuses the digits it captured. *)

Section Totality.

Context (U : Unicode).

Lemma first_accepted_total {A} icase patterns text
    (accept : found -> option (option A)) :
  (forall pattern m, pattern ∈ patterns ->
     re_search U icase pattern text = Some m -> is_Some (accept m)) ->
  is_Some (first_accepted U icase patterns text accept).
Proof.
  induction patterns as [|pattern rest IH]; intros Hacc; simpl; [done|].
  assert (Hrest : is_Some (first_accepted U icase rest text accept)).
  { apply IH. intros q m Hq. apply Hacc. by right. }
  destruct (re_search U icase pattern text) as [m|] eqn:Hm; [|done].
  destruct (Hacc pattern m) as [[v|] Hv]; [by left|done| |];
    rewrite Hv; simpl; done.
Qed.

(** The same, for an [accept] that only needs group 1. *)
Lemma first_accepted_group1 {A} icase patterns text
    (accept : found -> option (option A)) :
  Forall (fun r => binds 1 r = true) patterns ->
  (forall m, is_Some (group 1 (f_groups m)) -> is_Some (accept m)) ->
  is_Some (first_accepted U icase patterns text accept).
Proof.
  intros Hb Hacc. apply first_accepted_total. intros pattern m Hin Hm.
  apply Hacc. eapply re_search_binds; [|done].
  rewrite Forall_forall in Hb. by apply Hb.
Qed.

Ltac with_group1 :=
  apply first_accepted_group1;
  [ repeat constructor
  | let m := fresh "m" in let g := fresh "g" in let Hg := fresh "Hg" in
    intros m [g Hg]; rewrite Hg; simpl ].

Lemma extract_release_date_total intro : is_Some (extract_release_date U intro).
Proof. unfold extract_release_date. with_group1. done. Qed.

Lemma extract_special_dish_total intro : is_Some (extract_special_dish U intro).
Proof.
  unfold extract_special_dish. with_group1.
  by destruct (_ && _).
Qed.

Lemma extract_namecard_total intro : is_Some (extract_namecard U intro).
Proof.
  unfold extract_namecard. with_group1.
  by destruct (_ && _).
Qed.

Lemma extract_real_name_total intro : is_Some (extract_real_name U intro).
Proof.
  unfold extract_real_name. with_group1.
  by destruct (_ && _).
Qed.

Lemma extract_title_total intro : is_Some (extract_title U intro).
Proof.
  unfold extract_title. with_group1.
  by destruct (_ && _).
Qed.

Lemma extract_constellation_total intro : is_Some (extract_constellation U intro).
Proof.
  unfold extract_constellation. with_group1.
  by destruct (_ && _).
Qed.

Lemma voice_actors_from_total patterns intro : forall voice_actors,
  Forall (fun lp => binds 1 (snd lp) = true) patterns ->
  is_Some (voice_actors_from U patterns intro voice_actors).
Proof.
  induction patterns as [|[lang pattern] rest IH]; intros acc Hb; simpl; [done|].
  inversion Hb as [|? ? Hb1 Hb2]; subst. simpl in Hb1.
  destruct (re_search U false pattern intro) as [m|] eqn:Hm; [|by apply IH].
  destruct (re_search_binds U false 1 pattern intro m Hb1 Hm) as [g Hg].
  rewrite Hg. simpl. destruct (_ && _); by apply IH.
Qed.

Lemma extract_voice_actors_total intro : is_Some (extract_voice_actors U intro).
Proof. apply voice_actors_from_total. repeat constructor. Qed.

Lemma extract_how_to_obtain_total intro : is_Some (extract_how_to_obtain U intro).
Proof.
  unfold extract_how_to_obtain.
  destruct (has "event wish" (lower U intro)); simpl; [|done].
  destruct (re_search U false re_event_wish_name intro) as [m|] eqn:Hm; [|done].
  destruct (re_search_binds U false 1 re_event_wish_name intro m eq_refl Hm)
    as [g Hg].
  by rewrite Hg.
Qed.

(** A run of [\d] is a string of digits, and [int] reads it. *)
Lemma iter_chr icase cs : forall n t g g',
  iter (den U icase (Chr cs)) n t g g' ->
  g' = g /\ length t = n /\ Forall (fun c => cset_match U icase cs c = true) t.
Proof.
  induction n as [|n IH]; intros t g g' H; simpl in H.
  - destruct H as [-> ->]. done.
  - destruct H as (t1 & t2 & gm & -> & (c & -> & Hc & ->) & Hit).
    destruct (IH _ _ _ Hit) as (-> & <- & Hall). simpl. by repeat constructor.
Qed.

Lemma int_from_digits s : forall acc,
  Forall (fun c => is_digit U c = true) s -> is_Some (int_from U acc s).
Proof.
  induction s as [|c s IH]; intros acc Hs; simpl; [done|].
  inversion Hs as [|? ? Hc Hs']; subst. unfold is_digit in Hc.
  destruct (digit_value U c); [|done]. by apply IH.
Qed.

Lemma py_int_digits s :
  s <> [] -> Forall (fun c => is_digit U c = true) s ->
  over_int_limit U s = false -> is_Some (py_int U s).
Proof.
  destruct s; [done|]. intros _ Hs Hlimit. unfold py_int. rewrite Hlimit.
  by apply int_from_digits.
Qed.

Lemma py_int_over s : over_int_limit U s = true -> py_int U s = None.
Proof. intros Hlimit. unfold py_int. rewrite Hlimit. by destruct s. Qed.

Lemma fits_not_over s n :
  length s <= n -> fits_int_limit U n -> over_int_limit U s = false.
Proof.
  unfold fits_int_limit, over_int_limit. intros Hlen [Hno|Hfit].
  - rewrite Hno. done.
  - apply andb_false_iff. right. apply N.ltb_ge. lia.
Qed.

Lemma digits_captured icase n t g g' :
  1 <= n -> iter (den U icase d) n t g g' ->
  t <> [] /\ Forall (fun c => is_digit U c = true) t /\ g' = g.
Proof.
  intros Hn Hit. apply iter_chr in Hit as (-> & Hlen & Hall).
  split; [destruct t; simpl in *; [lia|done]|]. split; [|done].
  eapply Forall_impl; [done|]. intros c Hc. simpl in Hc.
  by rewrite orb_false_r in Hc.
Qed.

Lemma event_wishes_digits pattern t g :
  pattern ∈ event_wishes_patterns ->
  den U true pattern t [] g ->
  exists ds, group 1 g = Some ds /\ ds <> []
             /\ Forall (fun c => is_digit U c = true) ds
             /\ length ds <= length t.
Proof.
  unfold event_wishes_patterns. intros Hin Hden.
  apply elem_of_cons in Hin as [->|Hin];
    [|apply elem_of_cons in Hin as [->|Hin]; [|by apply elem_of_nil in Hin]];
    cbn [cat den Star LazyStar Plus L] in Hden;
    destruct Hden as (t1 & t2 & g1 & -> & [_ ->] & t3 & t4 & g2 & ->
                      & (n2 & _ & H2) & t5 & t6 & g3 & ->
                      & (gm & (n3 & Hn3 & H3) & ->) & t7 & t8 & g4 & _
                      & (n4 & _ & H4) & _ & ->);
    apply iter_chr in H2 as (-> & _ & _);
    apply iter_chr in H4 as (-> & _ & _);
    apply digits_captured in H3 as (Hne & Hall & ->); [|done| |done];
    exists t5; (do 3 (split; [done|])); rewrite !length_app; lia.
Qed.

Lemma search_from_length icase r : forall s before p m,
  search_from U icase r before p s = Some m -> length (f_text m) <= length s.
Proof.
  induction s as [|c s IH]; intros before p m H; cbn [search_from] in H.
  - destruct (match_here U icase r p []) as [[[p' s'] g]|]; [|done].
    apply (inj Some) in H. subst m. cbn [f_text]. rewrite length_take. lia.
  - destruct (match_here U icase r p (c :: s)) as [[[p' s'] g]|].
    + apply (inj Some) in H. subst m. cbn [f_text]. rewrite length_take. lia.
    + apply IH in H. simpl. lia.
Qed.

(** The count of event wishes is read by [int]: the call raises exactly
    when the digits captured by the first pattern found exceed the limit
    of the interpreter, which no introduction within the limit does. *)
Lemma event_wishes_accept intro pattern m :
  pattern ∈ event_wishes_patterns ->
  re_search U true pattern intro = Some m ->
  exists ds, group 1 (f_groups m) = Some ds
             /\ length ds <= length intro
             /\ (over_int_limit U ds = false -> is_Some (py_int U ds))
             /\ (over_int_limit U ds = true -> py_int U ds = None).
Proof.
  intros Hin Hm. pose proof (search_from_length _ _ _ _ _ _ Hm) as Hlen.
  apply re_search_sound in Hm.
  destruct (event_wishes_digits _ _ _ Hin Hm) as (ds & Hg & Hne & Hall & Hds).
  exists ds. split; [done|]. split; [lia|]. split.
  - by apply py_int_digits.
  - apply py_int_over.
Qed.

Lemma extract_event_wishes_returns intro :
  fits_int_limit U (length intro) -> is_Some (extract_event_wishes U intro).
Proof.
  intros Hfit. unfold extract_event_wishes. apply first_accepted_total.
  intros pattern m Hin Hm.
  destruct (event_wishes_accept _ _ _ Hin Hm) as (ds & Hg & Hlen & Hint & _).
  rewrite Hg. simpl.
  destruct Hint as [n Hn]; [by eapply fits_not_over|]. by rewrite Hn.
Qed.

Lemma first_accepted_raises {A} icase patterns text
    (accept : found -> option (option A)) :
  first_accepted U icase patterns text accept = None ->
  exists pattern m,
    pattern ∈ patterns /\ re_search U icase pattern text = Some m
    /\ accept m = None.
Proof.
  induction patterns as [|pattern rest IH]; intros Hnone; simpl in Hnone;
    [done|].
  assert (Hrest : first_accepted U icase rest text accept = None ->
                  exists q m, q ∈ pattern :: rest
                              /\ re_search U icase q text = Some m
                              /\ accept m = None).
  { intros H. destruct (IH H) as (q & m & Hq & Hm & Hacc).
    exists q, m. split; [by right|done]. }
  destruct (re_search U icase pattern text) as [m|] eqn:Hm; [|by apply Hrest].
  destruct (accept m) as [[v|]|] eqn:Hacc; simpl in Hnone;
    [done|by apply Hrest|].
  exists pattern, m. split; [by left|done].
Qed.

Lemma extract_event_wishes_raises intro :
  extract_event_wishes U intro = None ->
  exists pattern m ds,
    pattern ∈ event_wishes_patterns
    /\ re_search U true pattern intro = Some m
    /\ group 1 (f_groups m) = Some ds
    /\ over_int_limit U ds = true.
Proof.
  intros Hnone. unfold extract_event_wishes in Hnone.
  apply first_accepted_raises in Hnone as (pattern & m & Hin & Hm & Hacc).
  destruct (event_wishes_accept _ _ _ Hin Hm) as (ds & Hg & _ & Hint & _).
  exists pattern, m, ds. do 3 (split; [done|]).
  rewrite Hg in Hacc. simpl in Hacc.
  destruct (over_int_limit U ds); [done|].
  destruct Hint as [n Hn]; [done|]. by rewrite Hn in Hacc.
Qed.

End Totality.

(** ** The processed record *)

Section Record.

Context (U : Unicode).

Ltac dict_lookup r :=
  unfold get, get_or, to_dict, with_birthday; destruct (sc_birthday r);
  reflexivity.

Lemma to_dict_name r : to_dict r !! "name" = Some (VStr (sc_name r)).
Proof. dict_lookup r. Qed.
Lemma to_dict_sections r d :
  get_or (to_dict r) "sections" d = VDict (sc_sections r).
Proof. dict_lookup r. Qed.
Lemma get_title r : get (to_dict r) "title" = opt_str (sc_title r).
Proof. dict_lookup r. Qed.
Lemma get_real_name r : get (to_dict r) "real_name" = opt_str (sc_real_name r).
Proof. dict_lookup r. Qed.
Lemma get_element r : get (to_dict r) "element" = opt_str (sc_element r).
Proof. dict_lookup r. Qed.
Lemma get_weapon r : get (to_dict r) "weapon" = opt_str (sc_weapon r).
Proof. dict_lookup r. Qed.
Lemma get_rarity r : get (to_dict r) "rarity" = VInt (sc_rarity r).
Proof. dict_lookup r. Qed.
Lemma get_region r : get (to_dict r) "region" = opt_str (sc_region r).
Proof. dict_lookup r. Qed.
Lemma get_model_type r : get (to_dict r) "model_type" = opt_str (sc_model_type r).
Proof. dict_lookup r. Qed.
Lemma get_birthday r : get (to_dict r) "birthday" = opt_str (sc_birthday r).
Proof. dict_lookup r. Qed.
Lemma get_constellation r :
  get (to_dict r) "constellation" = opt_str (sc_constellation r).
Proof. dict_lookup r. Qed.
Lemma get_character_type r :
  get (to_dict r) "character_type" = VStr (sc_character_type r).
Proof. dict_lookup r. Qed.
Lemma get_affiliations r :
  get (to_dict r) "affiliations" = VList (sc_affiliations r).
Proof. dict_lookup r. Qed.
Lemma get_role_summary r :
  get (to_dict r) "role_summary" = VStr (sc_role_summary r).
Proof. dict_lookup r. Qed.
Lemma get_how_to_obtain r :
  get (to_dict r) "how_to_obtain" = VList (sc_how_to_obtain r).
Proof. dict_lookup r. Qed.
Lemma get_event_wishes_count r :
  get (to_dict r) "event_wishes_count" = opt_int (sc_event_wishes_count r).
Proof. dict_lookup r. Qed.
Lemma get_release_date r :
  get (to_dict r) "release_date" = opt_str (sc_release_date r).
Proof. dict_lookup r. Qed.
Lemma get_voice_actors r :
  get (to_dict r) "voice_actors" = VDict (sc_voice_actors r).
Proof. dict_lookup r. Qed.
Lemma get_special_dish r :
  get (to_dict r) "special_dish" = opt_str (sc_special_dish r).
Proof. dict_lookup r. Qed.
Lemma get_namecard r : get (to_dict r) "namecard" = opt_str (sc_namecard r).
Proof. dict_lookup r. Qed.
Lemma get_description r :
  get (to_dict r) "description" = VStr (sc_description r).
Proof. dict_lookup r. Qed.
Lemma get_url r : get (to_dict r) "url" = VStr (sc_url r).
Proof. dict_lookup r. Qed.

Ltac dict_gets :=
  rewrite ?to_dict_name, ?to_dict_sections, ?get_title, ?get_real_name,
    ?get_element, ?get_weapon, ?get_rarity, ?get_region, ?get_model_type,
    ?get_birthday, ?get_constellation, ?get_character_type,
    ?get_affiliations, ?get_role_summary, ?get_how_to_obtain,
    ?get_event_wishes_count, ?get_release_date, ?get_voice_actors,
    ?get_special_dish, ?get_namecard, ?get_description, ?get_url.

Lemma section_lines_total (d : list (str * str)) :
  is_Some (mapM (section_lines U) (map (fun kv => (fst kv, VStr (snd kv))) d)).
Proof.
  apply mapM_is_Some, Forall_forall. intros item Hin.
  apply list_elem_of_fmap in Hin as ([k v] & -> & _).
  unfold compose, section_lines. simpl.
  destruct (negb _); [|done]. destruct v; [done|].
  simpl. by destruct (Nat.ltb _ _).
Qed.

Lemma bind_total {A B} (m : option A) (f : A -> option B) :
  is_Some m -> (forall v, is_Some (f v)) -> is_Some (m ≫= f).
Proof. intros [v ->] Hf. apply Hf. Qed.

Lemma _create_rag_text_total r : is_Some (_create_rag_text U (to_dict r)).
Proof.
  unfold _create_rag_text. dict_gets. cbn [mbind option_bind].
  do 4 (apply bind_total; [by destruct (truthy _) | intros ?]).
  cbn [py_items mbind option_bind].
  apply bind_total; [apply section_lines_total | done].
Qed.

(** The rendering does not read the key 'full_text'. *)
Lemma _create_rag_text_ignores_full_text info v :
  _create_rag_text U (<["full_text" := v]> info) = _create_rag_text U info.
Proof.
  unfold _create_rag_text. cbn [rag_fields flat_map]. unfold get, get_or.
  rewrite !lookup_insert_ne by done. reflexivity.
Qed.

Lemma value_eq {A} (dflt : A) (result : option A) :
  is_Some result -> result = Some (value dflt result).
Proof. by intros [v ->]. Qed.

(** [process_character] raises when [extract_event_wishes] does; otherwise
    it returns the dict of [structured], with its rendering stored under
    'full_text'. *)
Lemma process_character_eq raw :
  exists text,
    _create_rag_text U (to_dict (structured U raw)) = Some text /\
    process_character U raw
    = (extract_event_wishes U (default [] (raw_introduction raw)) ≫=
         fun _ => Some (<["full_text" := VStr text]>
                          (to_dict (structured U raw)))).
Proof.
  destruct (_create_rag_text_total (structured U raw)) as [text Htext].
  exists text. split; [done|].
  unfold process_character.
  set (intro := default [] (raw_introduction raw)).
  destruct (extract_event_wishes U intro) as [count|] eqn:Hcount;
    [|by rewrite (value_eq None _ (extract_title_total U intro)),
         (value_eq None _ (extract_constellation_total U intro)),
         (value_eq [] _ (extract_how_to_obtain_total U intro)),
         (value_eq None _ (extract_release_date_total U intro)),
         (value_eq [] _ (extract_voice_actors_total U intro))].
  assert (Hwishes : is_Some (extract_event_wishes U intro)) by by rewrite Hcount.
  rewrite <- Hcount.
  rewrite (value_eq None _ (extract_title_total U intro)).
  rewrite (value_eq None _ (extract_constellation_total U intro)).
  rewrite (value_eq [] _ (extract_how_to_obtain_total U intro)).
  rewrite (value_eq None _ (extract_release_date_total U intro)).
  rewrite (value_eq [] _ (extract_voice_actors_total U intro)).
  rewrite (value_eq None _ Hwishes).
  rewrite (value_eq None _ (extract_special_dish_total U intro)).
  rewrite (value_eq None _ (extract_namecard_total U intro)).
  rewrite (value_eq None _ (extract_real_name_total U intro)).
  cbn [mbind option_bind].
  assert (Hinfo : forall info : gmap string pyval,
    match re_search U false re_birthday intro
    return option (gmap string pyval) with
    | Some birthday_match =>
        birthday ← group 1 (f_groups birthday_match);
        Some (<["birthday" := VStr birthday]> info)
    | None => Some info
    end
    = Some (with_birthday (sc_birthday (structured U raw)) info)).
  { intros info. unfold structured. cbn [sc_birthday]. fold intro.
    destruct (re_search U false re_birthday intro) as [m|] eqn:Hm; [|done].
    destruct (re_search_binds U false 1 re_birthday intro m eq_refl Hm)
      as [g Hg].
    by rewrite Hg. }
  rewrite Hinfo. cbn [mbind option_bind].
  change (_create_rag_text U (to_dict (structured U raw)) ≫=
            (fun full_text =>
               Some (<["full_text" := VStr full_text]> (to_dict (structured U raw))))
          = Some (<["full_text" := VStr text]> (to_dict (structured U raw)))).
  by rewrite Htext.
Qed.

Lemma process_character_returns raw :
  is_Some (extract_event_wishes U (default [] (raw_introduction raw))) ->
  exists text,
    _create_rag_text U (to_dict (structured U raw)) = Some text /\
    process_character U raw
    = Some (<["full_text" := VStr text]> (to_dict (structured U raw))).
Proof.
  intros [count Hcount].
  destruct (process_character_eq raw) as (text & Htext & Heq).
  exists text. split; [done|]. by rewrite Heq, Hcount.
Qed.

Lemma process_character_raises raw :
  process_character U raw = None
  <-> extract_event_wishes U (default [] (raw_introduction raw)) = None.
Proof.
  destruct (process_character_eq raw) as (text & _ & ->).
  by destruct (extract_event_wishes U _).
Qed.

End Record.

(** ** The claims of the specification *)

Lemma str_in_spec x l : str_in x l = true <-> x ∈ l.
Proof.
  unfold str_in. rewrite existsb_exists. split.
  - intros (y & Hin & Heq). apply bool_decide_eq_true in Heq as ->.
    by apply list_elem_of_In.
  - intros Hin. exists x. split; [by apply list_elem_of_In|].
    by apply bool_decide_eq_true.
Qed.

(** C1 (as the code has it): on the introduction
    "DilucisaPyrocharacterwhousesClaymore." the normalizer only separates a
    lowercase letter from a following capital, so [clean_text] returns
    "Dilucisa Pyrocharacterwhouses Claymore."; the element extractor
    returns "Pyro" and the weapon extractor returns "Claymore". *)
Theorem diluc_scenario (U : Unicode) :
  clean_text U diluc_intro = py "Dilucisa Pyrocharacterwhouses Claymore."
  /\ _extract_field U diluc_intro elements = Some (py "Pyro")
  /\ _extract_field U diluc_intro weapons = Some (py "Claymore").
Proof. repeat split; vm_compute; reflexivity. Qed.

(** C1 as stated fails: the normalizer does not return
    "Diluc is a Pyro character who uses Claymore." *)
Lemma diluc_not_respaced :
  clean_text ascii_only diluc_intro
  <> py "Diluc is a Pyro character who uses Claymore.".
Proof. vm_compute. discriminate. Qed.

Lemma extract_rarity_range (U : Unicode) (name intro : str) :
  extract_rarity U name intro = 4%Z \/ extract_rarity U name intro = 5%Z.
Proof.
  unfold extract_rarity.
  repeat (destruct (_ : bool); [by right|]). by left.
Qed.

(** C2: [extract_rarity] returns 4 or 5 for every name and introduction,
    and returns 5 whenever the name, or one of its whitespace-separated
    tokens, is in the list of five-star names, whatever the introduction. *)
Theorem extract_rarity_closed (U : Unicode) (name intro : str) :
  (extract_rarity U name intro = 4%Z \/ extract_rarity U name intro = 5%Z)
  /\ (name ∈ FIVE_STAR_CHARS
      \/ (exists part, part ∈ split_ws U name /\ part ∈ FIVE_STAR_CHARS) ->
      extract_rarity U name intro = 5%Z).
Proof.
  split; [apply extract_rarity_range|]. unfold extract_rarity.
  - intros Hname.
    destruct (existsb _ (split_ws U name)) eqn:Hparts; [done|].
    destruct Hname as [Hname|(part & Hsplit & Hpart)].
    + apply str_in_spec in Hname. by rewrite Hname.
    + exfalso. apply not_true_iff_false in Hparts. apply Hparts.
      apply existsb_exists. exists part.
      split; [by apply list_elem_of_In | by apply str_in_spec].
Qed.

Lemma extract_rarity_closed_witness :
  extract_rarity ascii_only (py "Zhongli") (py "a calm 4-star consultant") = 5%Z.
Proof.
  apply (proj2 (extract_rarity_closed ascii_only (py "Zhongli")
                  (py "a calm 4-star consultant"))).
  left. apply str_in_spec. vm_compute. reflexivity.
Defined.

(** C6: when the lowercased text "name url intro" contains "wonderland",
    "gameplay mode" or "system character", [extract_clean_description]
    returns the fixed sentence, whatever the sections and the full text:
    no other tier contributes. *)
Theorem system_character_short_circuit (U : Unicode)
    (name url intro : str) :
  let text := lower U (name ++ py " " ++ url ++ py " " ++ intro) in
  contains (py "wonderland") text = true
  \/ contains (py "gameplay mode") text = true
  \/ contains (py "system character") text = true ->
  forall (full_text : str) (sections : list (str * str)),
    extract_clean_description U name intro full_text sections url
    = SYSTEM_CHARACTER_DESCRIPTION.
Proof.
  intros text Hkw full_text sections. unfold extract_clean_description.
  assert (Hsys : _is_system_character U name url intro = true).
  { unfold _is_system_character, has. fold text.
    destruct Hkw as [->|[->| ->]]; by rewrite ?orb_true_r. }
  by rewrite Hsys.
Qed.

Lemma system_character_short_circuit_witness :
  extract_clean_description ascii_only (py "Manekin")
    (py "A guide to the new Gameplay Mode of the game.")
    [] [(py "Official Introduction", py "ignored")] (py "https://wiki/Manekin")
  = SYSTEM_CHARACTER_DESCRIPTION.
Proof.
  apply (system_character_short_circuit ascii_only (py "Manekin")
           (py "https://wiki/Manekin")
           (py "A guide to the new Gameplay Mode of the game.")).
  right. left. vm_compute. reflexivity.
Defined.

(** C6 as stated fails: the name, the url and the introduction are joined
    by single spaces before the search, so a keyword that only appears
    across two of them in the plain concatenation is not found. *)
Lemma plain_concatenation_not_searched :
  contains (py "wonderland") (lower ascii_only (py "Wonder" ++ py "land" ++ []))
  = true
  /\ extract_clean_description ascii_only (py "Wonder") [] [] [] (py "land")
     = []
  /\ extract_clean_description ascii_only (py "Wonder") [] [] [] (py "land")
     <> SYSTEM_CHARACTER_DESCRIPTION.
Proof.
  split; [vm_compute; reflexivity|]. split; [vm_compute; reflexivity|].
  vm_compute. discriminate.
Qed.

(** C7: [extract_how_to_obtain] returns a list for every introduction, the
    list is never empty, and it is ["Wishes"] when the lowercased
    introduction contains none of the obtain keywords. *)
Theorem how_to_obtain_default (U : Unicode) (intro : str) :
  exists methods,
    extract_how_to_obtain U intro = Some methods
    /\ methods <> []
    /\ (Forall (fun kw => contains kw (lower U intro) = false) obtain_keywords ->
        methods = [py "Wishes"]).
Proof.
  assert (Hdflt : forall l : list str,
            match l with [] => [py "Wishes"] | _ => l end <> []).
  { by intros []. }
  unfold extract_how_to_obtain, has.
  destruct (contains (py "event wish") (lower U intro)) eqn:Hevent.
  - destruct (re_search U false re_event_wish_name intro) as [m|] eqn:Hm.
    + destruct (re_search_binds U false 1 re_event_wish_name intro m eq_refl Hm)
        as [g Hg].
      rewrite Hg. cbn [fmap option_fmap option_map mbind option_bind].
      eexists. split; [reflexivity|]. split; [apply Hdflt|].
      intros Hnone. exfalso.
      assert (contains (py "event wish") (lower U intro) = false); [|congruence].
      rewrite Forall_forall in Hnone. apply Hnone.
      apply list_elem_of_In. vm_compute. tauto.
    + cbn [mbind option_bind]. eexists. split; [reflexivity|].
      split; [apply Hdflt|].
      intros Hnone. exfalso.
      assert (contains (py "event wish") (lower U intro) = false); [|congruence].
      rewrite Forall_forall in Hnone. apply Hnone.
      apply list_elem_of_In. vm_compute. tauto.
  - cbn [mbind option_bind]. eexists. split; [reflexivity|].
    split; [apply Hdflt|].
    intros Hnone. unfold obtain_keywords in Hnone.
    cbn [map] in Hnone.
    repeat match goal with
           | H : Forall _ (_ :: _) |- _ =>
               let Hh := fresh "Hkw" in
               apply Forall_cons in H as [Hh H]; try rewrite Hh
           end.
    reflexivity.
Qed.

Lemma how_to_obtain_default_witness :
  extract_how_to_obtain ascii_only (py "A quiet scholar of Liyue Harbor.")
  = Some [py "Wishes"].
Proof.
  destruct (how_to_obtain_default ascii_only
              (py "A quiet scholar of Liyue Harbor."))
    as (methods & Hm & _ & Hdflt).
  rewrite Hm. f_equal. apply Hdflt.
  apply Forall_forall. intros kw Hin.
  apply list_elem_of_In in Hin. vm_compute in Hin.
  repeat (destruct Hin as [<-|Hin]; [vm_compute; reflexivity|]).
  destruct Hin.
Defined.

(** *** The kinds of the chunks of one record *)

Section Chunks.

Context (U : Unicode).

Lemma count_type_other t t' (l : list Chunk) :
  t <> t' -> Forall (fun c => chunk_type c = t') l -> count_type t l = 0.
Proof.
  intros Hne Hall. unfold count_type.
  induction Hall as [|c l Hc Hall IH]; [done|].
  rewrite filter_cons_False; [done|]. congruence.
Qed.

Lemma count_type_app t (l1 l2 : list Chunk) :
  count_type t (l1 ++ l2) = count_type t l1 + count_type t l2.
Proof. unfold count_type. by rewrite filter_app, length_app. Qed.

Lemma count_type_cons t c (l : list Chunk) :
  count_type t (c :: l)
  = (if decide (chunk_type c = t) then 1 else 0) + count_type t l.
Proof. unfold count_type. rewrite filter_cons. by destruct (decide _). Qed.

Lemma basic_chunk_type char name c :
  basic_chunk U char name = Some c -> chunk_type c = ct_basic_info.
Proof.
  unfold basic_chunk. intros H.
  apply bind_Some in H as (aff & _ & H). by injection H as <-.
Qed.

Lemma description_chunks_type char name cs :
  description_chunks U char name = Some cs ->
  Forall (fun c => chunk_type c = ct_description) cs
  /\ length cs = (if has_long_description char then 1 else 0).
Proof.
  unfold description_chunks, has_long_description. intros H.
  destruct (truthy (get char "description")); simpl.
  - apply bind_Some in H as (n & -> & H).
    destruct (Nat.ltb 50 n); injection H as <-; by repeat constructor.
  - injection H as <-. by repeat constructor.
Qed.

Lemma meta_chunks_type char name cs :
  meta_chunks U char name = Some cs ->
  Forall (fun c => chunk_type c = ct_meta_info) cs.
Proof.
  unfold meta_chunks. intros H. destruct (_ || _).
  - apply bind_Some in H as (actors & _ & H).
    apply bind_Some in H as (obtain & _ & H).
    injection H as <-. by repeat constructor.
  - injection H as <-. constructor.
Qed.

Lemma section_chunks_type char name item cs :
  section_chunks U char name item = Some cs ->
  Forall (fun c => chunk_type c = ct_section) cs.
Proof.
  unfold section_chunks. destruct item as [k v]. intros H.
  destruct (truthy v).
  - apply bind_Some in H as (n & _ & H).
    destruct (Nat.ltb 50 n); injection H as <-; by repeat constructor.
  - injection H as <-. constructor.
Qed.

Lemma sections_chunks_type char name : forall items css,
  mapM (section_chunks U char name) items = Some css ->
  Forall (fun c => chunk_type c = ct_section) (concat css).
Proof.
  induction items as [|item items IH]; intros css H; simpl in H.
  - injection H as <-. constructor.
  - apply bind_Some in H as (cs & Hcs & H).
    apply bind_Some in H as (css' & Hcss & H). injection H as <-.
    simpl. apply Forall_app. split; [by eapply section_chunks_type | by apply IH].
Qed.

Lemma character_chunks_counts char cs :
  character_chunks U char = Some cs ->
  count_type ct_basic_info cs = 1
  /\ count_type ct_description cs = (if has_long_description char then 1 else 0).
Proof.
  unfold character_chunks. intros H.
  apply bind_Some in H as (name & _ & H).
  apply bind_Some in H as (basic & Hbasic & H).
  apply bind_Some in H as (desc & Hdesc & H).
  apply bind_Some in H as (meta & Hmeta & H).
  apply bind_Some in H as (items & _ & H).
  apply bind_Some in H as (sections & Hsections & H).
  injection H as <-.
  apply basic_chunk_type in Hbasic.
  apply description_chunks_type in Hdesc as [Hdesc Hlen].
  apply meta_chunks_type in Hmeta.
  apply sections_chunks_type in Hsections.
  rewrite !count_type_cons, !count_type_app, Hbasic.
  rewrite (count_type_other ct_basic_info ct_description desc) by done.
  rewrite (count_type_other ct_basic_info ct_meta_info meta) by done.
  rewrite (count_type_other ct_basic_info ct_section (concat sections)) by done.
  rewrite (count_type_other ct_description ct_meta_info meta) by done.
  rewrite (count_type_other ct_description ct_section (concat sections)) by done.
  split; [done|].
  assert (count_type ct_description desc = length desc) as ->.
  { unfold count_type. clear Hlen.
    induction Hdesc as [|c l Hc Hall IH]; [done|].
    rewrite filter_cons_True by done. simpl. by rewrite IH. }
  rewrite Hlen. simpl. lia.
Qed.

Lemma create_smart_chunks_counts : forall data chunks,
  create_smart_chunks U data = Some chunks ->
  count_type ct_basic_info chunks = length data
  /\ count_type ct_description chunks
     = length (filter (fun char => has_long_description char = true) data).
Proof.
  unfold create_smart_chunks.
  induction data as [|char data IH]; intros chunks H.
  - simpl in H. injection H as <-. done.
  - apply bind_Some in H as (css & Hcss & H). injection H as <-.
    simpl in Hcss.
    apply bind_Some in Hcss as (cs & Hcs & Hcss).
    apply bind_Some in Hcss as (css' & Hcss' & Hcss). injection Hcss as <-.
    destruct (IH (concat css')) as [IH1 IH2]; [by rewrite Hcss'|].
    apply character_chunks_counts in Hcs as [Hb Hd].
    simpl. rewrite !count_type_app, Hb, Hd, IH1, IH2. split; [done|].
    rewrite filter_cons. by destruct (has_long_description char).
Qed.

Lemma get_skip_full_text (info : gmap string pyval) v key :
  key <> "full_text"%string -> get (<["full_text" := v]> info) key = get info key.
Proof. intros Hne. unfold get. by rewrite lookup_insert_ne. Qed.

Lemma get_or_skip_full_text (info : gmap string pyval) v key dflt :
  key <> "full_text"%string ->
  get_or (<["full_text" := v]> info) key dflt = get_or info key dflt.
Proof. intros Hne. unfold get_or. by rewrite lookup_insert_ne. Qed.

End Chunks.

(** *** The chunks of a processed record *)

Section ProcessedChunks.

Context (U : Unicode).

Ltac dict_lookup r :=
  unfold get, get_or, to_dict, with_birthday; destruct (sc_birthday r);
  reflexivity.

Lemma get_or_name r dflt : get_or (to_dict r) "name" dflt = VStr (sc_name r).
Proof. dict_lookup r. Qed.
Lemma get_or_element r dflt :
  get_or (to_dict r) "element" dflt = opt_str (sc_element r).
Proof. dict_lookup r. Qed.
Lemma get_or_weapon r dflt :
  get_or (to_dict r) "weapon" dflt = opt_str (sc_weapon r).
Proof. dict_lookup r. Qed.
Lemma get_or_rarity r dflt : get_or (to_dict r) "rarity" dflt = VInt (sc_rarity r).
Proof. dict_lookup r. Qed.
Lemma get_or_region r dflt :
  get_or (to_dict r) "region" dflt = opt_str (sc_region r).
Proof. dict_lookup r. Qed.
Lemma get_or_role_summary r dflt :
  get_or (to_dict r) "role_summary" dflt = VStr (sc_role_summary r).
Proof. dict_lookup r. Qed.

Ltac processed_gets :=
  rewrite ?get_skip_full_text, ?get_or_skip_full_text by done;
  rewrite ?get_or_name, ?get_or_element, ?get_or_weapon, ?get_or_rarity,
    ?get_or_region, ?get_or_role_summary, ?to_dict_sections,
    ?get_affiliations, ?get_birthday, ?get_release_date, ?get_description,
    ?get_voice_actors, ?get_special_dish, ?get_namecard, ?get_how_to_obtain.

Lemma section_chunks_total char name (d : list (str * str)) :
  is_Some (mapM (section_chunks U char name)
                (map (fun kv => (fst kv, VStr (snd kv))) d)).
Proof.
  apply mapM_is_Some, Forall_forall. intros item Hin.
  apply list_elem_of_fmap in Hin as ([k v] & -> & _).
  unfold compose, section_chunks. simpl.
  destruct v; [done|]. simpl. by destruct (Nat.ltb _ _).
Qed.

Lemma basic_chunk_processed r text :
  basic_chunk U (<["full_text" := VStr text]> (to_dict r)) (sc_name r)
  = Some {|
      id := slug U (sc_name r) ++ py "_basic";
      character := sc_name r;
      chunk_type := ct_basic_info;
      section_name := None;
      content :=
        strip U
          ((((py "# " ++ sc_name r ++ nl ++ nl
             ++ py "## Basic Information" ++ nl
             ++ py "- Element: " ++ py_str U (opt_str (sc_element r)) ++ nl
             ++ py "- Weapon: " ++ py_str U (opt_str (sc_weapon r)) ++ nl
             ++ py "- Rarity: " ++ py_str U (VInt (sc_rarity r)) ++ py "-Star" ++ nl
             ++ py "- Region: " ++ py_str U (opt_str (sc_region r)) ++ nl
             ++ py "- Role: " ++ sc_role_summary r ++ nl)
            ++ when (truthy (VList (sc_affiliations r)))
                 (py "- Affiliations: " ++ join (py ", ") (sc_affiliations r) ++ nl))
           ++ when (truthy (opt_str (sc_birthday r)))
                (py "- Birthday: " ++ py_str U (opt_str (sc_birthday r)) ++ nl))
          ++ when (truthy (opt_str (sc_release_date r)))
               (py "- Release Date: " ++ py_str U (opt_str (sc_release_date r)) ++ nl));
      metadata :=
        metadata_of (<["full_text" := VStr text]> (to_dict r))
          ["element"; "weapon"; "rarity"; "region"; "role_summary"; "url"]%string
    |}.
Proof.
  unfold basic_chunk. processed_gets.
  destruct (sc_affiliations r) as [|a l]; reflexivity.
Qed.

Lemma character_chunks_processed r text :
  exists basic rest,
    basic_chunk U (<["full_text" := VStr text]> (to_dict r)) (sc_name r)
    = Some basic
    /\ character_chunks U (<["full_text" := VStr text]> (to_dict r))
       = Some (basic :: rest).
Proof.
  unfold character_chunks, description_chunks, meta_chunks.
  processed_gets. cbn [as_str mbind option_bind py_items py_len py_iter].
  destruct (section_chunks_total (<["full_text" := VStr text]> (to_dict r))
              (sc_name r) (sc_sections r)) as [sections ->].
  cbn [mbind option_bind].
  set (desc := if truthy (VStr (sc_description r)) then _ else _).
  assert (Hdesc : is_Some desc).
  { subst desc. destruct (truthy _); [|done]. by destruct (Nat.ltb _ _). }
  destruct Hdesc as [d ->]. cbn [mbind option_bind].
  set (meta := if truthy (VDict (sc_voice_actors r)) || _ then _ else _).
  assert (Hmeta : is_Some meta).
  { subst meta. destruct (_ || _); [|done].
    destruct (truthy (VDict _)); cbn [mbind option_bind];
      by destruct (truthy (VList _)). }
  destruct Hmeta as [m ->]. cbn [mbind option_bind].
  rewrite basic_chunk_processed. cbn [mbind option_bind].
  eexists _, _. split; reflexivity.
Qed.

End ProcessedChunks.

(** *** Substrings and trimming *)

Section Trim.

Context (U : Unicode).

Lemma starts_with_app sub : forall s t,
  starts_with sub s = true -> starts_with sub (s ++ t) = true.
Proof.
  induction sub as [|a sub IH]; intros s t H; [done|].
  destruct s as [|b s]; [done|]. simpl in *.
  apply andb_true_iff in H as [-> H]. simpl. by apply IH.
Qed.

Lemma starts_with_refl sub t : starts_with sub (sub ++ t) = true.
Proof. induction sub as [|a sub IH]; simpl; [done|]. by rewrite N.eqb_refl. Qed.

Lemma contains_app_l sub : forall s t,
  contains sub s = true -> contains sub (s ++ t) = true.
Proof.
  induction s as [|c s IH]; intros t H; simpl in H.
  - rewrite orb_false_r in H. destruct sub; [|done]. by destruct t.
  - apply orb_true_iff in H as [H|H].
    + change (contains sub ((c :: s) ++ t))
        with (starts_with sub ((c :: s) ++ t) || contains sub (s ++ t)).
      by rewrite (starts_with_app _ _ _ H).
    + change (contains sub ((c :: s) ++ t))
        with (starts_with sub ((c :: s) ++ t) || contains sub (s ++ t)).
      rewrite (IH _ H). apply orb_true_r.
Qed.

Lemma contains_app_r sub : forall s t,
  contains sub t = true -> contains sub (s ++ t) = true.
Proof.
  induction s as [|c s IH]; intros t H; [done|].
  change (contains sub ((c :: s) ++ t))
    with (starts_with sub ((c :: s) ++ t) || contains sub (s ++ t)).
  rewrite (IH _ H). apply orb_true_r.
Qed.

Lemma contains_unfold sub s :
  contains sub s
  = starts_with sub s || match s with [] => false | _ :: t => contains sub t end.
Proof. by destruct s. Qed.

Lemma contains_middle sub a b : contains sub (a ++ sub ++ b) = true.
Proof.
  apply contains_app_r. by rewrite contains_unfold, starts_with_refl.
Qed.

Lemma skip_spaces_nonspace a c b :
  is_space U c = false ->
  skip_spaces U (a ++ c :: b) = skip_spaces U a ++ c :: b.
Proof.
  intros Hc. induction a as [|x a IH]; simpl.
  - by rewrite Hc.
  - by destruct (is_space U x).
Qed.

Lemma rstrip_nonspace pre c post :
  is_space U c = false ->
  rstrip U (pre ++ c :: post) = pre ++ c :: rstrip U post.
Proof.
  intros Hc. unfold rstrip.
  rewrite reverse_app, reverse_cons, <- app_assoc. simpl.
  rewrite (skip_spaces_nonspace _ _ _ Hc).
  rewrite reverse_app, reverse_cons, reverse_involutive, <- app_assoc. done.
Qed.

(** Trimming a text that starts with a number sign and has a hyphen after
    [pre] leaves [pre] in place. *)
Lemma strip_keeps pre post :
  strip U (35%N :: pre ++ 45%N :: post) = 35%N :: pre ++ 45%N :: rstrip U post.
Proof.
  unfold strip, lstrip. cbn [skip_spaces].
  change (is_space U 35) with false. cbv iota.
  exact (rstrip_nonspace (35%N :: pre) 45%N post eq_refl).
Qed.

End Trim.

(** *** The text of the basic-info chunk *)

Section BasicText.

Context (U : Unicode).

Lemma contains_cons sub c t : contains sub t = true -> contains sub (c :: t) = true.
Proof. intros H. simpl. rewrite H. apply orb_true_r. Qed.

Lemma contains_here a b c rest :
  contains (a ++ b ++ c ++ a) (a ++ b ++ c ++ a ++ rest) = true.
Proof.
  replace (a ++ b ++ c ++ a ++ rest) with ((a ++ b ++ c ++ a) ++ rest)
    by (by rewrite <- !app_assoc).
  by rewrite contains_unfold, starts_with_refl.
Qed.

(** The lines of the element, the weapon and the region survive the
    trimming of the chunk text, whatever follows "- Role: ". *)
Lemma basic_text_lines name E W Rr R tail :
  let text :=
    py "# " ++ name ++ nl ++ nl
    ++ py "## Basic Information" ++ nl
    ++ py "- Element: " ++ E ++ nl
    ++ py "- Weapon: " ++ W ++ nl
    ++ py "- Rarity: " ++ Rr ++ py "-Star" ++ nl
    ++ py "- Region: " ++ R ++ nl
    ++ py "- Role: " ++ tail in
  contains (nl ++ py "- Element: " ++ E ++ nl) (strip U text) = true
  /\ contains (nl ++ py "- Weapon: " ++ W ++ nl) (strip U text) = true
  /\ contains (nl ++ py "- Region: " ++ R ++ nl) (strip U text) = true.
Proof.
  intros text.
  assert (Hshape : text =
    35%N :: (32%N :: name ++ nl ++ nl
             ++ py "## Basic Information" ++ nl
             ++ py "- Element: " ++ E ++ nl
             ++ py "- Weapon: " ++ W ++ nl
             ++ py "- Rarity: " ++ Rr ++ py "-Star" ++ nl
             ++ py "- Region: " ++ R ++ nl)
            ++ 45%N :: (py " Role: " ++ tail)).
  { subst text. change (py "# ") with [35%N; 32%N].
    change (py "- Role: ") with (45%N :: py " Role: ").
    cbn [app]. do 2 f_equal. by rewrite <- !app_assoc. }
  rewrite Hshape, strip_keeps.
  repeat split; apply contains_cons; apply contains_app_l; cbn [app];
    apply contains_cons.
  - do 4 apply contains_app_r. apply contains_here.
  - do 7 apply contains_app_r. apply contains_here.
  - do 14 apply contains_app_r.
    replace (nl ++ py "- Region: " ++ R ++ nl)
      with ((nl ++ py "- Region: " ++ R ++ nl) ++ []) at 2
      by apply app_nil_r.
    rewrite <- !app_assoc. apply contains_here.
Qed.

End BasicText.

Lemma processed_lookup (U : Unicode) raw info :
  process_character U raw = Some info ->
  exists text,
    _create_rag_text U (to_dict (structured U raw)) = Some text
    /\ info = <["full_text" := VStr text]> (to_dict (structured U raw)).
Proof.
  intros Hinfo. destruct (process_character_eq U raw) as (text & Htext & Heq).
  rewrite Heq in Hinfo. destruct (extract_event_wishes U _); [|done].
  apply (inj Some) in Hinfo. subst info. by exists text.
Qed.

Lemma create_smart_chunks_one (U : Unicode) char cs :
  character_chunks U char = Some cs -> create_smart_chunks U [char] = Some cs.
Proof.
  intros H. unfold create_smart_chunks. simpl. rewrite H. simpl.
  by rewrite app_nil_r.
Qed.

(** C8: [create_smart_chunks] emits one basic_info chunk for every record,
    and a description chunk exactly for the records whose description is
    present and longer than 50; it does not raise on a record returned by
    [process_character]; and a record whose description has 40 characters
    gets its basic_info chunk and no description chunk. *)
Theorem description_chunk_iff_long (U : Unicode) :
  (forall data chunks,
     create_smart_chunks U data = Some chunks ->
     count_type ct_basic_info chunks = length data
     /\ count_type ct_description chunks
        = length (filter (fun char => has_long_description char = true) data))
  /\ (forall raw info,
        process_character U raw = Some info ->
        exists chunks, create_smart_chunks U [info] = Some chunks)
  /\ (forall char desc chunks,
        char !! "description" = Some (VStr desc) ->
        length desc = 40 ->
        create_smart_chunks U [char] = Some chunks ->
        count_type ct_basic_info chunks = 1
        /\ count_type ct_description chunks = 0).
Proof.
  split; [apply create_smart_chunks_counts|]. split.
  - intros raw info Hinfo.
    apply processed_lookup in Hinfo as (text & _ & ->).
    destruct (character_chunks_processed U (structured U raw) text)
      as (basic & rest & _ & Hchunks).
    eexists. by apply create_smart_chunks_one.
  - intros char desc chunks Hdesc Hlen Hchunks.
    apply create_smart_chunks_counts in Hchunks as [Hb Hd].
    split; [done|]. rewrite Hd. simpl.
    assert (has_long_description char = false) as Hshort.
    { unfold has_long_description, get. rewrite Hdesc. simpl. rewrite Hlen.
      apply andb_false_r. }
    rewrite filter_cons, Hshort. by rewrite decide_False.
Qed.

Lemma description_chunk_iff_long_witness :
  exists chunks,
    create_smart_chunks ascii_only [short_description_record] = Some chunks
    /\ count_type ct_basic_info chunks = 1
    /\ count_type ct_description chunks = 0.
Proof.
  destruct (create_smart_chunks ascii_only [short_description_record])
    as [chunks|] eqn:Hchunks; [|vm_compute in Hchunks; discriminate].
  exists chunks. split; [done|].
  apply (proj2 (proj2 (description_chunk_iff_long ascii_only))
           short_description_record
           (py "A cheerful outrider of the Knights here.") chunks);
    [reflexivity | reflexivity | exact Hchunks].
Defined.

(** C10: [process_character] always stores the keys 'element', 'weapon'
    and 'region', so the default "Unknown" of the chunk template is never
    taken; when the stored value is [None], the basic_info chunk, which
    comes first, contains the line with the text None for that field. *)
Theorem none_rendered_in_basic_chunk (U : Unicode) raw info :
  process_character U raw = Some info ->
  (forall key, key ∈ ["element"; "weapon"; "region"]%string ->
     is_Some (info !! key)
     /\ forall dflt, get_or info key dflt = get info key)
  /\ exists basic rest,
       create_smart_chunks U [info] = Some (basic :: rest)
       /\ chunk_type basic = ct_basic_info
       /\ (info !! "element" = Some VNone ->
           contains (nl ++ py "- Element: " ++ py "None" ++ nl) (content basic)
           = true)
       /\ (info !! "weapon" = Some VNone ->
           contains (nl ++ py "- Weapon: " ++ py "None" ++ nl) (content basic)
           = true)
       /\ (info !! "region" = Some VNone ->
           contains (nl ++ py "- Region: " ++ py "None" ++ nl) (content basic)
           = true).
Proof.
  intros Hinfo. apply processed_lookup in Hinfo as (text & _ & ->).
  generalize (structured U raw). intros r.
  assert (Hel : (<["full_text" := VStr text]> (to_dict r)) !! "element"
                = Some (opt_str (sc_element r))).
  { unfold to_dict, with_birthday. by destruct (sc_birthday r). }
  assert (Hwe : (<["full_text" := VStr text]> (to_dict r)) !! "weapon"
                = Some (opt_str (sc_weapon r))).
  { unfold to_dict, with_birthday. by destruct (sc_birthday r). }
  assert (Hre : (<["full_text" := VStr text]> (to_dict r)) !! "region"
                = Some (opt_str (sc_region r))).
  { unfold to_dict, with_birthday. by destruct (sc_birthday r). }
  split.
  - intros key Hkey. unfold get_or, get.
    repeat (apply elem_of_cons in Hkey as [->|Hkey];
            [rewrite ?Hel, ?Hwe, ?Hre; by eauto|]).
    by apply elem_of_nil in Hkey.
  - destruct (character_chunks_processed U r text)
      as (basic & rest & Hbasic & Hchunks).
    exists basic, rest. split; [by apply create_smart_chunks_one|].
    rewrite basic_chunk_processed in Hbasic.
    apply (f_equal (from_option (fun c => c) basic)) in Hbasic.
    cbn [from_option] in Hbasic. rewrite <- Hbasic.
    split; [done|]. cbn [content]. rewrite <- !app_assoc.
    destruct (basic_text_lines U (sc_name r)
                (py_str U (opt_str (sc_element r)))
                (py_str U (opt_str (sc_weapon r)))
                (py_str U (VInt (sc_rarity r)))
                (py_str U (opt_str (sc_region r)))
                (sc_role_summary r ++ nl
                 ++ when (truthy (VList (sc_affiliations r)))
                      (py "- Affiliations: "
                       ++ join (py ", ") (sc_affiliations r) ++ nl)
                 ++ when (truthy (opt_str (sc_birthday r)))
                      (py "- Birthday: "
                       ++ py_str U (opt_str (sc_birthday r)) ++ nl)
                 ++ when (truthy (opt_str (sc_release_date r)))
                      (py "- Release Date: "
                       ++ py_str U (opt_str (sc_release_date r)) ++ nl)))
      as (Hline1 & Hline2 & Hline3).
    rewrite Hel, Hwe, Hre.
    repeat split; intros Hnone; injection Hnone as Hnone.
    + rewrite Hnone in Hline1 |- *. exact Hline1.
    + rewrite Hnone in Hline2 |- *. exact Hline2.
    + rewrite Hnone in Hline3 |- *. exact Hline3.
Qed.

Lemma none_rendered_in_basic_chunk_witness :
  exists info basic rest,
    process_character ascii_only plain_raw = Some info
    /\ create_smart_chunks ascii_only [info] = Some (basic :: rest)
    /\ contains (nl ++ py "- Element: " ++ py "None" ++ nl) (content basic)
       = true.
Proof.
  destruct (process_character_returns ascii_only plain_raw) as (text & _ & Hinfo);
    [vm_compute; by eexists|].
  destruct (none_rendered_in_basic_chunk ascii_only plain_raw _ Hinfo)
    as (_ & basic & rest & Hchunks & _ & Hline & _).
  eexists _, basic, rest. split; [exact Hinfo|]. split; [exact Hchunks|].
  apply Hline. rewrite lookup_insert_ne by done.
  vm_compute. reflexivity.
Defined.

Lemma opt_eqb_eq a b : opt_eqb a b = true -> a = b.
Proof.
  destruct a as [x|], b as [y|]; try done. cbn [opt_eqb]. unfold str_eqb.
  intros Heq. apply bool_decide_eq_true in Heq. by rewrite Heq.
Qed.

(** C4 (as the code has it): a processed record is computed from the name,
    the url, the introduction and the sections in their order; the raw
    'full_text' is not read.  Two raw records with the same name, url and
    introduction, and so two raw records that are equal as dicts, either
    both raise or both return, and what they return agrees on every key
    but 'description', 'sections' and 'full_text'; with the same sections
    in the same order they are processed alike; and rendering a processed
    record again gives the text stored under 'full_text'. *)
Theorem extraction_reads_sections_in_order (U : Unicode) :
  (forall raw1 raw2,
     raw_name raw1 = raw_name raw2 ->
     raw_url raw1 = raw_url raw2 ->
     raw_introduction raw1 = raw_introduction raw2 ->
     (is_Some (process_character U raw1) <-> is_Some (process_character U raw2))
     /\ forall info1 info2 key,
          process_character U raw1 = Some info1 ->
          process_character U raw2 = Some info2 ->
          key ∉ section_keys -> info1 !! key = info2 !! key)
  /\ (forall raw1 raw2,
        raw_eqb raw1 raw2 = true ->
        (is_Some (process_character U raw1)
         <-> is_Some (process_character U raw2))
        /\ forall info1 info2 key,
             process_character U raw1 = Some info1 ->
             process_character U raw2 = Some info2 ->
             key ∉ section_keys -> info1 !! key = info2 !! key)
  /\ (forall raw1 raw2,
        raw_name raw1 = raw_name raw2 ->
        raw_url raw1 = raw_url raw2 ->
        raw_introduction raw1 = raw_introduction raw2 ->
        raw_sections raw1 = raw_sections raw2 ->
        process_character U raw1 = process_character U raw2)
  /\ (forall raw info,
        process_character U raw = Some info ->
        exists text,
          info !! "full_text" = Some (VStr text)
          /\ _create_rag_text U info = Some text).
Proof.
  assert (Hfields : forall raw1 raw2,
     raw_name raw1 = raw_name raw2 ->
     raw_url raw1 = raw_url raw2 ->
     raw_introduction raw1 = raw_introduction raw2 ->
     (is_Some (process_character U raw1) <-> is_Some (process_character U raw2))
     /\ forall info1 info2 key,
          process_character U raw1 = Some info1 ->
          process_character U raw2 = Some info2 ->
          key ∉ section_keys -> info1 !! key = info2 !! key);
    [|split; [exact Hfields|split; [|split]]].
  - intros raw1 raw2 Hname Hurl Hintro. split.
    + rewrite <- !not_eq_None_Some, !process_character_raises, Hintro. done.
    + intros info1 info2 key Hinfo1 Hinfo2 Hkey.
      apply processed_lookup in Hinfo1 as (text1 & _ & ->).
      apply processed_lookup in Hinfo2 as (text2 & _ & ->).
      assert (Hne : key <> "description"%string /\ key <> "sections"%string
                    /\ key <> "full_text"%string).
      { unfold section_keys in Hkey. repeat split; intros ->; apply Hkey;
          set_solver. }
      destruct Hne as (Hd & Hs & Hf).
      unfold to_dict. rewrite !(lookup_insert_ne _ "full_text") by done.
      rewrite !(lookup_insert_ne _ "sections") by done.
      rewrite !(lookup_insert_ne _ "description") by done.
      unfold structured.
      cbn [sc_name sc_url sc_element sc_weapon sc_rarity sc_region
           sc_model_type sc_title sc_affiliations sc_constellation sc_roles
           sc_role_summary sc_how_to_obtain sc_release_date sc_voice_actors
           sc_character_type sc_event_wishes_count sc_special_dish
           sc_namecard sc_real_name sc_birthday].
      by rewrite Hname, Hurl, Hintro.
  - intros raw1 raw2 Heq. unfold raw_eqb in Heq.
    repeat (apply andb_true_iff in Heq as [Heq ?]).
    apply Hfields; by apply opt_eqb_eq.
  - intros [name1 url1 intro1 full1 sections1] [name2 url2 intro2 full2 sections2].
    cbn [raw_name raw_url raw_introduction raw_sections].
    by intros -> -> -> ->.
  - intros raw info Hinfo.
    apply processed_lookup in Hinfo as (text & Htext & ->).
    exists text. split; [apply lookup_insert_eq|].
    by rewrite _create_rag_text_ignores_full_text.
Qed.

Lemma extraction_reads_sections_in_order_witness :
  exists info1 info2,
    process_character ascii_only appearance_first = Some info1
    /\ process_character ascii_only personality_first = Some info2
    /\ info1 !! "element" = info2 !! "element".
Proof.
  destruct (process_character_returns ascii_only appearance_first)
    as (text1 & _ & Hinfo1); [vm_compute; by eexists|].
  destruct (process_character_returns ascii_only personality_first)
    as (text2 & _ & Hinfo2); [vm_compute; by eexists|].
  eexists _, _. split; [exact Hinfo1|]. split; [exact Hinfo2|].
  apply (proj2 (proj1 (proj2 (extraction_reads_sections_in_order ascii_only))
                  appearance_first personality_first eq_refl)
           _ _ "element"%string Hinfo1 Hinfo2).
  unfold section_keys. intros Hin.
  repeat (apply elem_of_cons in Hin as [Hin|Hin]; [discriminate Hin|]).
  by apply elem_of_nil in Hin.
Defined.

(** C4 as stated fails: two raw records that are equal as Python dicts, with
    the same sections inserted in a different order, get different texts
    under 'full_text'. *)
Lemma equal_records_render_differently :
  raw_eqb appearance_first personality_first = true
  /\ exists info1 info2,
       process_character ascii_only appearance_first = Some info1
       /\ process_character ascii_only personality_first = Some info2
       /\ info1 !! "full_text" <> info2 !! "full_text".
Proof.
  split; [vm_compute; reflexivity|].
  destruct (process_character_returns ascii_only appearance_first)
    as (text1 & Htext1 & Hinfo1); [vm_compute; by eexists|].
  destruct (process_character_returns ascii_only personality_first)
    as (text2 & Htext2 & Hinfo2); [vm_compute; by eexists|].
  eexists _, _. split; [exact Hinfo1|]. split; [exact Hinfo2|].
  assert (Hne : _create_rag_text ascii_only
                  (to_dict (structured ascii_only appearance_first))
                <> _create_rag_text ascii_only
                     (to_dict (structured ascii_only personality_first))).
  { refine (proj1 (bool_decide_eq_false _) _). vm_compute. reflexivity. }
  rewrite !lookup_insert_eq. intros Heq. apply Hne.
  rewrite Htext1, Htext2. congruence.
Qed.

(** *** Records with missing keys *)

Lemma with_defaults_same (U : Unicode) raw :
  process_character U (with_defaults raw) = process_character U raw.
Proof. reflexivity. Qed.

Lemma no_introduction_fields (U : Unicode) raw :
  raw_introduction raw = None ->
  let r := structured U raw in
  sc_element r = None /\ sc_weapon r = None /\ sc_region r = None
  /\ sc_model_type r = None /\ sc_title r = None /\ sc_constellation r = None
  /\ sc_release_date r = None /\ sc_event_wishes_count r = None
  /\ sc_special_dish r = None /\ sc_namecard r = None /\ sc_real_name r = None
  /\ sc_birthday r = None
  /\ sc_affiliations r = [] /\ sc_voice_actors r = []
  /\ sc_how_to_obtain r = [py "Wishes"]
  /\ sc_roles r = [("on_field", false); ("off_field", false); ("dps", false);
                   ("support", false); ("survivability", false)]%string
  /\ sc_role_summary r = py "Unknown"
  /\ sc_character_type r = py "Biological".
Proof.
  intros Hintro r. subst r. unfold structured. rewrite Hintro.
  cbn [sc_element sc_weapon sc_region sc_model_type sc_title sc_constellation
       sc_release_date sc_event_wishes_count sc_special_dish sc_namecard
       sc_real_name sc_birthday sc_affiliations sc_voice_actors
       sc_how_to_obtain sc_roles sc_role_summary sc_character_type default].
  repeat split; vm_compute; reflexivity.
Qed.

(** C9 (as the code has it): a raw record without the key 'name' or without
    the key 'introduction' is processed like the record with the name
    "Unknown" and the empty introduction filled in.  Without an
    introduction [process_character] does not raise: the optional fields
    are [None], the lists and the voice actors are empty, the birthday is
    absent, and the other fields take their defaults.  Without a name the
    stored name is "Unknown" whenever the call returns, and the call raises
    only on an introduction that is too long to fit the limit of [int]. *)
Theorem missing_keys_take_defaults (U : Unicode) raw :
  raw_name raw = None \/ raw_introduction raw = None ->
  process_character U raw = process_character U (with_defaults raw)
  /\ (raw_name raw = None ->
      forall info, process_character U raw = Some info ->
                   info !! "name" = Some (VStr (py "Unknown")))
  /\ (process_character U raw = None ->
      exists intro, raw_introduction raw = Some intro
                    /\ ~ fits_int_limit U (length intro))
  /\ (raw_introduction raw = None ->
      exists info,
        process_character U raw = Some info
        /\ (forall key, key ∈ optional_keys -> info !! key = Some VNone)
        /\ info !! "birthday" = None
        /\ info !! "affiliations" = Some (VList [])
        /\ info !! "voice_actors" = Some (VDict [])
        /\ info !! "how_to_obtain" = Some (VList [py "Wishes"])
        /\ info !! "roles"
           = Some (VFlags [("on_field", false); ("off_field", false);
                           ("dps", false); ("support", false);
                           ("survivability", false)]%string)
        /\ info !! "role_summary" = Some (VStr (py "Unknown"))
        /\ info !! "character_type" = Some (VStr (py "Biological"))
        /\ (info !! "rarity" = Some (VInt 4) \/ info !! "rarity" = Some (VInt 5))).
Proof.
  intros _. split; [by rewrite with_defaults_same|]. split; [|split].
  - intros Hname info Hinfo.
    apply processed_lookup in Hinfo as (text & _ & ->).
    rewrite lookup_insert_ne by done.
    rewrite to_dict_name. unfold structured. cbn [sc_name].
    by rewrite Hname.
  - intros Hnone. apply process_character_raises in Hnone.
    destruct (raw_introduction raw) as [intro|]; [|by vm_compute in Hnone].
    exists intro. split; [done|]. intros Hfit.
    apply (extract_event_wishes_returns U) in Hfit as [count Hcount].
    cbn [default from_option] in Hnone. unfold Datatypes.id in Hnone.
    by rewrite Hcount in Hnone.
  - intros Hintro.
    destruct (process_character_returns U raw) as (text & _ & Heq);
      [rewrite Hintro; vm_compute; by eexists|].
    eexists. split; [exact Heq|].
    destruct (no_introduction_fields U raw Hintro)
      as (He & Hw & Hr & Hm & Ht & Hc & Hrd & Hew & Hsd & Hn & Hrn & Hb
          & Ha & Hv & Hh & Hro & Hrs & Hct).
    assert (Hrarity := extract_rarity_range U
                         (default (py "Unknown") (raw_name raw))
                         (default [] (raw_introduction raw))).
    change (extract_rarity U _ _) with (sc_rarity (structured U raw)) in Hrarity.
    revert He Hw Hr Hm Ht Hc Hrd Hew Hsd Hn Hrn Hb Ha Hv Hh Hro Hrs Hct Hrarity.
    generalize (structured U raw). intros r.
    intros He Hw Hr Hm Ht Hc Hrd Hew Hsd Hn Hrn Hb Ha Hv Hh Hro Hrs Hct Hrarity.
    assert (Hlookup : forall key v,
              key <> "full_text"%string ->
              to_dict r !! key = v ->
              (<["full_text" := VStr text]> (to_dict r)) !! key = v).
    { intros key v Hne <-. by apply lookup_insert_ne. }
    unfold to_dict, with_birthday in Hlookup.
    rewrite He, Hw, Hr, Hm, Ht, Hc, Hrd, Hew, Hsd, Hn, Hrn, Hb, Ha, Hv, Hh,
      Hro, Hrs, Hct in Hlookup.
    unfold to_dict, with_birthday.
    rewrite He, Hw, Hr, Hm, Ht, Hc, Hrd, Hew, Hsd, Hn, Hrn, Hb, Ha, Hv, Hh,
      Hro, Hrs, Hct.
    split.
    { intros key Hkey. unfold optional_keys in Hkey.
      repeat (apply elem_of_cons in Hkey as [->|Hkey];
              [by apply Hlookup|]).
      by apply elem_of_nil in Hkey. }
    repeat split; try (by apply Hlookup).
    destruct Hrarity as [Hrarity|Hrarity]; rewrite Hrarity in Hlookup |- *;
      [left|right]; by apply Hlookup.
Qed.

Lemma missing_keys_take_defaults_witness :
  exists info,
    process_character ascii_only empty_raw = Some info
    /\ info !! "name" = Some (VStr (py "Unknown"))
    /\ info !! "element" = Some VNone.
Proof.
  destruct (missing_keys_take_defaults ascii_only empty_raw)
    as (_ & Hname & _ & Hfields); [by left|].
  destruct (Hfields eq_refl) as (info & Hinfo & Hkeys & _).
  exists info. split; [exact Hinfo|]. split; [by apply Hname|].
  apply Hkeys. unfold optional_keys. by left.
Defined.

(** A record without name can make [process_character] raise: [int] refuses
    a count of event wishes of 4301 digits. *)
Lemma long_count_raises : process_character ascii_only long_count_raw = None.
Proof. apply process_character_raises. vm_compute. reflexivity. Qed.

(** C9 as stated fails: a missing name is not replaced by the empty
    string. *)
Lemma missing_name_is_not_empty :
  process_character ascii_only empty_raw
  <> process_character ascii_only (with_empty_strings empty_raw).
Proof.
  intros Heq.
  apply (f_equal (fun result => result ≫= (fun info : gmap string pyval =>
                                             info !! "name"))) in Heq.
  vm_compute in Heq. discriminate.
Qed.

(** *** The clean-up of whitespace *)

Section Whitespace.

Context (U : Unicode).

Lemma skip_spaces_drop s : skip_spaces U s = drop (run_length U s) s.
Proof.
  induction s as [|c s IH]; simpl; [done|].
  by destruct (is_space U c).
Qed.

Lemma run_length_le s : run_length U s <= length s.
Proof.
  induction s as [|c s IH]; simpl; [done|].
  destruct (is_space U c); lia.
Qed.

Lemma length_skip_spaces s :
  length (skip_spaces U s) = length s - run_length U s.
Proof. by rewrite skip_spaces_drop, length_drop. Qed.

Lemma head_skip_spaces s : head_space U (skip_spaces U s) = false.
Proof.
  induction s as [|c s IH]; simpl; [done|].
  destruct (is_space U c) eqn:Hc; [done|]. simpl. by rewrite Hc.
Qed.

Lemma skip_spaces_id s : head_space U s = false -> skip_spaces U s = s.
Proof. destruct s as [|c s]; simpl; [done|]. by intros ->. Qed.

Lemma rep_sp_unfold fuel n p s g k :
  rep_loop (rx U false sp) 1 None true (S fuel) n p s g k
  = match s with
    | c :: t =>
        if is_space U c then
          match rep_loop (rx U false sp) 1 None true fuel (S n) (Some c) t g k with
          | Some r => Some r
          | None => if Nat.leb 1 n then k p s g else None
          end
        else if Nat.leb 1 n then k p s g else None
    | [] => if Nat.leb 1 n then k p s g else None
    end.
Proof.
  destruct s as [|c t]; [done|].
  cbn [rep_loop below rx sp cset_match existsb citem_match].
  rewrite orb_false_r. destruct (is_space U c); [|done].
  assert (Nat.ltb (length t) (length (c :: t)) = true) as ->; [|done].
  apply Nat.ltb_lt. simpl. lia.
Qed.

(** A greedy [\s+] takes the whole run when what follows accepts it. *)
Lemma plus_sp_done : forall s fuel n p g,
  length s < fuel ->
  rep_loop (rx U false sp) 1 None true fuel n p s g finish
  = if Nat.leb 1 (n + run_length U s)
    then Some (prev_after_run U p s, skip_spaces U s, g) else None.
Proof.
  induction s as [|c t IH]; intros fuel n p g Hfuel;
    (destruct fuel as [|fuel]; [simpl in Hfuel; lia|]);
    rewrite rep_sp_unfold; simpl.
  - by rewrite Nat.add_0_r.
  - destruct (is_space U c).
    + rewrite IH by (simpl in Hfuel; lia).
      rewrite Nat.add_succ_r. simpl.
      done.
    + by rewrite Nat.add_0_r.
Qed.

(** When what follows rejects every string that starts with whitespace,
    giving back part of the run never helps. *)
Lemma plus_sp_then (k : cont) :
  (forall p c t g, is_space U c = true -> k p (c :: t) g = None) ->
  forall s fuel n p g,
    length s < fuel ->
    rep_loop (rx U false sp) 1 None true fuel n p s g k
    = if Nat.leb 1 (n + run_length U s)
      then k (prev_after_run U p s) (skip_spaces U s) g else None.
Proof.
  intros Hk. induction s as [|c t IH]; intros fuel n p g Hfuel;
    (destruct fuel as [|fuel]; [simpl in Hfuel; lia|]);
    rewrite rep_sp_unfold; simpl.
  - by rewrite Nat.add_0_r.
  - destruct (is_space U c) eqn:Hc.
    + rewrite IH by (simpl in Hfuel; lia).
      rewrite Nat.add_succ_r. simpl.
      destruct (k (prev_after_run U (Some c) t) (skip_spaces U t) g); [done|].
      rewrite (Hk p c t g Hc). by destruct n.
    + by rewrite Nat.add_0_r.
Qed.

(** Passing over a run that is already matched. *)
Lemma sub_skip_run r tm extra : forall t p,
  sub_from U false r tm t (run_length U t + extra) p
  = sub_from U false r tm (skip_spaces U t) extra (prev_after_run U p t).
Proof.
  induction t as [|c t IH]; intros p; simpl; [done|].
  destruct (is_space U c); [|done]. simpl. apply IH.
Qed.

End Whitespace.

(** *** The clean-up of whitespace is idempotent *)

Section WhitespaceIdempotent.

Context (U : Unicode).

Local Abbreviation collapse p s := (sub_from U false re_spaces [T " "] s 0 p).
Local Abbreviation unspace p s := (sub_from U false re_space_punct [TGroup 1] s 0 p).

Lemma match_spaces p s :
  match_here U false re_spaces p s
  = if Nat.leb 1 (run_length U s)
    then Some (prev_after_run U p s, skip_spaces U s, []) else None.
Proof.
  unfold match_here, re_spaces, Plus. cbn [rx].
  by rewrite plus_sp_done by lia.
Qed.

Lemma consumed_run c t :
  length (c :: t) - length (skip_spaces U t) = S (run_length U t).
Proof.
  rewrite length_skip_spaces. pose proof (run_length_le U t). simpl. lia.
Qed.

Lemma collapse_nil p : collapse p [] = [].
Proof. reflexivity. Qed.

Lemma collapse_cons p c t :
  collapse p (c :: t)
  = if is_space U c
    then 32%N :: collapse (prev_after_run U (Some c) t) (skip_spaces U t)
    else c :: collapse (Some c) t.
Proof.
  cbn [sub_from]. rewrite match_spaces. cbn [run_length skip_spaces].
  destruct (is_space U c); [|done].
  cbn [Nat.leb]. rewrite consumed_run.
  rewrite <- (Nat.add_0_r (run_length U t)) at 1.
  by rewrite sub_skip_run.
Qed.

Lemma punct_match c : cset_match U false (one_of ".,!?") c = is_punct c.
Proof.
  unfold is_punct. cbn. by rewrite orb_false_r, !orb_assoc.
Qed.

Lemma punct_not_space c : is_punct c = true -> is_space U c = false.
Proof.
  unfold is_punct. intros H.
  repeat (apply orb_true_iff in H as [H|H]);
    apply N.eqb_eq in H; by subst.
Qed.

Lemma match_space_punct p s :
  match_here U false re_space_punct p s
  = if Nat.leb 1 (run_length U s)
    then match skip_spaces U s with
         | x :: t' =>
             if is_punct x then Some (Some x, t', [(1, [x])]) else None
         | [] => None
         end
    else None.
Proof.
  unfold match_here, re_space_punct, Plus. cbn [cat rx].
  rewrite plus_sp_then; [| |lia].
  - cbn [Nat.add]. destruct (Nat.leb 1 (run_length U s)); [|done].
    destruct (skip_spaces U s) as [|x t']; [done|].
    rewrite punct_match. destruct (is_punct x); [|done].
    unfold finish.
    replace (length (x :: t') - length t') with 1 by (simpl; lia).
    done.
  - intros p' c t g Hc. rewrite punct_match.
    destruct (is_punct c) eqn:Hp; [|done].
    apply punct_not_space in Hp. congruence.
Qed.

Lemma unspace_nil p : unspace p [] = [].
Proof. reflexivity. Qed.

Lemma unspace_cons p c t :
  unspace p (c :: t)
  = if is_space U c then
      match skip_spaces U t with
      | x :: t' =>
          if is_punct x then x :: unspace (Some x) t'
          else c :: unspace (Some c) t
      | [] => c :: unspace (Some c) t
      end
    else c :: unspace (Some c) t.
Proof.
  cbn [sub_from]. rewrite match_space_punct. cbn [run_length skip_spaces].
  destruct (is_space U c); [|done]. cbn [Nat.leb].
  destruct (skip_spaces U t) as [|x t'] eqn:Hskip; [done|].
  destruct (is_punct x); [|done].
  assert (Hlen : length (c :: t) - length t' = S (run_length U t + 1)).
  { pose proof (length_skip_spaces U t) as Hl. rewrite Hskip in Hl.
    pose proof (run_length_le U t). simpl in *. lia. }
  rewrite Hlen, sub_skip_run, Hskip. reflexivity.
Qed.

Lemma collapse_head p s : head_space U (collapse p s) = head_space U s.
Proof.
  destruct s as [|c t]; [done|]. rewrite collapse_cons. simpl.
  by destruct (is_space U c) eqn:Hc.
Qed.

Lemma collapse_single_spaced n : forall s p,
  length s <= n -> single_spaced U (collapse p s) = true.
Proof.
  induction n as [|n IH]; intros [|c t] p Hn; try done; [simpl in Hn; lia|].
  rewrite collapse_cons. unfold single_spaced in *.
  assert (Hskip : length (skip_spaces U t) <= n).
  { rewrite length_skip_spaces. simpl in Hn. lia. }
  destruct (is_space U c) eqn:Hc; cbn [spaced].
  - change (is_space U 32) with true. cbv iota.
    rewrite collapse_head, head_skip_spaces, (IH _ _ Hskip). done.
  - rewrite Hc, IH by (simpl in Hn; lia). done.
Qed.

Lemma collapse_fixed : forall s p, single_spaced U s = true -> collapse p s = s.
Proof.
  unfold single_spaced.
  induction s as [|c t IH]; intros p Hs; [done|].
  rewrite collapse_cons. cbn [spaced] in Hs.
  apply andb_true_iff in Hs as [Hc Ht].
  destruct (is_space U c).
  - apply andb_true_iff in Hc as [Hc Hnext].
    apply N.eqb_eq in Hc as ->. apply negb_true_iff in Hnext.
    rewrite (skip_spaces_id U t Hnext). by rewrite IH.
  - by rewrite IH.
Qed.

Lemma tidy_single_spaced s : tidy U s = true -> single_spaced U s = true.
Proof.
  unfold tidy, single_spaced.
  induction s as [|c t IH]; [done|]. cbn [spaced]. intros Hs.
  apply andb_true_iff in Hs as [Hc Ht]. rewrite (IH Ht), andb_true_r.
  destruct (is_space U c); [|done].
  apply andb_true_iff in Hc as [-> Hnext]. apply negb_true_iff in Hnext.
  apply orb_false_iff in Hnext as [-> _]. done.
Qed.

Lemma unspace_tidy n : forall s p,
  length s <= n -> single_spaced U s = true -> tidy U (unspace p s) = true.
Proof.
  unfold single_spaced, tidy.
  induction n as [|n IH]; intros [|c t] p Hn Hs; try done; [simpl in Hn; lia|].
  rewrite unspace_cons. cbn [spaced] in Hs.
  apply andb_true_iff in Hs as [Hc Ht]. simpl in Hn.
  destruct (is_space U c) eqn:Hsp.
  - apply andb_true_iff in Hc as [Hc Hnext]. apply negb_true_iff in Hnext.
    rewrite (skip_spaces_id U t Hnext).
    destruct t as [|x t']; [by cbn [spaced]; rewrite Hsp, Hc|].
    destruct (is_punct x) eqn:Hx.
    + cbn [spaced]. rewrite (punct_not_space x Hx).
      cbn [spaced] in Ht. apply andb_true_iff in Ht as [_ Ht'].
      rewrite IH; [done|simpl in Hn; lia|done].
    + assert (Htl := IH (x :: t') (Some c) ltac:(simpl in *; lia) Ht).
      cbn [spaced]. rewrite Hsp, Hc, Htl.
      rewrite unspace_cons. simpl in Hnext. rewrite Hnext.
      cbn [head_space head_punct]. by rewrite Hnext, Hx.
  - cbn [spaced]. rewrite Hsp. rewrite IH; [done|lia|done].
Qed.

Lemma unspace_fixed : forall s p, tidy U s = true -> unspace p s = s.
Proof.
  unfold tidy.
  induction s as [|c t IH]; intros p Hs; [done|].
  rewrite unspace_cons. cbn [spaced] in Hs.
  apply andb_true_iff in Hs as [Hc Ht].
  destruct (is_space U c); [|by rewrite IH].
  apply andb_true_iff in Hc as [_ Hnext]. apply negb_true_iff in Hnext.
  apply orb_false_iff in Hnext as [Hnsp Hnp].
  rewrite (skip_spaces_id U t Hnsp).
  destruct t as [|x t']; [done|]. simpl in Hnp. rewrite Hnp.
  by rewrite IH.
Qed.

Lemma tidy_skip_spaces s : tidy U s = true -> tidy U (skip_spaces U s) = true.
Proof.
  unfold tidy. induction s as [|c t IH]; [done|]. intros Hs.
  cbn [skip_spaces]. destruct (is_space U c) eqn:Hc; [|done].
  cbn [spaced] in Hs. apply andb_true_iff in Hs as [_ Ht]. by apply IH.
Qed.

Lemma tidy_prefix a : forall b, tidy U (a ++ b) = true -> tidy U a = true.
Proof.
  unfold tidy. induction a as [|c a IH]; intros b Hs; [done|].
  cbn [app spaced] in *. apply andb_true_iff in Hs as [Hc Ht].
  rewrite (IH _ Ht), andb_true_r.
  destruct (is_space U c); [|done].
  apply andb_true_iff in Hc as [-> Hnext]. by destruct a.
Qed.

Lemma skip_spaces_suffix s : exists a, s = a ++ skip_spaces U s.
Proof.
  induction s as [|c t [a IH]]; [by exists []|]. simpl.
  destruct (is_space U c).
  - exists (c :: a). simpl. by rewrite <- IH.
  - by exists [].
Qed.

Lemma rstrip_prefix s : exists b, s = rstrip U s ++ b.
Proof.
  destruct (skip_spaces_suffix (reverse s)) as [a Ha].
  exists (reverse a). unfold rstrip.
  by rewrite <- reverse_app, <- Ha, reverse_involutive.
Qed.

Lemma tidy_strip s : tidy U s = true -> tidy U (strip U s) = true.
Proof.
  intros Hs. unfold strip, lstrip.
  destruct (rstrip_prefix (skip_spaces U s)) as [b Hb].
  apply (tidy_prefix _ b). rewrite <- Hb. by apply tidy_skip_spaces.
Qed.

Lemma skip_spaces_idem s : skip_spaces U (skip_spaces U s) = skip_spaces U s.
Proof. apply skip_spaces_id, head_skip_spaces. Qed.

Lemma strip_idem s : strip U (strip U s) = strip U s.
Proof.
  unfold strip, lstrip.
  assert (Hl : skip_spaces U (rstrip U (skip_spaces U s))
               = rstrip U (skip_spaces U s)).
  { pose proof (head_skip_spaces U s) as Hhead.
    destruct (skip_spaces U s) as [|c z]; [done|]. simpl in Hhead.
    pose proof (rstrip_nonspace U [] c z Hhead) as Hr. cbn [app] in Hr.
    rewrite Hr. cbn [skip_spaces]. by rewrite Hhead. }
  rewrite Hl. unfold rstrip at 1 2.
  by rewrite reverse_involutive, skip_spaces_idem.
Qed.

(** What [clean_text] returns is left as it is by the clean-up of
    whitespace and the trim. *)
Lemma clean_whitespace_strip_idem w :
  let y := strip U (clean_whitespace U w) in
  strip U (clean_whitespace U y) = y.
Proof.
  intros y.
  assert (Hy : tidy U y = true).
  { subst y. apply tidy_strip. unfold clean_whitespace, re_sub.
    eapply unspace_tidy; [done|]. by eapply collapse_single_spaced. }
  unfold clean_whitespace, re_sub.
  rewrite (collapse_fixed y None (tidy_single_spaced y Hy)).
  rewrite (unspace_fixed y None Hy).
  subst y. apply strip_idem.
Qed.

End WhitespaceIdempotent.

Lemma clean_text_unfold (U : Unicode) x :
  clean_text U x
  = match x with
    | [] => []
    | _ => strip U (clean_whitespace U (unglue U x))
    end.
Proof. by destruct x. Qed.

(** C3 (as the code has it): a second run of [clean_text] changes nothing
    in the whitespace of its output, and it returns the output unchanged
    whenever the passes that remove markers and separate glued words find
    nothing to change in it. *)
Theorem clean_text_idempotent_once_unglued (U : Unicode) (x : str) :
  strip U (clean_whitespace U (clean_text U x)) = clean_text U x
  /\ (unglue U (clean_text U x) = clean_text U x ->
      clean_text U (clean_text U x) = clean_text U x).
Proof.
  assert (Hws : strip U (clean_whitespace U (clean_text U x)) = clean_text U x).
  { rewrite (clean_text_unfold U x). destruct x as [|c x]; [reflexivity|].
    apply clean_whitespace_strip_idem. }
  split; [exact Hws|]. intros Hunglue.
  rewrite (clean_text_unfold U (clean_text U x)), Hunglue, Hws.
  by destruct (clean_text U x).
Qed.

Lemma clean_text_idempotent_once_unglued_witness :
  clean_text ascii_only
    (clean_text ascii_only (py "AlbedoKreideprinz[1]  is here ."))
  = clean_text ascii_only (py "AlbedoKreideprinz[1]  is here .").
Proof.
  apply (proj2 (clean_text_idempotent_once_unglued ascii_only
                  (py "AlbedoKreideprinz[1]  is here ."))).
  vm_compute. reflexivity.
Defined.

(** C3 as stated fails: removing the inner marker of "[[1]1]" leaves the
    marker "[1]", which only a second run removes. *)
Lemma clean_text_not_idempotent :
  clean_text ascii_only (clean_text ascii_only (py "[[1]1]"))
  <> clean_text ascii_only (py "[[1]1]").
Proof. vm_compute. discriminate. Qed.

(** *** A letter followed by digits *)

Section LetterDigits.

Context (U : Unicode).

Lemma in_range_chars lo hi c :
  in_range lo hi c = true -> c ∈ range_chars lo hi.
Proof.
  unfold in_range, range_chars. intros H.
  apply andb_true_iff in H as [Hlo Hhi].
  apply N.leb_le in Hlo, Hhi.
  apply list_elem_of_fmap. exists (N.to_nat (c - lo)). split; [lia|].
  apply elem_of_seq. lia.
Qed.

Lemma letter_listed c : ascii_alpha c = true -> c ∈ ascii_letters ++ ascii_digits.
Proof.
  unfold ascii_alpha, ascii_letters. intros H.
  apply elem_of_app. left. apply elem_of_app.
  apply orb_true_iff in H as [H|H]; [left|right]; by apply in_range_chars.
Qed.

Lemma digit_listed c : ascii_digit c = true -> c ∈ ascii_digits.
Proof. apply in_range_chars. Qed.

(** No pattern of the normalizer matches at a letter or a digit that is
    followed by a digit or by nothing, nor at the end. *)
Lemma no_match_before_digit p rest :
  forallb (fun r =>
    forallb (fun a =>
      forallb (fun b => is_none (match_here U false r p (a :: b :: rest)))
              ascii_digits)
            (ascii_letters ++ ascii_digits))
    normalizer_patterns = true.
Proof. vm_compute. reflexivity. Qed.

Lemma no_match_at_last p :
  forallb (fun r =>
    forallb (fun a => is_none (match_here U false r p [a]))
            (ascii_letters ++ ascii_digits))
    normalizer_patterns = true.
Proof. vm_compute. reflexivity. Qed.

Lemma no_match_at_end p :
  forallb (fun r => is_none (match_here U false r p [])) normalizer_patterns
  = true.
Proof. vm_compute. reflexivity. Qed.

Lemma is_none_eq {A} (o : option A) : is_none o = true -> o = None.
Proof. by destruct o. Qed.

Lemma no_match r p a rest :
  r ∈ normalizer_patterns ->
  a ∈ ascii_letters ++ ascii_digits ->
  Forall (fun b => b ∈ ascii_digits) rest ->
  match_here U false r p (a :: rest) = None.
Proof.
  intros Hr Ha Hrest. apply list_elem_of_In in Hr, Ha.
  destruct rest as [|b rest].
  - pose proof (no_match_at_last p) as H.
    rewrite forallb_forall in H. specialize (H r Hr).
    rewrite forallb_forall in H. by apply is_none_eq, H.
  - inversion Hrest as [|? ? Hb _]; subst. apply list_elem_of_In in Hb.
    pose proof (no_match_before_digit p rest) as H.
    rewrite forallb_forall in H. specialize (H r Hr).
    rewrite forallb_forall in H. specialize (H a Ha).
    rewrite forallb_forall in H. by apply is_none_eq, H.
Qed.

Lemma sub_unchanged r tm : forall rest a p,
  r ∈ normalizer_patterns ->
  a ∈ ascii_letters ++ ascii_digits ->
  Forall (fun b => b ∈ ascii_digits) rest ->
  sub_from U false r tm (a :: rest) 0 p = a :: rest.
Proof.
  induction rest as [|b rest IH]; intros a p Hr Ha Hrest;
    cbn [sub_from]; rewrite (no_match r p a _ Hr Ha Hrest); f_equal.
  - cbn [sub_from]. pose proof (no_match_at_end (Some a)) as H.
    rewrite forallb_forall in H. apply list_elem_of_In in Hr.
    by rewrite (is_none_eq _ (H r Hr)).
  - inversion Hrest as [|? ? Hb Hrest']; subst.
    apply IH; [done| |done]. apply elem_of_app. by right.
Qed.

Lemma replace_char_unchanged old new s :
  Forall (fun c => c <> old) s -> replace_char old new s = s.
Proof.
  unfold replace_char. induction 1 as [|c s Hc Hs IH]; [done|].
  simpl. apply N.eqb_neq in Hc. rewrite Hc. simpl. by rewrite IH.
Qed.

Lemma listed_facts c :
  c ∈ ascii_letters ++ ascii_digits ->
  is_space U c = false /\ c <> c_info_icon /\ c <> c_zwj /\ c <> c_soft_hyphen.
Proof.
  intros Hc. apply list_elem_of_In in Hc.
  assert (H : forallb (fun c => negb (is_space U c)
                                && negb (N.eqb c c_info_icon)
                                && negb (N.eqb c c_zwj)
                                && negb (N.eqb c c_soft_hyphen))
                      (ascii_letters ++ ascii_digits) = true)
    by (vm_compute; reflexivity).
  rewrite forallb_forall in H. specialize (H c Hc).
  repeat (apply andb_true_iff in H as [H ?]).
  repeat split; try (apply N.eqb_neq); by apply negb_true_iff.
Qed.

Lemma strip_unchanged s :
  s <> [] -> Forall (fun c => c ∈ ascii_letters ++ ascii_digits) s ->
  strip U s = s.
Proof.
  intros Hne Hs. unfold strip, lstrip.
  destruct s as [|c s]; [done|].
  inversion Hs as [|? ? Hc _]; subst.
  destruct (listed_facts c Hc) as (Hsp & _).
  cbn [skip_spaces]. rewrite Hsp.
  destruct (exists_last (l := c :: s)) as (pre & d & Heq); [done|].
  rewrite Heq in Hs |- *. apply Forall_app in Hs as [_ Hd].
  inversion Hd as [|? ? Hd' _]; subst.
  destruct (listed_facts d Hd') as (Hdsp & _).
  rewrite (rstrip_nonspace U pre d [] Hdsp). done.
Qed.

End LetterDigits.

(** C5 (as the code has it): [clean_text] has no rule for a letter
    followed by a digit: a string made of one ASCII letter followed by
    decimal digits is returned unchanged. *)
Theorem letter_before_digits_unchanged (U : Unicode) (c : N) (ds : list N) :
  ascii_alpha c = true ->
  ds <> [] ->
  Forall (fun d => ascii_digit d = true) ds ->
  clean_text U (c :: ds) = c :: ds.
Proof.
  intros Hc Hne Hds.
  assert (Hc' := letter_listed c Hc).
  assert (Hds' : Forall (fun b => b ∈ ascii_digits) ds).
  { eapply Forall_impl; [exact Hds|]. intros d. apply digit_listed. }
  assert (Hall : Forall (fun x => x ∈ ascii_letters ++ ascii_digits) (c :: ds)).
  { constructor; [done|]. eapply Forall_impl; [exact Hds'|].
    intros d Hd. apply elem_of_app. by right. }
  assert (Hsub : forall r tm,
            r ∈ normalizer_patterns -> re_sub U false r tm (c :: ds) = c :: ds).
  { intros r tm Hr. by apply sub_unchanged. }
  assert (Hin : Forall (fun r => r ∈ normalizer_patterns) normalizer_patterns).
  { apply Forall_forall. by intros r Hr. }
  unfold normalizer_patterns at 2 in Hin. unfold stuck_patterns in Hin.
  cbn [map fst app] in Hin.
  repeat match type of Hin with
         | Forall _ (_ :: _) =>
             let H := fresh "Hp" in apply Forall_cons in Hin as [H Hin]
         end.
  cbn [clean_text]. unfold remove_markers, remove_special_unicode,
    fix_stuck_words, fix_stuck_patterns, clean_whitespace.
  rewrite !Hsub by assumption.
  assert (Hrep : forall old,
            old = c_info_icon \/ old = c_zwj \/ old = c_soft_hyphen ->
            replace_char old [] (c :: ds) = c :: ds).
  { intros old Hold. apply replace_char_unchanged.
    eapply Forall_impl; [exact Hall|]. intros x Hx.
    destruct (listed_facts U x Hx) as (_ & ? & ? & ?).
    by destruct Hold as [->|[->| ->]]. }
  rewrite (Hrep c_info_icon), (Hrep c_zwj), (Hrep c_soft_hyphen) by tauto.
  rewrite !Hsub by assumption.
  unfold stuck_patterns. cbn [fold_left fst snd].
  rewrite !Hsub by assumption.
  by apply strip_unchanged.
Qed.

Lemma letter_before_digits_unchanged_witness :
  clean_text ascii_only (py "a1") = py "a1".
Proof.
  apply (letter_before_digits_unchanged ascii_only 97%N [49%N]);
    [reflexivity | discriminate | by repeat constructor].
Defined.

(** C5 as stated fails: the letter and the digit of "a1" stay together. *)
Lemma letter_digit_left_together :
  letter_then_digit (clean_text ascii_only (py "a1")) = true.
Proof. vm_compute. reflexivity. Qed.

(** * Further properties of the processor *)

(** ** Whitespace in what the normalizer returns *)

Section WhitespaceNormalForm.

Context (U : Unicode).

Lemma rstrip_head s : head_space U s = false -> head_space U (rstrip U s) = false.
Proof.
  intros Hs. destruct s as [|c z]; [done|]. simpl in Hs.
  pose proof (rstrip_nonspace U [] c z Hs) as Hr. cbn [app] in Hr.
  rewrite Hr. exact Hs.
Qed.

Lemma strip_trimmed s : trimmed U (strip U s) = true.
Proof.
  unfold trimmed, strip, lstrip. apply andb_true_iff. split.
  - by rewrite rstrip_head; [|apply head_skip_spaces].
  - unfold rstrip. by rewrite reverse_involutive, head_skip_spaces.
Qed.

Lemma trimmed_strip s : trimmed U s = true -> strip U s = s.
Proof.
  unfold trimmed. intros [Hh Hl]%andb_true_iff.
  apply negb_true_iff in Hh, Hl.
  unfold strip, lstrip, rstrip.
  rewrite (skip_spaces_id U s Hh), (skip_spaces_id U _ Hl).
  apply reverse_involutive.
Qed.

Lemma collapse_is_single_spaced s :
  single_spaced U (re_sub U false re_spaces [T " "] s) = true.
Proof. unfold re_sub. by eapply collapse_single_spaced. Qed.

Lemma clean_whitespace_tidy w : tidy U (clean_whitespace U w) = true.
Proof.
  unfold clean_whitespace, re_sub.
  eapply unspace_tidy; [done|]. by eapply collapse_single_spaced.
Qed.

Lemma clean_text_tidy x : tidy U (clean_text U x) = true.
Proof.
  rewrite clean_text_unfold. destruct x as [|c x]; [done|].
  apply tidy_strip, clean_whitespace_tidy.
Qed.

Lemma clean_text_trimmed x : trimmed U (clean_text U x) = true.
Proof.
  rewrite clean_text_unfold. destruct x as [|c x]; [done|].
  apply strip_trimmed.
Qed.

Lemma collapse_clean_text y :
  strip U (re_sub U false re_spaces [T " "] (clean_text U y)) = clean_text U y.
Proof.
  unfold re_sub.
  rewrite (collapse_fixed U _ None (tidy_single_spaced U _ (clean_text_tidy y))).
  apply trimmed_strip, clean_text_trimmed.
Qed.

Lemma single_spaced_skip_spaces s :
  single_spaced U s = true -> single_spaced U (skip_spaces U s) = true.
Proof.
  unfold single_spaced. induction s as [|c t IH]; [done|]. intros Hs.
  cbn [skip_spaces]. destruct (is_space U c) eqn:Hc; [|done].
  cbn [spaced] in Hs. apply andb_true_iff in Hs as [_ Ht]. by apply IH.
Qed.

Lemma single_spaced_prefix a : forall b,
  single_spaced U (a ++ b) = true -> single_spaced U a = true.
Proof.
  unfold single_spaced. induction a as [|c a IH]; intros b Hs; [done|].
  cbn [app spaced] in *. apply andb_true_iff in Hs as [Hc Ht].
  rewrite (IH _ Ht), andb_true_r.
  destruct (is_space U c); [|done].
  apply andb_true_iff in Hc as [-> Hnext]. by destruct a.
Qed.

Lemma single_spaced_strip s :
  single_spaced U s = true -> single_spaced U (strip U s) = true.
Proof.
  intros Hs. unfold strip, lstrip.
  destruct (rstrip_prefix U (skip_spaces U s)) as [b Hb].
  apply (single_spaced_prefix _ b). rewrite <- Hb.
  by apply single_spaced_skip_spaces.
Qed.

Lemma description_normal name intro full_text sections url :
  tidy U (extract_clean_description U name intro full_text sections url) = true
  /\ trimmed U (extract_clean_description U name intro full_text sections url)
     = true.
Proof.
  unfold extract_clean_description.
  destruct (_is_system_character U name url intro).
  - by vm_compute.
  - cbv zeta. rewrite collapse_clean_text.
    split; [apply clean_text_tidy|apply clean_text_trimmed].
Qed.

End WhitespaceNormalForm.

(** X1: whatever the input, the text that [clean_text] returns has no
    whitespace but single spaces, no space before one of [.,!?], and no
    whitespace at either end. *)
Theorem clean_text_whitespace_normal (U : Unicode) (x : str) :
  tidy U (clean_text U x) = true /\ trimmed U (clean_text U x) = true.
Proof. split; [apply clean_text_tidy|apply clean_text_trimmed]. Qed.

(** X2: the description is in the same normal form, and the last clean-up
    of [extract_clean_description] (collapsing whitespace and trimming what
    [clean_text] returned) never changes the text. *)
Theorem description_whitespace_normal (U : Unicode) :
  (forall y, strip U (re_sub U false re_spaces [T " "] (clean_text U y))
             = clean_text U y)
  /\ (forall name intro full_text sections url,
        let description :=
          extract_clean_description U name intro full_text sections url in
        tidy U description = true /\ trimmed U description = true).
Proof.
  split; [apply collapse_clean_text|].
  intros name intro full_text sections url. apply description_normal.
Qed.

(** X3: [_aggressive_spacing_fix] returns the empty text unchanged, and
    otherwise a text in which whitespace occurs only as single spaces
    between other characters. *)
Theorem aggressive_spacing_fix_single_spaced (U : Unicode) (text : str) :
  _aggressive_spacing_fix U [] = []
  /\ single_spaced U (_aggressive_spacing_fix U text) = true
  /\ trimmed U (_aggressive_spacing_fix U text) = true.
Proof.
  split; [done|]. unfold _aggressive_spacing_fix.
  destruct text as [|c text]; [done|]. cbv zeta. split.
  - apply single_spaced_strip, collapse_is_single_spaced.
  - apply strip_trimmed.
Qed.

(** ** Where the characters of a substitution come from *)

Section Provenance.

Context (U : Unicode) (icase : bool) (P : N -> Prop).

Lemma iter_caps (D : str -> captures -> captures -> Prop) :
  (forall t g g', D t g g' -> Forall P t -> caps_ok P g -> caps_ok P g') ->
  forall n t g g',
    iter D n t g g' -> Forall P t -> caps_ok P g -> caps_ok P g'.
Proof.
  intros HD. induction n as [|n IH]; intros t g g' Hit Ht Hg.
  - destruct Hit as [_ ->]. done.
  - destruct Hit as (t1 & t2 & gm & -> & H1 & H2).
    apply Forall_app in Ht as [Ht1 Ht2]. eauto.
Qed.

Lemma den_caps r : forall t g g',
  den U icase r t g g' -> Forall P t -> caps_ok P g -> caps_ok P g'.
Proof.
  induction r as [|cs|l|a IHa b IHb|a IHa b IHb|a IHa lo hi greedy|i a IHa|cs| |];
    intros t g g' Hden Ht Hg; cbn [den] in Hden.
  - by destruct Hden as [_ ->].
  - by destruct Hden as (c & _ & _ & ->).
  - by destruct Hden as [_ ->].
  - destruct Hden as (t1 & t2 & gm & -> & H1 & H2).
    apply Forall_app in Ht as [Ht1 Ht2]. eauto.
  - destruct Hden as [H|H]; eauto.
  - destruct Hden as (n & _ & Hit). by eapply iter_caps.
  - destruct Hden as (gm & H & ->). apply Forall_cons. split; [done|].
    by eapply IHa.
  - by destruct Hden as [_ ->].
  - by destruct Hden as [_ ->].
  - by destruct Hden as [_ ->].
Qed.

Lemma group_caps i : forall g x,
  caps_ok P g -> group i g = Some x -> Forall P x.
Proof.
  induction g as [|[j s] g IH]; intros x Hg Hx; [done|].
  apply Forall_cons in Hg as [Hs Hg]. cbn [group] in Hx.
  destruct (Nat.eqb i j); [by injection Hx as <-|eauto].
Qed.

Lemma expand_caps tm g :
  Forall P (template_chars tm) -> caps_ok P g -> Forall P (expand tm g).
Proof.
  intros Htm Hg. unfold expand, template_chars in *.
  induction tm as [|x tm IH]; [done|]. cbn [flat_map] in *.
  apply Forall_app in Htm as [Hx Htm]. apply Forall_app. split; [|by apply IH].
  destruct x as [s|i]; [done|].
  destruct (group i g) as [x|] eqn:Hgr; [|done]. by eapply group_caps.
Qed.

Lemma sub_from_chars r tm :
  Forall P (template_chars tm) ->
  forall s skip p, Forall P s -> Forall P (sub_from U icase r tm s skip p).
Proof.
  intros Htm. induction s as [|c s IH]; intros skip p Hs.
  - destruct skip; [|done]. cbn [sub_from].
    destruct (match_here U icase r p []) as [[[p' s'] g]|] eqn:Hm; [|done].
    rewrite app_nil_r. apply expand_caps; [done|].
    apply match_here_sound in Hm as (t & Ht & Hden).
    symmetry in Ht. apply app_eq_nil in Ht as [-> _].
    apply (den_caps _ _ _ _ Hden); by constructor.
  - apply Forall_cons in Hs as Hcs. destruct Hcs as [Hc Hs'].
    destruct skip; cbn [sub_from]; [|by apply IH].
    destruct (match_here U icase r p (c :: s)) as [[[p' s'] g]|] eqn:Hm.
    + apply Forall_app. split.
      * apply expand_caps; [done|].
        apply match_here_sound in Hm as (t & Ht & Hden).
        apply (den_caps _ _ _ _ Hden); [|by constructor].
        rewrite Ht in Hs. by apply Forall_app in Hs as [? _].
      * destruct (length (c :: s) - length s'); [constructor; [done|]|];
          by apply IH.
    + constructor; [done|]. by apply IH.
Qed.

Lemma re_sub_chars r tm s :
  Forall P (template_chars tm) -> Forall P s -> Forall P (re_sub U icase r tm s).
Proof. intros. by apply sub_from_chars. Qed.

Lemma replace_char_chars old new s :
  Forall P new -> Forall P s -> Forall P (replace_char old new s).
Proof.
  intros Hnew Hs. unfold replace_char. induction Hs as [|c s Hc Hs IH]; [done|].
  cbn [flat_map]. apply Forall_app. split; [|done].
  destruct (N.eqb c old); [done|by constructor].
Qed.

Lemma skip_spaces_chars s : Forall P s -> Forall P (skip_spaces U s).
Proof.
  intros Hs. destruct (skip_spaces_suffix U s) as [a Ha].
  rewrite Ha in Hs. by apply Forall_app in Hs as [_ ?].
Qed.

Lemma strip_chars s : Forall P s -> Forall P (strip U s).
Proof.
  intros Hs. unfold strip, lstrip.
  destruct (rstrip_prefix U (skip_spaces U s)) as [b Hb].
  apply skip_spaces_chars in Hs. rewrite Hb in Hs.
  by apply Forall_app in Hs as [? _].
Qed.

End Provenance.

Lemma replace_char_removes old s :
  Forall (fun c => c <> old) (replace_char old [] s).
Proof.
  unfold replace_char. induction s as [|c s IH]; [done|]. cbn [flat_map].
  destruct (N.eqb c old) eqn:Hc; [done|].
  constructor; [|done]. by apply N.eqb_neq.
Qed.

(** The passes of [clean_text] after the removal of the special characters
    keep a property of characters that the space and the full stop have. *)
Lemma respacing_chars (U : Unicode) (P : N -> Prop) text :
  P 32%N -> P 46%N -> Forall P text ->
  Forall P (strip U (clean_whitespace U
              (fix_stuck_patterns U (fix_stuck_words U text)))).
Proof.
  intros Hsp Hdot Htext.
  set (sep := fun c => N.eqb c 32 || N.eqb c 46).
  assert (Htm : forall tm, forallb sep (template_chars tm) = true ->
                           Forall P (template_chars tm)).
  { intros tm Hsub. apply Forall_forall. intros c Hc.
    rewrite forallb_forall in Hsub. apply list_elem_of_In, Hsub in Hc.
    apply orb_true_iff in Hc as [Hc|Hc]; apply N.eqb_eq in Hc as ->; done. }
  apply strip_chars. unfold clean_whitespace.
  apply re_sub_chars; [by constructor|].
  apply re_sub_chars; [by apply Htm|].
  unfold fix_stuck_patterns, fix_stuck_words.
  assert (Hfold : forall l t,
            forallb (fun pr : regex * list titem =>
                       forallb sep (template_chars (snd pr))) l = true ->
            Forall P t ->
            Forall P (fold_left (fun text pr =>
                        re_sub U false (fst pr) (snd pr) text) l t)).
  { induction l as [|pr l IH]; intros t Hl Ht; [done|].
    cbn [forallb] in Hl. apply andb_true_iff in Hl as [Hpr Hl].
    cbn [fold_left]. apply IH; [done|]. apply re_sub_chars; [by apply Htm|done]. }
  apply Hfold; [done|].
  apply re_sub_chars; [by apply Htm|done].
Qed.

(** X4: [clean_text] writes no character of its own but the space and the
    full stop: every other character of the result occurs in the input.
    The info icon, the zero width joiner and the soft hyphen never
    occur in the result. *)
Theorem clean_text_adds_only_separators (U : Unicode) (x : str) :
  Forall (fun c => c ∈ x \/ c = 32%N \/ c = 46%N) (clean_text U x)
  /\ Forall (fun c => c <> c_info_icon /\ c <> c_zwj /\ c <> c_soft_hyphen)
            (clean_text U x).
Proof.
  destruct x as [|c0 x]; [by split|]. generalize (c0 :: x). clear. intros x.
  unfold clean_text.
  replace (match x with [] => [] | _ :: _ => _ end)
    with (match x with
          | [] => []
          | _ => strip U (clean_whitespace U (fix_stuck_patterns U (fix_stuck_words U
                   (remove_special_unicode (remove_markers U x)))))
          end) by by destruct x.
  destruct x as [|c0 x']; [by split|]. generalize (c0 :: x'). clear. intros x.
  split.
  - apply respacing_chars; [tauto|tauto|].
    unfold remove_special_unicode, remove_markers.
    do 3 (apply replace_char_chars; [done|]).
    do 3 (apply re_sub_chars; [done|]).
    apply Forall_forall. tauto.
  - apply respacing_chars; [done|done|].
    unfold remove_special_unicode.
    set (t := remove_markers U x).
    pose proof (replace_char_removes c_info_icon t) as H1.
    apply (replace_char_chars _ c_zwj []) in H1; [|done].
    apply (replace_char_chars _ c_soft_hyphen []) in H1; [|done].
    pose proof (replace_char_removes c_zwj (replace_char c_info_icon [] t)) as H2.
    apply (replace_char_chars _ c_soft_hyphen []) in H2; [|done].
    pose proof (replace_char_removes c_soft_hyphen
                  (replace_char c_zwj [] (replace_char c_info_icon [] t))) as H3.
    apply Forall_forall. intros c Hc.
    rewrite Forall_forall in H1, H2, H3. auto.
Qed.

(** ** Substrings *)

Lemma starts_with_prefix sub : forall s,
  starts_with sub s = true -> exists post, s = sub ++ post.
Proof.
  induction sub as [|a sub IH]; intros s H; [by exists s|].
  destruct s as [|b s]; [done|]. cbn [starts_with] in H.
  apply andb_true_iff in H as [Hab H]. apply N.eqb_eq in Hab as ->.
  destruct (IH _ H) as [post ->]. by exists post.
Qed.

Lemma contains_infix sub : forall s,
  contains sub s = true -> exists pre post, s = pre ++ sub ++ post.
Proof.
  induction s as [|c s IH]; intros H.
  - cbn [contains] in H. rewrite orb_false_r in H.
    destruct (starts_with_prefix _ _ H) as [post ->]. by exists [], post.
  - cbn [contains] in H. apply orb_true_iff in H as [H|H].
    + destruct (starts_with_prefix _ _ H) as [post ->]. by exists [], post.
    + destruct (IH H) as (pre & post & ->). by exists (c :: pre), post.
Qed.

Lemma contains_trans a b s :
  contains b a = true -> contains a s = true -> contains b s = true.
Proof.
  intros (pre & post & ->)%contains_infix (pre' & post' & ->)%contains_infix.
  replace (pre' ++ (pre ++ b ++ post) ++ post')
    with ((pre' ++ pre) ++ b ++ (post ++ post')) by by rewrite <- !app_assoc.
  apply contains_middle.
Qed.

(** ** The closed vocabularies of a processed record *)

Lemma _extract_field_in (U : Unicode) text options :
  none_or_in options (opt_str (_extract_field U text options)).
Proof.
  induction options as [|o options IH]; [by left|]. cbn [_extract_field].
  destruct (contains _ _).
  - right. exists o. split; [left|done].
  - destruct IH as [IH|(o' & Ho' & IH)]; [by left|].
    right. exists o'. split; [by right|done].
Qed.

Lemma first_model_in (U : Unicode) text models :
  none_or_in models (opt_str (first_model U text models)).
Proof.
  induction models as [|o models IH]; [by left|]. cbn [first_model].
  destruct (contains _ _).
  - right. exists o. split; [left|done].
  - destruct IH as [IH|(o' & Ho' & IH)]; [by left|].
    right. exists o'. split; [by right|done].
Qed.

Lemma extract_character_type_in (U : Unicode) intro :
  extract_character_type U intro ∈ character_types.
Proof.
  unfold extract_character_type, character_types. cbv zeta.
  repeat match goal with |- context [if ?c then _ else _] => destruct c end;
    cbn [map]; set_solver.
Qed.

(** X5: in every record that [process_character] returns, the element, the
    weapon, the region and the model type are [None] or one of the names
    the extractor looks for, the character type is one of five fixed
    strings and the rarity is 4 or 5. *)
Theorem processed_fields_closed (U : Unicode) (raw : RawCharacterRecord) info :
  process_character U raw = Some info ->
  none_or_in elements (get info "element")
  /\ none_or_in weapons (get info "weapon")
  /\ none_or_in regions (get info "region")
  /\ none_or_in model_types (get info "model_type")
  /\ (exists t, t ∈ character_types /\ get info "character_type" = VStr t)
  /\ (get info "rarity" = VInt 4 \/ get info "rarity" = VInt 5).
Proof.
  intros Hinfo. apply processed_lookup in Hinfo as (text & _ & ->).
  rewrite !get_skip_full_text by done.
  rewrite get_element, get_weapon, get_region, get_model_type,
    get_character_type, get_rarity.
  repeat split.
  - apply _extract_field_in.
  - apply _extract_field_in.
  - apply _extract_field_in.
  - apply first_model_in.
  - eexists. split; [|done]. apply extract_character_type_in.
  - destruct (extract_rarity_range U (sc_name (structured U raw))
                (default [] (raw_introduction raw))) as [H|H];
      [left|right]; by f_equal.
Qed.

Lemma processed_fields_closed_witness :
  exists info,
    process_character ascii_only amber_raw = Some info
    /\ none_or_in elements (get info "element")
    /\ (get info "rarity" = VInt 4 \/ get info "rarity" = VInt 5).
Proof.
  destruct (process_character_returns ascii_only amber_raw)
    as (text & _ & Hinfo); [vm_compute; by eexists|].
  destruct (processed_fields_closed ascii_only amber_raw _ Hinfo)
    as (Helement & _ & _ & _ & _ & Hrarity).
  eexists. split; [exact Hinfo|]. by split.
Defined.

(** ** Roles *)

Lemma role_flags (U : Unicode) intro :
  exists a b c d e,
    extract_character_roles U intro
    = [("on_field", a); ("off_field", b); ("dps", c); ("support", d);
       ("survivability", e)]%string.
Proof. unfold extract_character_roles. by eexists _, _, _, _, _. Qed.

(** X6: the role summary is never empty and loses nothing: the five role
    flags can be read back from it, so that two introductions with the same
    summary have the same roles. *)
Theorem role_summary_round_trip (U : Unicode) (intro : str) :
  let roles := extract_character_roles U intro in
  _create_role_summary roles <> []
  /\ roles_of_summary (_create_role_summary roles) = roles
  /\ forall intro',
       _create_role_summary (extract_character_roles U intro')
       = _create_role_summary roles ->
       extract_character_roles U intro' = roles.
Proof.
  assert (Hback : forall i,
            roles_of_summary (_create_role_summary (extract_character_roles U i))
            = extract_character_roles U i).
  { intros i. destruct (role_flags U i) as (a & b & c & d & e & ->).
    by destruct a, b, c, d, e. }
  cbv zeta. repeat split.
  - destruct (role_flags U intro) as (a & b & c & d & e & ->).
    by destruct a, b, c, d, e.
  - apply Hback.
  - intros intro' Heq. by rewrite <- (Hback intro'), Heq, Hback.
Qed.

Lemma role_summary_round_trip_witness :
  extract_character_roles ascii_only (py "A DPS best played on field.")
  = extract_character_roles ascii_only (py "An on-field DPS.").
Proof.
  apply (proj2 (proj2 (role_summary_round_trip ascii_only
                         (py "An on-field DPS.")))).
  vm_compute. reflexivity.
Defined.

(** ** Obtain methods and affiliations *)

Lemma not_contained a b s :
  contains b a = true -> contains b s = false -> contains a s = false.
Proof.
  intros Hba Hbs. destruct (contains a s) eqn:Has; [|done].
  by rewrite (contains_trans a b s Hba Has) in Hbs.
Qed.

(** X7: the list of obtain methods starts with 'Wishes', unless it is made
    only of the rewards ('Paimon's Bargains', 'Adventure Rank Reward',
    'Quest Reward'): an event wish or the chronicled wishes are never
    listed without 'Wishes' before them. *)
Theorem how_to_obtain_wishes_first (U : Unicode) (intro : str) :
  exists methods,
    extract_how_to_obtain U intro = Some methods
    /\ (head methods = Some (py "Wishes")
        \/ Forall (fun method => method ∈ reward_methods) methods).
Proof.
  unfold extract_how_to_obtain, has.
  destruct (contains (py "wish") (lower U intro)) eqn:Hwish.
  - rewrite orb_true_r.
    destruct (contains (py "event wish") (lower U intro)).
    + destruct (re_search U false re_event_wish_name intro) as [m|] eqn:Hm.
      * destruct (re_search_binds U false 1 re_event_wish_name intro m eq_refl Hm)
          as [g Hg].
        rewrite Hg. cbn [fmap option_fmap option_map mbind option_bind].
        eexists. split; [reflexivity|]. left.
        by destruct (contains (py "chronicled wishes") _),
          (contains (py "paimon's bargains") _),
          (contains (py "adventure rank") _),
          (contains (py "archon quest") _ || contains (py "complete") _).
      * cbn [mbind option_bind]. eexists. split; [reflexivity|]. left.
        by destruct (contains (py "chronicled wishes") _),
          (contains (py "paimon's bargains") _),
          (contains (py "adventure rank") _),
          (contains (py "archon quest") _ || contains (py "complete") _).
    + cbn [mbind option_bind]. eexists. split; [reflexivity|]. left.
      by destruct (contains (py "chronicled wishes") _),
          (contains (py "paimon's bargains") _),
          (contains (py "adventure rank") _),
          (contains (py "archon quest") _ || contains (py "complete") _).
  - rewrite (not_contained (py "wishes") (py "wish") _ eq_refl Hwish).
    rewrite (not_contained (py "event wish") (py "wish") _ eq_refl Hwish).
    rewrite (not_contained (py "chronicled wishes") (py "wish") _ eq_refl Hwish).
    cbn [orb mbind option_bind]. eexists. split; [reflexivity|].
    destruct (contains (py "paimon's bargains") _),
      (contains (py "adventure rank") _),
      (contains (py "archon quest") _ || contains (py "complete") _);
      first [ by left
            | right; repeat constructor;
              apply list_elem_of_In; vm_compute; tauto ].
Qed.

(** X8: the affiliations are listed in the order of the keyword list,
    each at most once, and 'Eleven Fatui Harbingers' is never listed
    without 'Fatui'. *)
Theorem affiliations_in_keyword_order (U : Unicode) (intro : str) :
  sublist (extract_affiliation U intro) affiliation_keywords
  /\ NoDup (extract_affiliation U intro)
  /\ (py "Eleven Fatui Harbingers" ∈ extract_affiliation U intro ->
      py "Fatui" ∈ extract_affiliation U intro).
Proof.
  assert (Hsub : sublist (extract_affiliation U intro) affiliation_keywords).
  { apply sublist_filter. }
  repeat split; [done| |].
  - apply (sublist_NoDup _ affiliation_keywords); [|exact Hsub].
    apply (bool_decide_unpack (NoDup affiliation_keywords)). by vm_compute.
  - unfold extract_affiliation. rewrite !list_elem_of_filter.
    intros [Hin _]. split; [|apply list_elem_of_In; vm_compute; tauto].
    apply Is_true_true. apply Is_true_true in Hin.
    revert Hin. apply contains_trans. by vm_compute.
Qed.

Lemma affiliations_in_keyword_order_witness :
  py "Fatui"
  ∈ extract_affiliation ascii_only
      (py "Ranked among the Eleven Fatui Harbingers.").
Proof.
  apply (proj2 (proj2 (affiliations_in_keyword_order ascii_only
                         (py "Ranked among the Eleven Fatui Harbingers.")))).
  apply list_elem_of_In. vm_compute. tauto.
Defined.

(** ** The keys of a processed record *)

(** X9: a record that [process_character] returns has the same
    twenty-three keys whatever the input, and the key 'birthday' besides
    exactly when the birthday pattern is found in the introduction. *)
Theorem processed_keys (U : Unicode) (raw : RawCharacterRecord) info :
  process_character U raw = Some info ->
  dom info
  = list_to_set record_keys
    ∪ (if matched (re_search U false re_birthday
                     (default [] (raw_introduction raw)))
       then {["birthday"%string]} else ∅).
Proof.
  intros Hinfo. apply processed_lookup in Hinfo as (text & _ & ->).
  assert (Hb : is_Some (sc_birthday (structured U raw))
               <-> matched (re_search U false re_birthday
                              (default [] (raw_introduction raw))) = true).
  { cbn [structured sc_birthday].
    destruct (re_search U false re_birthday _) as [m|] eqn:Hm.
    - split; [done|]. intros _.
      exact (re_search_binds U false 1 re_birthday _ m eq_refl Hm).
    - split; [by intros [? ?]|done]. }
  unfold to_dict, with_birthday.
  destruct (sc_birthday (structured U raw)) as [b|].
  - rewrite (proj1 Hb) by done. rewrite !dom_insert_L, dom_empty_L.
    unfold record_keys. cbn [list_to_set]. set_solver.
  - destruct (matched _); [by destruct (proj2 Hb eq_refl)|].
    rewrite !dom_insert_L, dom_empty_L.
    unfold record_keys. cbn [list_to_set]. set_solver.
Qed.

Lemma processed_keys_witness :
  exists info,
    process_character ascii_only amber_raw = Some info
    /\ dom info = list_to_set record_keys.
Proof.
  destruct (process_character_returns ascii_only amber_raw)
    as (text & _ & Hinfo); [vm_compute; by eexists|].
  eexists. split; [exact Hinfo|].
  rewrite (processed_keys ascii_only amber_raw _ Hinfo).
  assert (Hnone : matched (re_search ascii_only false re_birthday
                             (default [] (raw_introduction amber_raw)))
                  = false) by (vm_compute; reflexivity).
  rewrite Hnone. apply union_empty_r_L.
Defined.

(** ** What a group captures *)

Section Groups.

Context (U : Unicode) (icase : bool).

Lemma iter_made_of (Q : N -> Prop) (D : str -> captures -> captures -> Prop) :
  (forall t g g', D t g g' -> Forall Q t) ->
  forall n t g g', iter D n t g g' -> Forall Q t.
Proof.
  intros HD. induction n as [|n IH]; intros t g g' Hit.
  - by destruct Hit as [-> _].
  - destruct Hit as (t1 & t2 & gm & -> & H1 & H2).
    apply Forall_app. eauto.
Qed.

Lemma den_made_of (Q : N -> Prop) r : forall t g g',
  made_of U icase Q r -> den U icase r t g g' -> Forall Q t.
Proof.
  induction r as [|cs|l|a IHa b IHb|a IHa b IHb|a IHa lo hi greedy|i a IHa|cs| |];
    intros t g g' Hr Hden; cbn [den made_of] in *.
  - by destruct Hden as [-> _].
  - destruct Hden as (c & -> & Hc & _). constructor; [by apply Hr|done].
  - destruct Hden as [Hlen _]. subst l. by destruct t.
  - destruct Hr as [Hra Hrb]. destruct Hden as (t1 & t2 & gm & -> & H1 & H2).
    apply Forall_app. eauto.
  - destruct Hr as [Hra Hrb]. destruct Hden as [H|H]; eauto.
  - destruct Hden as (n & _ & Hit). eapply iter_made_of; [|exact Hit]. eauto.
  - destruct Hden as (gm & H & _). eauto.
  - by destruct Hden as [-> _].
  - by destruct Hden as [-> _].
  - by destruct Hden as [-> _].
Qed.

Lemma iter_group (D : str -> captures -> captures -> Prop) i r :
  (forall t g g' x, D t g g' -> group i g' = Some x -> captured_by U icase i r g x) ->
  forall n t g g' x,
    iter D n t g g' -> group i g' = Some x -> captured_by U icase i r g x.
Proof.
  intros HD. induction n as [|n IH]; intros t g g' x Hit Hx.
  - destruct Hit as [_ ->]. by left.
  - destruct Hit as (t1 & t2 & gm & -> & H1 & H2).
    destruct (IH _ _ _ _ H2 Hx) as [Hgm|Hbody]; [|by right]. eauto.
Qed.

Lemma captured_by_weaken i r r' g x :
  (forall a, a ∈ group_bodies i r -> a ∈ group_bodies i r') ->
  captured_by U icase i r g x -> captured_by U icase i r' g x.
Proof.
  intros Hsub [H|(a & g1 & g2 & Ha & Hden)]; [by left|].
  right. exists a, g1, g2. auto.
Qed.

Lemma den_group i r : forall t g g' x,
  den U icase r t g g' -> group i g' = Some x -> captured_by U icase i r g x.
Proof.
  induction r as [|cs|l|a IHa b IHb|a IHa b IHb|a IHa lo hi greedy|j a IHa|cs| |];
    intros t g g' x Hden Hx; cbn [den] in Hden.
  - destruct Hden as [_ ->]. by left.
  - destruct Hden as (c & _ & _ & ->). by left.
  - destruct Hden as [_ ->]. by left.
  - destruct Hden as (t1 & t2 & gm & -> & H1 & H2).
    destruct (IHb _ _ _ _ H2 Hx) as [Hgm|(a' & g1 & g2 & Ha' & Hd)].
    + eapply captured_by_weaken; [|exact (IHa _ _ _ _ H1 Hgm)].
      intros a' Ha'. cbn [group_bodies]. apply elem_of_app. by left.
    + right. exists a', g1, g2. split; [|done].
      cbn [group_bodies]. apply elem_of_app. by right.
  - destruct Hden as [H|H].
    + eapply captured_by_weaken; [|exact (IHa _ _ _ _ H Hx)].
      intros a' Ha'. cbn [group_bodies]. apply elem_of_app. by left.
    + eapply captured_by_weaken; [|exact (IHb _ _ _ _ H Hx)].
      intros a' Ha'. cbn [group_bodies]. apply elem_of_app. by right.
  - destruct Hden as (n & _ & Hit).
    eapply (iter_group (den U icase a) i (Rep a lo hi greedy)); [|exact Hit|exact Hx].
    intros t' g0 g0' x' Hd Hx'. exact (IHa _ _ _ _ Hd Hx').
  - destruct Hden as (gm & H & ->). cbn [group] in Hx.
    destruct (Nat.eqb i j) eqn:Hij.
    + injection Hx as <-. right. exists a, g, gm. split; [|done].
      cbn [group_bodies]. rewrite Hij. by left.
    + eapply captured_by_weaken; [|exact (IHa _ _ _ _ H Hx)].
      intros a' Ha'. cbn [group_bodies]. apply elem_of_app. by right.
  - destruct Hden as [_ ->]. by left.
  - destruct Hden as [_ ->]. by left.
  - destruct Hden as [_ ->]. by left.
Qed.

(** After a search, the text of a group is made of the characters of the
    bodies of the group. *)
Lemma re_search_group_chars (Q : N -> Prop) i r s m x :
  Forall (made_of U icase Q) (group_bodies i r) ->
  re_search U icase r s = Some m ->
  group i (f_groups m) = Some x ->
  Forall Q x.
Proof.
  intros Hbodies Hm Hx. apply re_search_sound in Hm.
  destruct (den_group i r _ _ _ _ Hm Hx) as [H|(a & g1 & g2 & Ha & Hden)];
    [done|].
  rewrite Forall_forall in Hbodies. eapply den_made_of; [|exact Hden]. auto.
Qed.

(** What the cascade of patterns returns was accepted after a match of one
    of the patterns. *)
Lemma first_accepted_inv {A} patterns text
    (accept : found -> option (option A)) v :
  first_accepted U icase patterns text accept = Some (Some v) ->
  exists pattern m,
    pattern ∈ patterns /\ re_search U icase pattern text = Some m
    /\ accept m = Some (Some v).
Proof.
  induction patterns as [|pattern rest IH]; intros H; [done|].
  cbn [first_accepted] in H.
  destruct (re_search U icase pattern text) as [m|] eqn:Hm.
  - destruct (accept m) as [[v'|]|] eqn:Hacc; cbn in H.
    + injection H as ->. exists pattern, m. repeat split; [left|done|done].
    + destruct (IH H) as (p' & m' & Hin & Hm' & Hacc').
      exists p', m'. repeat split; [by right|done|done].
    + done.
  - destruct (IH H) as (p' & m' & Hin & Hm' & Hacc').
    exists p', m'. repeat split; [by right|done|done].
Qed.

End Groups.

(** ** The shape of the extracted names *)

Section Names.

Context (U : Unicode).

Lemma upper_is_letter c :
  cset_match U false (CIn [IRange 65 90]) c = true -> letter_or_space U c.
Proof.
  cbn. rewrite orb_false_r. intros H. left. unfold ascii_alpha. by rewrite H.
Qed.

Lemma lower_is_letter c :
  cset_match U false (CIn [IRange 97 122]) c = true -> letter_or_space U c.
Proof.
  cbn. rewrite orb_false_r. intros H. left. unfold ascii_alpha.
  by rewrite H, orb_true_r.
Qed.

Lemma space_is_space c :
  cset_match U false (CIn [ISpace]) c = true -> letter_or_space U c.
Proof. cbn. rewrite orb_false_r. intros H. by right. Qed.

Lemma capitalized_words_made_of :
  made_of U false (letter_or_space U) re_capitalized_words.
Proof.
  cbn. repeat split;
    first [apply upper_is_letter | apply lower_is_letter | apply space_is_space].
Qed.

Lemma constellation_name_made_of :
  made_of U false (letter_or_space U) re_constellation_name.
Proof.
  cbn. repeat split;
    first [apply upper_is_letter | apply lower_is_letter | apply space_is_space].
Qed.

Lemma not_quote_made_of items :
  made_of U true (fun c => c <> c_quote)
    (Plus (Chr (CNotIn (IChar c_quote :: items)))).
Proof.
  cbn. intros c Hc ->. by vm_compute in Hc.
Qed.

End Names.

(** X10: a real name, when one is returned, has more than two characters,
    all of them ASCII letters or whitespace, and no whitespace at either
    end. *)
Theorem real_name_ascii_words (U : Unicode) (intro name : str) :
  extract_real_name U intro = Some (Some name) ->
  2 < length name
  /\ Forall (letter_or_space U) name
  /\ trimmed U name = true.
Proof.
  intros H. apply first_accepted_inv in H as (pattern & m & Hin & Hm & Hacc).
  destruct (group 1 (f_groups m)) as [g|] eqn:Hg; [|done].
  cbn [fmap option_fmap option_map mbind option_bind] in Hacc.
  destruct (nonempty (strip U g) && Nat.ltb 2 (length (strip U g))) eqn:Hc;
    [|done].
  injection Hacc as <-. apply andb_true_iff in Hc as [_ Hlen].
  apply Nat.ltb_lt in Hlen. repeat split; [done| |apply strip_trimmed].
  apply strip_chars.
  apply (re_search_group_chars U false _ 1 pattern intro m g); [|done|done].
  apply list_elem_of_singleton in Hin as ->.
  change (group_bodies 1 _) with [re_capitalized_words].
  apply Forall_cons. split; [apply capitalized_words_made_of|constructor].
Qed.

Lemma real_name_ascii_words_witness :
  Forall (letter_or_space ascii_only) (py "Kunikuzushi").
Proof.
  apply (real_name_ascii_words ascii_only
           (py "Real Name Kunikuzushi (formerly)") (py "Kunikuzushi")).
  vm_compute. reflexivity.
Defined.

(** X11: a constellation, when one is returned, has more than three
    characters, all of them ASCII letters or whitespace, does not start
    with 'Story' and has no whitespace at either end. *)
Theorem constellation_ascii_words (U : Unicode) (intro constellation : str) :
  extract_constellation U intro = Some (Some constellation) ->
  3 < length constellation
  /\ Forall (letter_or_space U) constellation
  /\ starts_with (py "Story") constellation = false
  /\ trimmed U constellation = true.
Proof.
  intros H. apply first_accepted_inv in H as (pattern & m & Hin & Hm & Hacc).
  destruct (group 1 (f_groups m)) as [g|] eqn:Hg; [|done].
  cbn [fmap option_fmap option_map mbind option_bind] in Hacc.
  destruct (nonempty (strip U g) && Nat.ltb 3 (length (strip U g))
            && negb (starts_with (py "Story") (strip U g))) eqn:Hc; [|done].
  injection Hacc as <-.
  apply andb_true_iff in Hc as [Hc Hstory].
  apply andb_true_iff in Hc as [_ Hlen].
  apply Nat.ltb_lt in Hlen. apply negb_true_iff in Hstory.
  repeat split; [done| |done|apply strip_trimmed].
  apply strip_chars.
  apply (re_search_group_chars U false _ 1 pattern intro m g); [|done|done].
  apply elem_of_cons in Hin as [->|Hin];
    [|apply list_elem_of_singleton in Hin as ->];
    change (group_bodies 1 _) with [re_constellation_name];
    (apply Forall_cons; split; [apply constellation_name_made_of|constructor]).
Qed.

Lemma constellation_ascii_words_witness :
  3 < length (py "Noctua") /\ starts_with (py "Story") (py "Noctua") = false.
Proof.
  destruct (constellation_ascii_words ascii_only
              (py "Constellation Noctua.") (py "Noctua")) as (Hl & _ & Hs & _).
  - vm_compute. reflexivity.
  - split; [exact Hl|exact Hs].
Defined.

(** X12: a title, when one is returned, has between 4 and 49 characters,
    none of them a double quote, and no whitespace at either end. *)
Theorem title_bounds (U : Unicode) (intro title : str) :
  extract_title U intro = Some (Some title) ->
  3 < length title < 50
  /\ (c_quote ∉ title)
  /\ trimmed U title = true.
Proof.
  intros H. apply first_accepted_inv in H as (pattern & m & Hin & Hm & Hacc).
  destruct (group 1 (f_groups m)) as [g|] eqn:Hg; [|done].
  cbn [fmap option_fmap option_map mbind option_bind] in Hacc.
  destruct (Nat.ltb 3 (length (strip U g)) && Nat.ltb (length (strip U g)) 50)
    eqn:Hc; [|done].
  injection Hacc as <-. apply andb_true_iff in Hc as [Hlo Hhi].
  apply Nat.ltb_lt in Hlo, Hhi. repeat split; [done|done| |apply strip_trimmed].
  assert (Hchars : Forall (fun c => c <> c_quote) (strip U g)).
  { apply strip_chars.
    apply (re_search_group_chars U true _ 1 pattern intro m g); [|done|done].
    unfold title_patterns in Hin.
    repeat (apply elem_of_cons in Hin as [->|Hin]);
      [| | | |by apply elem_of_nil in Hin];
      cbn [group_bodies cat re_title_after Opt Plus L Nat.eqb app];
      (apply Forall_cons; split; [apply not_quote_made_of|constructor]). }
  rewrite Forall_forall in Hchars. intros Hq. by apply (Hchars _ Hq).
Qed.

Lemma title_bounds_witness :
  3 < length (py "Vago Mundo") < 50.
Proof.
  apply (title_bounds ascii_only
           (py "The consultant, also known as Vago Mundo, lives in Liyue.")
           (py "Vago Mundo")).
  vm_compute. reflexivity.
Defined.

(** X13: a special dish, when one is returned, has between 3 and 99
    characters and no whitespace at either end; a namecard has more than
    two characters. *)
Theorem dish_and_namecard_bounds (U : Unicode) (intro : str) :
  (forall dish, extract_special_dish U intro = Some (Some dish) ->
     2 < length dish < 100 /\ trimmed U dish = true)
  /\ (forall namecard, extract_namecard U intro = Some (Some namecard) ->
        2 < length namecard).
Proof.
  split.
  - intros dish H.
    apply first_accepted_inv in H as (pattern & m & Hin & Hm & Hacc).
    destruct (group 1 (f_groups m)) as [g|] eqn:Hg; [|done].
    cbn [fmap option_fmap option_map mbind option_bind] in Hacc.
    cbv zeta in Hacc.
    destruct (nonempty _ && Nat.ltb 2 _ && Nat.ltb _ 100) eqn:Hc; [|done].
    injection Hacc as <-.
    apply andb_true_iff in Hc as [Hc Hhi].
    apply andb_true_iff in Hc as [_ Hlo].
    apply Nat.ltb_lt in Hlo, Hhi. repeat split; [done|done|apply strip_trimmed].
  - intros namecard H.
    apply first_accepted_inv in H as (pattern & m & Hin & Hm & Hacc).
    destruct (group 1 (f_groups m)) as [g|] eqn:Hg; [|done].
    cbn [fmap option_fmap option_map mbind option_bind] in Hacc.
    cbv zeta in Hacc.
    destruct (nonempty _ && Nat.ltb 2 _) eqn:Hc; [|done].
    injection Hacc as <-.
    apply andb_true_iff in Hc as [_ Hlo]. by apply Nat.ltb_lt in Hlo.
Qed.

Lemma dish_and_namecard_bounds_witness :
  2 < length (py "Once Upon a Time in Mondstadt") < 100.
Proof.
  apply (proj1 (dish_and_namecard_bounds ascii_only
                  (py "Special Dish Once Upon a Time in Mondstadt Namecard"))).
  vm_compute. reflexivity.
Defined.

(** ** Voice actors *)

Lemma voice_actors_from_inv (U : Unicode) (R : str -> str -> Prop) intro :
  forall patterns,
  (forall lang pattern m g,
     (lang, pattern) ∈ patterns ->
     re_search U false pattern intro = Some m ->
     group 1 (f_groups m) = Some g ->
     R (py lang)
       (re_sub U false re_ref_marker []
          (re_sub U false re_parenthesis [] (strip U g)))) ->
  forall voice_actors result,
    voice_actors_from U patterns intro voice_actors = Some result ->
    exists new,
      result = voice_actors ++ new
      /\ sublist (map fst new) (map (fun lp => py (fst lp)) patterns)
      /\ Forall (fun kv => R (fst kv) (snd kv)
                           /\ 1 < length (snd kv) < 50) new.
Proof.
  induction patterns as [|[lang pattern] rest IH]; intros HR acc result H.
  - injection H as <-. exists []. by rewrite app_nil_r.
  - assert (HR' : forall lang pattern m g,
              (lang, pattern) ∈ rest ->
              re_search U false pattern intro = Some m ->
              group 1 (f_groups m) = Some g ->
              R (py lang)
                (re_sub U false re_ref_marker []
                   (re_sub U false re_parenthesis [] (strip U g)))).
    { intros l p m g Hin. apply HR. by right. }
    assert (Hskip : voice_actors_from U rest intro acc = Some result ->
              exists new,
                result = acc ++ new
                /\ sublist (map fst new)
                     (map (fun lp => py (fst lp)) ((lang, pattern) :: rest))
                /\ Forall (fun kv => R (fst kv) (snd kv)
                                     /\ 1 < length (snd kv) < 50) new).
    { intros H'. destruct (IH HR' _ _ H') as (new & -> & Hsub & Hall).
      exists new. repeat split; [|done]. by apply sublist_cons. }
    cbn [voice_actors_from] in H.
    destruct (re_search U false pattern intro) as [m|] eqn:Hm; [|by apply Hskip].
    destruct (group 1 (f_groups m)) as [g|] eqn:Hg; [|done].
    cbn [fmap option_fmap option_map mbind option_bind] in H. cbv zeta in H.
    set (actor := re_sub U false re_ref_marker []
                    (re_sub U false re_parenthesis [] (strip U g))) in *.
    destruct (nonempty actor && Nat.ltb 1 (length actor)
              && Nat.ltb (length actor) 50) eqn:Hc; [|by apply Hskip].
    destruct (IH HR' _ _ H) as (new & -> & Hsub & Hall).
    exists ((py lang, actor) :: new). rewrite <- app_assoc.
    repeat split; [by apply sublist_skip|].
    apply Forall_cons. split; [|done]. cbn [fst snd].
    apply andb_true_iff in Hc as [Hc Hhi].
    apply andb_true_iff in Hc as [_ Hlo].
    apply Nat.ltb_lt in Hlo, Hhi. repeat split; [|done|done].
    apply (HR lang pattern m g); [left|done|done].
Qed.

(** X14: the voice actors are listed by language in the order English,
    Chinese, Japanese, Korean, each language at most once; every name has
    between 2 and 49 characters, and the English name is made of ASCII
    letters and whitespace. *)
Theorem voice_actors_well_formed (U : Unicode) (intro : str) :
  exists actors,
    extract_voice_actors U intro = Some actors
    /\ sublist (map fst actors) voice_languages
    /\ Forall (fun kv => 1 < length (snd kv) < 50) actors
    /\ forall actor,
         (py "english", actor) ∈ actors -> Forall (letter_or_space U) actor.
Proof.
  destruct (extract_voice_actors_total U intro) as [actors Hactors].
  exists actors. split; [done|].
  destruct (voice_actors_from_inv U
              (fun lang actor =>
                 lang = py "english" -> Forall (letter_or_space U) actor)
              intro voice_actor_patterns) with (2 := Hactors)
    as (new & -> & Hsub & Hall).
  { intros lang pattern m g Hin Hm Hg Hlang.
    apply re_sub_chars; [done|]. apply re_sub_chars; [done|].
    apply strip_chars.
    apply (re_search_group_chars U false _ 1 pattern intro m g); [|done|done].
    unfold voice_actor_patterns in Hin.
    repeat (apply elem_of_cons in Hin as [Hin|Hin]);
      [| | | |by apply elem_of_nil in Hin];
      injection Hin as -> ->; [|by vm_compute in Hlang..].
    change (group_bodies 1 _) with [re_capitalized_words].
    apply Forall_cons. split; [apply capitalized_words_made_of|constructor]. }
  cbn [app]. repeat split; [done| |].
  - eapply Forall_impl; [exact Hall|]. by intros kv [_ ?].
  - intros actor Hin. rewrite Forall_forall in Hall.
    destruct (Hall _ Hin) as [HR _]. by apply HR.
Qed.

Lemma voice_actors_well_formed_witness :
  exists actors,
    extract_voice_actors ascii_only (py "English Keith Silverstein[1]")
    = Some actors
    /\ Forall (fun kv => 1 < length (snd kv) < 50) actors.
Proof.
  destruct (voice_actors_well_formed ascii_only
              (py "English Keith Silverstein[1]"))
    as (actors & H & _ & Hall & _).
  exists actors. split; [exact H|exact Hall].
Defined.

(** ** The chunks of a record *)

Section ChunkCensus.

Context (U : Unicode).

Lemma count_type_all t (l : list Chunk) :
  Forall (fun c => chunk_type c = t) l -> count_type t l = length l.
Proof.
  unfold count_type. induction 1 as [|c l Hc Hall IH]; [done|].
  rewrite filter_cons_True by done. simpl. by rewrite IH.
Qed.

Lemma meta_chunks_length char name cs :
  meta_chunks U char name = Some cs ->
  length cs = (if has_meta_info char then 1 else 0).
Proof.
  unfold meta_chunks, has_meta_info. intros H.
  destruct (truthy (get char "voice_actors") || truthy (get char "special_dish"));
    [|by injection H as <-].
  apply bind_Some in H as (actors & _ & H). simpl in H.
  apply bind_Some in H as (obtain & _ & H). by injection H as <-.
Qed.

Lemma section_chunks_length char name item cs :
  section_chunks U char name item = Some cs ->
  length cs = (if long_item item then 1 else 0).
Proof.
  destruct item as [k v]. unfold section_chunks, long_item. cbn [snd].
  destruct (truthy v); [|by intros [= <-]].
  destruct (py_len v) as [n|]; [|done]. cbn [mbind option_bind andb].
  destruct (Nat.ltb 50 n); by intros [= <-].
Qed.

Lemma sections_chunks_length char name : forall items css,
  mapM (section_chunks U char name) items = Some css ->
  length (concat css) = length (filter (fun item => long_item item = true) items).
Proof.
  induction items as [|item items IH]; intros css H.
  - by injection H as <-.
  - simpl in H. apply bind_Some in H as (cs & Hcs & H).
    apply bind_Some in H as (css' & Hcss' & H). injection H as <-.
    simpl. rewrite length_app, (IH _ Hcss').
    rewrite (section_chunks_length _ _ _ _ Hcs), filter_cons.
    by destruct (long_item item).
Qed.

Lemma character_chunks_census char cs :
  character_chunks U char = Some cs ->
  count_type ct_meta_info cs = (if has_meta_info char then 1 else 0)
  /\ count_type ct_section cs = long_sections char.
Proof.
  unfold character_chunks. intros H.
  apply bind_Some in H as (name & _ & H).
  apply bind_Some in H as (basic & Hbasic & H).
  apply bind_Some in H as (desc & Hdesc & H).
  apply bind_Some in H as (meta & Hmeta & H).
  apply bind_Some in H as (items & Hitems & H).
  apply bind_Some in H as (sections & Hsections & H).
  injection H as <-.
  pose proof (meta_chunks_length _ _ _ Hmeta) as Hmlen.
  pose proof (sections_chunks_length _ _ _ _ Hsections) as Hslen.
  apply basic_chunk_type in Hbasic.
  apply description_chunks_type in Hdesc as [Hdesc _].
  apply meta_chunks_type in Hmeta.
  apply sections_chunks_type in Hsections.
  rewrite !count_type_cons, !count_type_app, Hbasic.
  rewrite (count_type_other ct_meta_info ct_description desc) by done.
  rewrite (count_type_other ct_meta_info ct_section (concat sections)) by done.
  rewrite (count_type_other ct_section ct_description desc) by done.
  rewrite (count_type_other ct_section ct_meta_info meta) by done.
  rewrite (count_type_all _ _ Hmeta), (count_type_all _ _ Hsections).
  rewrite Hmlen, Hslen. unfold long_sections, section_items. rewrite Hitems.
  cbn [default]. split; simpl; lia.
Qed.

Lemma count_types_sum (l : list Chunk) :
  length l
  = count_type ct_basic_info l + count_type ct_description l
    + count_type ct_meta_info l + count_type ct_section l.
Proof.
  induction l as [|c l IH]; [done|]. rewrite !count_type_cons. simpl.
  rewrite IH. destruct (chunk_type c); simpl; lia.
Qed.

End ChunkCensus.

(** X15: the chunker writes one meta-info chunk for each record that has
    voice actors or a special dish (a namecard or obtain methods alone
    give none) and one section chunk for each section longer than 50; with
    the basic-info and the description chunks these are all the chunks. *)
Theorem chunk_census (U : Unicode) : forall data chunks,
  create_smart_chunks U data = Some chunks ->
  count_type ct_meta_info chunks
  = length (filter (fun char => has_meta_info char = true) data)
  /\ count_type ct_section chunks = sum_list (map long_sections data)
  /\ length chunks
     = length data
       + length (filter (fun char => has_long_description char = true) data)
       + length (filter (fun char => has_meta_info char = true) data)
       + sum_list (map long_sections data).
Proof.
  assert (Hcounts : forall data chunks,
            create_smart_chunks U data = Some chunks ->
            count_type ct_meta_info chunks
            = length (filter (fun char => has_meta_info char = true) data)
            /\ count_type ct_section chunks = sum_list (map long_sections data)).
  { unfold create_smart_chunks.
    induction data as [|char data IH]; intros chunks H.
    - simpl in H. by injection H as <-.
    - apply bind_Some in H as (css & Hcss & H). injection H as <-.
      simpl in Hcss.
      apply bind_Some in Hcss as (cs & Hcs & Hcss).
      apply bind_Some in Hcss as (css' & Hcss' & Hcss). injection Hcss as <-.
      destruct (IH (concat css')) as [IH1 IH2]; [by rewrite Hcss'|].
      apply character_chunks_census in Hcs as [Hm Hs].
      simpl. rewrite !count_type_app, Hm, Hs, IH1, IH2. split; [|done].
      rewrite filter_cons. by destruct (has_meta_info char). }
  intros data chunks H.
  destruct (Hcounts data chunks H) as [Hm Hs].
  destruct (create_smart_chunks_counts U data chunks H) as [Hb Hd].
  repeat split; [done|done|].
  rewrite (count_types_sum chunks). lia.
Qed.

Lemma chunk_census_witness :
  exists chunks,
    create_smart_chunks ascii_only [short_description_record] = Some chunks
    /\ length chunks = 1.
Proof.
  eexists. split; [vm_compute; reflexivity|].
  refine (proj2 (proj2 (chunk_census ascii_only [short_description_record] _ _))).
  vm_compute. reflexivity.
Defined.

(** ** The ids and the contents of the chunks *)

Section ChunkForm.

Context (U : Unicode).

Lemma replace_char_no_old old new s :
  old ∉ new -> old ∉ replace_char old new s.
Proof.
  intros Hnew. unfold replace_char. induction s as [|c s IH]; [by apply not_elem_of_nil|].
  cbn [flat_map]. apply not_elem_of_app. split; [|done].
  destruct (N.eqb c old) eqn:Hc; [done|].
  apply N.eqb_neq in Hc. intros Hin%list_elem_of_singleton. congruence.
Qed.

Lemma slug_no_space name : 32%N ∉ slug U name.
Proof.
  apply replace_char_no_old. change (py "_") with [95%N].
  by intros Hin%list_elem_of_singleton.
Qed.

Lemma no_space_literal (s : str) :
  forallb (fun c => negb (N.eqb c 32)) s = true -> 32%N ∉ s.
Proof.
  intros H Hin. rewrite forallb_forall in H.
  apply list_elem_of_In, H in Hin. by rewrite N.eqb_refl in Hin.
Qed.

(** A text that starts with the header and has a hyphen further on keeps
    its header when trimmed. *)
Lemma header_kept name pre post :
  starts_with (py "# " ++ name)
    (strip U (py "# " ++ name ++ pre ++ 45%N :: post)) = true.
Proof.
  assert (E : py "# " ++ name ++ pre ++ 45%N :: post
              = 35%N :: (32%N :: name ++ pre) ++ 45%N :: post).
  { change (py "# ") with [35%N; 32%N]. cbn [app].
    by rewrite (app_assoc name pre). }
  rewrite E, strip_keeps.
  assert (E' : 35%N :: (32%N :: name ++ pre) ++ 45%N :: rstrip U post
               = (py "# " ++ name) ++ pre ++ 45%N :: rstrip U post).
  { change (py "# ") with [35%N; 32%N]. cbn [app].
    by rewrite <- (app_assoc name pre). }
  rewrite E'. apply starts_with_refl.
Qed.

Local Abbreviation chunk_of char name :=
  (fun c => character c = name /\ well_formed_chunk U c
            /\ Forall (fun kv => snd kv = get char (fst kv)) (metadata c)).

Lemma metadata_of_record (char : gmap string pyval) keys :
  Forall (fun kv => snd kv = get char (fst kv)) (metadata_of char keys).
Proof. unfold metadata_of. by apply Forall_map, Forall_forall. Qed.

Lemma id_well_formed name (suffix : str) :
  forallb (fun c => negb (N.eqb c 32)) suffix = true ->
  32%N ∉ slug U name ++ suffix.
Proof.
  intros H. apply not_elem_of_app. split; [apply slug_no_space|].
  by apply no_space_literal.
Qed.

Lemma basic_chunk_form char name c :
  basic_chunk U char name = Some c -> chunk_of char name c.
Proof.
  unfold basic_chunk. intros H.
  apply bind_Some in H as (aff & _ & H). apply (inj Some) in H. subst c.
  split; [done|]. split; [|cbn [metadata]; apply metadata_of_record].
  unfold well_formed_chunk.
  cbn [id character content]. repeat split.
  - by apply id_well_formed.
  - apply starts_with_refl.
  - rewrite <- !app_assoc.
    change (py "- Element: ") with (45%N :: py " Element: "). cbn [app].
    apply (header_kept name (nl ++ nl ++ py "## Basic Information" ++ nl)).
  - apply strip_trimmed.
Qed.

Lemma description_chunks_form char name cs :
  description_chunks U char name = Some cs -> Forall (chunk_of char name) cs.
Proof.
  unfold description_chunks. intros H.
  destruct (truthy _); [|apply (inj Some) in H; by subst cs].
  apply bind_Some in H as (n & _ & H).
  destruct (Nat.ltb 50 n); apply (inj Some) in H; subst cs; [|done].
  apply Forall_cons; split; [|constructor]. split; [done|].
  split; [|cbn [metadata]; apply metadata_of_record].
  unfold well_formed_chunk. cbn [id character content].
  split; [|split; [|split]].
  - by apply id_well_formed.
  - apply starts_with_refl.
  - change (py " - Description") with (32%N :: 45%N :: py " Description").
    cbn [app]. apply (header_kept name [32%N]).
  - apply strip_trimmed.
Qed.

Lemma meta_chunks_form char name cs :
  meta_chunks U char name = Some cs -> Forall (chunk_of char name) cs.
Proof.
  unfold meta_chunks. intros H.
  destruct (_ || _); [|apply (inj Some) in H; by subst cs].
  apply bind_Some in H as (actors & _ & H). cbv zeta in H.
  apply bind_Some in H as (obtain & _ & H). apply (inj Some) in H. subst cs.
  apply Forall_cons; split; [|constructor]. split; [done|].
  split; [|cbn [metadata]; apply metadata_of_record].
  unfold well_formed_chunk. cbn [id character content].
  split; [|split; [|split]].
  - by apply id_well_formed.
  - apply starts_with_refl.
  - rewrite <- !app_assoc.
    change (py " - Additional Info") with (32%N :: 45%N :: py " Additional Info").
    cbn [app]. apply (header_kept name [32%N]).
  - apply strip_trimmed.
Qed.

Lemma section_chunks_form char name item cs :
  section_chunks U char name item = Some cs -> Forall (chunk_of char name) cs.
Proof.
  destruct item as [k v]. unfold section_chunks. intros H.
  destruct (truthy v); [|apply (inj Some) in H; by subst cs].
  apply bind_Some in H as (n & _ & H).
  destruct (Nat.ltb 50 n); apply (inj Some) in H; subst cs; [|done].
  apply Forall_cons; split; [|constructor]. split; [done|].
  split; [|cbn [metadata]; apply metadata_of_record].
  unfold well_formed_chunk. cbn [id character content].
  split; [|split; [|split]].
  - change (py "_" ++ slug U k) with (95%N :: slug U k).
    apply not_elem_of_app. split; [apply slug_no_space|].
    apply not_elem_of_cons. split; [done|apply slug_no_space].
  - apply starts_with_refl.
  - change (py " - ") with [32%N; 45%N; 32%N].
    cbn [app]. apply (header_kept name [32%N]).
  - apply strip_trimmed.
Qed.

Lemma character_chunks_form char cs :
  character_chunks U char = Some cs ->
  exists name,
    get_or char "name" (VStr (py "Unknown")) = VStr name
    /\ Forall (chunk_of char name) cs.
Proof.
  unfold character_chunks. intros H.
  apply bind_Some in H as (name & Hname & H).
  apply bind_Some in H as (basic & Hbasic & H).
  apply bind_Some in H as (desc & Hdesc & H).
  apply bind_Some in H as (meta & Hmeta & H).
  apply bind_Some in H as (items & Hitems & H).
  apply bind_Some in H as (sections & Hsections & H).
  injection H as <-. exists name. split.
  - unfold as_str in Hname.
    destruct (get_or char "name" _); try done. by injection Hname as ->.
  - apply Forall_cons. split; [by eapply basic_chunk_form|].
    apply Forall_app. split; [by eapply description_chunks_form|].
    apply Forall_app. split; [by eapply meta_chunks_form|].
    clear Hitems. revert sections Hsections.
    induction items as [|item items IH]; intros sections Hs.
    + by injection Hs as <-.
    + simpl in Hs. apply bind_Some in Hs as (cs & Hcs & Hs).
      apply bind_Some in Hs as (css & Hcss & Hs). injection Hs as <-.
      simpl. apply Forall_app. split; [by eapply section_chunks_form|eauto].
Qed.

End ChunkForm.

(** X16: every chunk carries the name of a record of the data and, as
    metadata, values of that record; its id starts with the slug of the
    name and contains no space; its content starts with the header of the
    character and has no whitespace at either end. *)
Theorem chunks_well_formed (U : Unicode) : forall data chunks,
  create_smart_chunks U data = Some chunks ->
  Forall (fun c =>
            well_formed_chunk U c
            /\ exists char,
                 char ∈ data
                 /\ get_or char "name" (VStr (py "Unknown"))
                    = VStr (character c)
                 /\ Forall (fun kv => snd kv = get char (fst kv))
                           (metadata c))
         chunks.
Proof.
  unfold create_smart_chunks.
  induction data as [|char data IH]; intros chunks H.
  - simpl in H. by injection H as <-.
  - apply bind_Some in H as (css & Hcss & H). injection H as <-.
    simpl in Hcss.
    apply bind_Some in Hcss as (cs & Hcs & Hcss).
    apply bind_Some in Hcss as (css' & Hcss' & Hcss). injection Hcss as <-.
    simpl. apply Forall_app. split.
    + apply character_chunks_form in Hcs as (name & Hname & Hall).
      eapply Forall_impl; [exact Hall|]. intros c (Hc & Hwf & Hmeta).
      split; [done|]. exists char. split; [left|]. by rewrite Hc.
    + eapply Forall_impl; [apply (IH (concat css')); by rewrite Hcss'|].
      intros c [Hwf (char' & Hin & Hname)]. split; [done|].
      exists char'. split; [by right|done].
Qed.

Lemma chunks_well_formed_witness :
  exists chunks,
    create_smart_chunks ascii_only [short_description_record] = Some chunks
    /\ Forall (fun c => 32%N ∉ id c) chunks.
Proof.
  eexists. split; [vm_compute; reflexivity|].
  eapply Forall_impl.
  - refine (chunks_well_formed ascii_only [short_description_record] _ _).
    vm_compute. reflexivity.
  - intros c [[H _] _]. exact H.
Defined.

(** ** Chunk ids that coincide *)

Section ChunkIds.

Context (U : Unicode).

Lemma section_chunk_id char name : forall items css k v,
  mapM (section_chunks U char name) items = Some css ->
  (k, v) ∈ items -> long_item (k, v) = true ->
  slug U name ++ py "_" ++ slug U k ∈ map id (concat css).
Proof.
  induction items as [|item items IH]; intros css k v H Hin Hlong.
  - by apply elem_of_nil in Hin.
  - simpl in H. apply bind_Some in H as (cs & Hcs & H).
    apply bind_Some in H as (css' & Hcss' & H). injection H as <-.
    simpl. rewrite map_app. apply elem_of_app.
    apply elem_of_cons in Hin as [<-|Hin]; [left|right; by eapply IH].
    unfold section_chunks in Hcs. unfold long_item in Hlong. cbn [snd] in Hlong.
    apply andb_true_iff in Hlong as [Hv Hlen]. rewrite Hv in Hcs.
    destruct (py_len v) as [n|]; [|done]. cbn [mbind option_bind] in Hcs.
    rewrite Hlen in Hcs. injection Hcs as <-. left.
Qed.

Lemma chunks_of_member : forall data chunks char,
  create_smart_chunks U data = Some chunks -> char ∈ data ->
  exists cs before after,
    character_chunks U char = Some cs /\ chunks = before ++ cs ++ after.
Proof.
  unfold create_smart_chunks.
  induction data as [|char' data IH]; intros chunks char H Hin.
  - by apply elem_of_nil in Hin.
  - apply bind_Some in H as (css & Hcss & H). injection H as <-.
    simpl in Hcss.
    apply bind_Some in Hcss as (cs & Hcs & Hcss).
    apply bind_Some in Hcss as (css' & Hcss' & Hcss). injection Hcss as <-.
    apply elem_of_cons in Hin as [->|Hin].
    + exists cs, [], (concat css'). by split.
    + destruct (IH (concat css') char) as (cs0 & b & a & Hcs0 & Heq);
        [by rewrite Hcss'|done|].
      exists cs0, (cs ++ b), a. split; [done|].
      simpl. by rewrite Heq, <- app_assoc.
Qed.

End ChunkIds.

(** X17: the ids of the chunks are not always distinct: a record with a
    section longer than 50 whose name gives the slug 'basic', or the slug
    'description' when the description is longer than 50, has two chunks
    with the same id. *)
Theorem chunk_ids_can_coincide (U : Unicode) data chunks char k v :
  create_smart_chunks U data = Some chunks ->
  char ∈ data ->
  (k, v) ∈ section_items char ->
  long_item (k, v) = true ->
  slug U k = py "basic"
  \/ (slug U k = py "description" /\ has_long_description char = true) ->
  ~ NoDup (map id chunks).
Proof.
  intros H Hin Hitem Hlong Hslug Hnodup.
  destruct (chunks_of_member U data chunks char H Hin)
    as (cs & before & after & Hcs & ->).
  rewrite !map_app in Hnodup.
  apply NoDup_app in Hnodup as (_ & _ & Hnodup).
  apply NoDup_app in Hnodup as (Hnodup & _ & _).
  unfold character_chunks in Hcs.
  apply bind_Some in Hcs as (name & Hname & Hcs).
  apply bind_Some in Hcs as (basic & Hbasic & Hcs).
  apply bind_Some in Hcs as (desc & Hdesc & Hcs).
  apply bind_Some in Hcs as (meta & Hmeta & Hcs).
  apply bind_Some in Hcs as (items & Hitems & Hcs).
  apply bind_Some in Hcs as (sections & Hsections & Hcs).
  injection Hcs as <-.
  unfold section_items in Hitem. rewrite Hitems in Hitem. cbn [default] in Hitem.
  pose proof (section_chunk_id U char name items sections k v
                Hsections Hitem Hlong) as Hsec.
  cbn [map] in Hnodup. rewrite !map_app in Hnodup.
  apply NoDup_cons in Hnodup as [Hbasic_new Hrest].
  destruct Hslug as [Hslug|[Hslug Hdescription]]; rewrite Hslug in Hsec.
  - apply Hbasic_new. rewrite !elem_of_app. right. right.
    unfold basic_chunk in Hbasic.
    apply bind_Some in Hbasic as (aff & _ & Hbasic). by injection Hbasic as <-.
  - apply NoDup_app in Hrest as (_ & Hdisjoint & _).
    apply (Hdisjoint (slug U name ++ py "_description")).
    + unfold description_chunks in Hdesc.
      unfold has_long_description in Hdescription.
      apply andb_true_iff in Hdescription as [Htruthy Hlen].
      rewrite Htruthy in Hdesc.
      destruct (py_len _) as [n|]; [|done]. cbn [mbind option_bind] in Hdesc.
      rewrite Hlen in Hdesc. injection Hdesc as <-. left.
    + apply elem_of_app. by right.
Qed.

Lemma chunk_ids_can_coincide_witness :
  exists chunks,
    create_smart_chunks ascii_only [record_with_description_section]
    = Some chunks
    /\ ~ NoDup (map id chunks).
Proof.
  eexists. split; [vm_compute; reflexivity|].
  refine (chunk_ids_can_coincide ascii_only [record_with_description_section] _
            record_with_description_section (py "Description")
            (VStr (py "An outrider who patrols the plains and the cliffs of Mondstadt."))
            _ _ _ _ _).
  - vm_compute. reflexivity.
  - left.
  - left.
  - vm_compute. reflexivity.
  - right. split; vm_compute; reflexivity.
Defined.

(** ** The description chunk of a processed record *)

Section DescriptionChunk.

Context (U : Unicode).

Lemma trimmed_last d :
  trimmed U d = true -> d <> [] ->
  exists d' x, d = d' ++ [x] /\ is_space U x = false.
Proof.
  unfold trimmed. intros [_ Hlast]%andb_true_iff Hne.
  apply negb_true_iff in Hlast.
  destruct (reverse d) as [|x r] eqn:Hrev.
  - apply (f_equal reverse) in Hrev. rewrite reverse_involutive in Hrev.
    by destruct Hne.
  - exists (reverse r), x. split; [|done].
    apply (f_equal reverse) in Hrev. rewrite reverse_involutive in Hrev.
    by rewrite Hrev, reverse_cons.
Qed.

Lemma rstrip_newline : rstrip U nl = [].
Proof. done. Qed.

(** Trimming the text of the description chunk only removes the final
    newline when the description is trimmed. *)
Lemma description_text_strip name d :
  trimmed U d = true -> d <> [] ->
  strip U (py "# " ++ name ++ py " - Description" ++ nl ++ nl ++ d ++ nl)
  = py "# " ++ name ++ py " - Description" ++ nl ++ nl ++ d.
Proof.
  intros Hd Hne. destruct (trimmed_last d Hd Hne) as (d' & x & -> & Hx).
  assert (E : py "# " ++ name ++ py " - Description" ++ nl ++ nl
                ++ (d' ++ [x]) ++ nl
              = 35%N :: (32%N :: name ++ [32%N]) ++ 45%N
                  :: (py " Description" ++ nl ++ nl ++ d') ++ x :: nl).
  { change (py "# ") with [35%N; 32%N].
    change (py " - Description") with ([32%N] ++ 45%N :: py " Description").
    repeat (progress (rewrite <- ?app_assoc; cbn [app])). reflexivity. }
  rewrite E, strip_keeps, (rstrip_nonspace U _ x nl Hx), rstrip_newline.
  change (py "# ") with [35%N; 32%N].
  change (py " - Description") with ([32%N] ++ 45%N :: py " Description").
  repeat (progress (rewrite <- ?app_assoc; cbn [app])). reflexivity.
Qed.

End DescriptionChunk.

(** X18: the description chunk of a processed record holds the description
    as it is: its content is the header line of the chunk, an empty line
    and the description, with nothing removed by the final trim. *)
Theorem description_chunk_verbatim (U : Unicode) raw info chunks c :
  process_character U raw = Some info ->
  create_smart_chunks U [info] = Some chunks ->
  c ∈ chunks ->
  chunk_type c = ct_description ->
  exists description,
    info !! "description" = Some (VStr description)
    /\ content c
       = py "# " ++ character c ++ py " - Description" ++ nl ++ nl ++ description.
Proof.
  intros Hinfo Hchunks Hin Htype.
  apply processed_lookup in Hinfo as (text & _ & ->).
  set (r := structured U raw) in *.
  exists (sc_description r). split.
  { rewrite lookup_insert_ne by done. unfold to_dict, with_birthday.
    by destruct (sc_birthday r). }
  unfold create_smart_chunks in Hchunks.
  cbn [mapM] in Hchunks.
  apply bind_Some in Hchunks as (css & Hcss & Hchunks).
  apply (inj Some) in Hchunks. subst chunks.
  apply bind_Some in Hcss as (cs & Hcs & Hcss).
  cbn [mbind option_bind mret option_ret] in Hcss.
  apply (inj Some) in Hcss. subst css. cbn [concat] in Hin.
  rewrite app_nil_r in Hin.
  unfold character_chunks in Hcs.
  apply bind_Some in Hcs as (name & Hname & Hcs).
  apply bind_Some in Hcs as (basic & Hbasic & Hcs).
  apply bind_Some in Hcs as (desc & Hdesc & Hcs).
  apply bind_Some in Hcs as (meta & Hmeta & Hcs).
  apply bind_Some in Hcs as (items & Hitems & Hcs).
  apply bind_Some in Hcs as (sections & Hsections & Hcs).
  apply (inj Some) in Hcs. subst cs.
  apply basic_chunk_type in Hbasic.
  apply meta_chunks_type in Hmeta.
  apply sections_chunks_type in Hsections.
  rewrite Forall_forall in Hmeta, Hsections.
  apply elem_of_cons in Hin as [->|Hin]; [congruence|].
  apply elem_of_app in Hin as [Hin|Hin];
    [|apply elem_of_app in Hin as [Hin|Hin];
      [apply Hmeta in Hin|apply Hsections in Hin]; congruence].
  unfold description_chunks in Hdesc.
  rewrite get_skip_full_text, get_description in Hdesc by done.
  cbn [truthy py_len mbind option_bind py_str] in Hdesc.
  destruct (sc_description r) as [|c0 d0] eqn:Hd.
  { apply (inj Some) in Hdesc. subst desc. by apply elem_of_nil in Hin. }
  rewrite <- Hd in *.
  destruct (Nat.ltb 50 (length (sc_description r)));
    apply (inj Some) in Hdesc; subst desc; [|by apply elem_of_nil in Hin].
  apply list_elem_of_singleton in Hin. subst c. cbn [content character].
  apply description_text_strip; [|by rewrite Hd].
  destruct (description_normal U
              (sc_name r) (default [] (raw_introduction raw))
              (default [] (raw_full_text raw)) (default [] (raw_sections raw))
              (default [] (raw_url raw))) as [_ Htrim].
  exact Htrim.
Qed.

Lemma description_chunk_verbatim_witness :
  exists info chunks c description,
    process_character ascii_only amber_raw = Some info
    /\ create_smart_chunks ascii_only [info] = Some chunks
    /\ c ∈ chunks
    /\ chunk_type c = ct_description
    /\ info !! "description" = Some (VStr description)
    /\ content c
       = py "# " ++ character c ++ py " - Description" ++ nl ++ nl ++ description.
Proof.
  destruct (process_character_returns ascii_only amber_raw) as (text & _ & Hinfo);
    [vm_compute; by eexists|].
  set (info := <["full_text" := VStr text]>
                 (to_dict (structured ascii_only amber_raw))) in *.
  assert (Hc : exists basic c,
            create_smart_chunks ascii_only [info] = Some [basic; c]
            /\ chunk_type c = ct_description).
  { subst info. vm_compute. eexists _, _. split; reflexivity. }
  destruct Hc as (basic & c & Hchunks & Htype).
  assert (Hin : c ∈ [basic; c]) by (right; left).
  destruct (description_chunk_verbatim ascii_only amber_raw info [basic; c] c
              Hinfo Hchunks Hin Htype) as (d & Hd & Hcontent).
  exists info, [basic; c], c, d. repeat split; assumption.
Defined.

(** ** The statistics *)

Section Statistics.

Context (U : Unicode).

Lemma total_count_up key : forall counts,
  total (count_up counts key) = total counts + 1.
Proof.
  unfold total. induction counts as [|[k n] counts IH]; [done|]. cbn [count_up].
  destruct (scalar_eqb k key); simpl; [lia|].
  simpl in IH. rewrite IH. lia.
Qed.

Lemma total_bump d key d' : bump d key = Some d' -> total d' = total d + 1.
Proof.
  unfold bump. destruct (hashable key); [|done].
  intros [= <-]. apply total_count_up.
Qed.

Lemma incr_if_le c n : n <= incr_if c n <= n + 1.
Proof. unfold incr_if. destruct c; lia. Qed.

(** What the loop adds to the counts. *)
Lemma stats_loop_totals : forall data stats stats',
  stats_loop stats data = Some stats' ->
  total_characters stats' = total_characters stats
  /\ total (by_element stats') = total (by_element stats) + length data
  /\ total (by_weapon stats') = total (by_weapon stats) + length data
  /\ total (by_region stats') = total (by_region stats) + length data
  /\ total (by_rarity stats') = total (by_rarity stats) + length data
  /\ total (by_role stats') = total (by_role stats) + length data
  /\ total (by_character_type stats')
     = total (by_character_type stats) + length data
  /\ missing_element (missing_fields stats')
     <= missing_element (missing_fields stats) + length data
  /\ missing_weapon (missing_fields stats')
     <= missing_weapon (missing_fields stats) + length data
  /\ missing_region (missing_fields stats')
     <= missing_region (missing_fields stats) + length data
  /\ missing_description (missing_fields stats')
     <= missing_description (missing_fields stats)
        + length (filter (fun char => has_long_description char = false) data)
  /\ missing_voice_actors (missing_fields stats')
     <= missing_voice_actors (missing_fields stats) + length data.
Proof.
  induction data as [|char data IH]; intros stats stats' H.
  - injection H as <-. cbn [length]. repeat split; lia.
  - cbn [stats_loop] in H. apply bind_Some in H as (mid & Hstep & H).
    destruct (IH _ _ H) as (H0 & H1 & H2 & H3 & H4 & H5 & H6 & H7 & H8 & H9
                            & H10 & H11).
    clear IH H. unfold stats_step in Hstep.
    apply bind_Some in Hstep as (e & He%total_bump & Hstep).
    apply bind_Some in Hstep as (w & Hw%total_bump & Hstep).
    apply bind_Some in Hstep as (r & Hr%total_bump & Hstep).
    apply bind_Some in Hstep as (q & Hq%total_bump & Hstep).
    apply bind_Some in Hstep as (o & Ho%total_bump & Hstep).
    apply bind_Some in Hstep as (t & Ht%total_bump & Hstep).
    cbv zeta in Hstep.
    apply bind_Some in Hstep as (nd & Hnd & Hstep).
    injection Hstep as <-.
    cbn [total_characters by_element by_weapon by_region by_rarity by_role
         by_character_type missing_fields missing_element missing_weapon
         missing_region missing_description missing_voice_actors] in *.
    assert (Hlong : has_long_description char = true -> nd = false).
    { unfold has_long_description. intros [Ht' Hl]%andb_true_iff.
      rewrite Ht' in Hnd. cbn [negb] in Hnd. unfold get_or in Hnd.
      unfold get in Hl, Ht'.
      destruct (char !! "description") as [v|]; simpl in Hnd, Hl, Ht'; [|done].
      destruct (py_len v) as [n|]; [|done].
      simpl in Hnd. injection Hnd as <-. apply Nat.ltb_lt in Hl. apply Nat.ltb_ge. lia. }
    rewrite filter_cons. cbn [length].
    pose proof (incr_if_le (negb (truthy (get char "element")))
                  (missing_element (missing_fields stats))).
    pose proof (incr_if_le (negb (truthy (get char "weapon")))
                  (missing_weapon (missing_fields stats))).
    pose proof (incr_if_le (negb (truthy (get char "region")))
                  (missing_region (missing_fields stats))).
    pose proof (incr_if_le nd (missing_description (missing_fields stats))).
    pose proof (incr_if_le (negb (truthy (get char "voice_actors")))
                  (missing_voice_actors (missing_fields stats))).
    repeat split; try lia.
    destruct (has_long_description char) eqn:Hld.
    + rewrite (Hlong eq_refl) in *. unfold incr_if in *.
      destruct (decide (true = false)); [done|]. lia.
    + destruct (decide (false = false)); [|done]. cbn [length]. lia.
Qed.

End Statistics.

(** X19: when [generate_stats] returns, the total is the number of records,
    each of the six dicts of counts adds up to it, and no count of missing
    fields exceeds it. *)
Theorem stats_totals data stats :
  generate_stats data = Some stats ->
  total_characters stats = length data
  /\ total (by_element stats) = length data
  /\ total (by_weapon stats) = length data
  /\ total (by_region stats) = length data
  /\ total (by_rarity stats) = length data
  /\ total (by_role stats) = length data
  /\ total (by_character_type stats) = length data
  /\ missing_element (missing_fields stats) <= length data
  /\ missing_weapon (missing_fields stats) <= length data
  /\ missing_region (missing_fields stats) <= length data
  /\ missing_description (missing_fields stats) <= length data
  /\ missing_voice_actors (missing_fields stats) <= length data.
Proof.
  unfold generate_stats. intros H.
  apply stats_loop_totals in H
    as (H0 & H1 & H2 & H3 & H4 & H5 & H6 & H7 & H8 & H9 & H10 & H11).
  cbn [total_characters by_element by_weapon by_region by_rarity by_role
       by_character_type missing_fields missing_element missing_weapon
       missing_region missing_description missing_voice_actors] in *.
  pose proof (length_filter (fun char => has_long_description char = false) data).
  unfold total in *. simpl in *.
  repeat split; lia.
Qed.

Lemma stats_totals_witness :
  exists stats,
    generate_stats [short_description_record] = Some stats
    /\ total (by_element stats) = 1.
Proof.
  eexists. split; [vm_compute; reflexivity|].
  refine (proj1 (proj2 (stats_totals [short_description_record] _ _))).
  vm_compute. reflexivity.
Defined.

(** X20: a record counts as a description chunk or as a missing
    description, never as both: the description chunks and the missing
    descriptions together are at most the records. *)
Theorem description_chunk_or_missing (U : Unicode) data chunks stats :
  create_smart_chunks U data = Some chunks ->
  generate_stats data = Some stats ->
  count_type ct_description chunks + missing_description (missing_fields stats)
  <= length data.
Proof.
  intros Hchunks Hstats.
  destruct (create_smart_chunks_counts U data chunks Hchunks) as [_ ->].
  unfold generate_stats in Hstats.
  apply stats_loop_totals in Hstats
    as (_ & _ & _ & _ & _ & _ & _ & _ & _ & _ & Hmissing & _).
  cbn [missing_fields missing_description] in Hmissing.
  assert (Hsplit : forall l : list (gmap string pyval),
            length (filter (fun char => has_long_description char = true) l)
            + length (filter (fun char => has_long_description char = false) l)
            = length l).
  { induction l as [|c l IH]; [done|]. rewrite !filter_cons.
    destruct (has_long_description c);
      repeat match goal with
             | |- context [decide ?P] => destruct (decide P); try done
             end; cbn [length]; lia. }
  specialize (Hsplit data). lia.
Qed.

Lemma description_chunk_or_missing_witness :
  exists chunks stats,
    create_smart_chunks ascii_only [short_description_record] = Some chunks
    /\ generate_stats [short_description_record] = Some stats
    /\ count_type ct_description chunks
       + missing_description (missing_fields stats) <= 1.
Proof.
  eexists _, _. split; [vm_compute; reflexivity|].
  split; [vm_compute; reflexivity|].
  refine (description_chunk_or_missing ascii_only [short_description_record]
            _ _ _ _); vm_compute; reflexivity.
Defined.

(** ** The batch driver on the records of the crawler *)

Section Batch.

Context (U : Unicode).

Lemma process_all_map : forall raw_data,
  Forall (fun raw => is_Some (process_character U raw)) raw_data ->
  map Some (process_all U raw_data) = map (process_character U) raw_data.
Proof.
  unfold process_all. induction raw_data as [|raw raw_data IH]; [done|].
  intros Hall. apply Forall_cons in Hall as [[info Hraw] Hall].
  cbn [omap list_omap map]. rewrite Hraw. cbn [map]. by rewrite <- IH.
Qed.

Lemma process_all_length raw_data :
  length (process_all U raw_data) <= length raw_data.
Proof.
  unfold process_all. induction raw_data as [|raw raw_data IH]; [done|].
  cbn [omap list_omap]. destruct (process_character U raw); simpl; lia.
Qed.

Lemma process_all_from raw_data :
  Forall (fun info => exists raw,
            raw ∈ raw_data /\ process_character U raw = Some info)
         (process_all U raw_data).
Proof.
  unfold process_all. induction raw_data as [|raw raw_data IH]; [done|].
  cbn [omap list_omap].
  assert (Hrest : Forall (fun info => exists raw0,
                            raw0 ∈ raw :: raw_data
                            /\ process_character U raw0 = Some info)
                         (omap (process_character U) raw_data)).
  { eapply Forall_impl; [exact IH|]. intros info (raw0 & Hin & Hraw0).
    exists raw0. split; [by right|done]. }
  destruct (process_character U raw) as [info|] eqn:Hraw; [|done].
  constructor; [|done]. exists raw. split; [by left|done].
Qed.

Lemma process_all_processed raw_data :
  Forall (fun info => exists raw, process_character U raw = Some info)
         (process_all U raw_data).
Proof.
  eapply Forall_impl; [apply process_all_from|].
  intros info (raw & _ & Hraw). by exists raw.
Qed.

Lemma fitting_records_return raw_data :
  Forall (fun raw => fits_int_limit U
                       (length (default [] (raw_introduction raw)))) raw_data ->
  Forall (fun raw => is_Some (process_character U raw)) raw_data.
Proof.
  intros Hall. eapply Forall_impl; [exact Hall|]. intros raw Hfit.
  cbn beta in Hfit.
  destruct (process_character_returns U raw) as (text & _ & ->); [|done].
  by apply extract_event_wishes_returns.
Qed.

Lemma processed_chunks data :
  Forall (fun info => exists raw, process_character U raw = Some info) data ->
  is_Some (create_smart_chunks U data).
Proof.
  intros Hdata. unfold create_smart_chunks.
  apply bind_total; [|done].
  apply mapM_is_Some. eapply Forall_impl; [exact Hdata|].
  intros info (raw & Hraw). unfold compose.
  apply processed_lookup in Hraw as (text & _ & ->).
  destruct (character_chunks_processed U (structured U raw) text)
    as (basic & rest & _ & Hchunks).
  by rewrite Hchunks.
Qed.

End Batch.



(** ** The statistics of processed records *)

Section ProcessedStatistics.

Context (U : Unicode).

Lemma scalar_eqb_simple a b :
  none_or_str a -> none_or_str b -> scalar_eqb a b = true <-> a = b.
Proof.
  intros [->|[s ->]] [->|[t ->]]; cbn [scalar_eqb]; try done.
  unfold str_eqb. rewrite bool_decide_eq_true. split; congruence.
Qed.

Lemma scalar_eqb_sym a b :
  none_or_str a -> none_or_str b -> scalar_eqb a b = scalar_eqb b a.
Proof.
  intros [->|[s ->]] [->|[t ->]]; cbn [scalar_eqb]; try done.
  unfold str_eqb. apply bool_decide_ext. split; congruence.
Qed.

Lemma count_get_count_up k key : forall counts,
  none_or_str k -> none_or_str key -> Forall none_or_str (map fst counts) ->
  count_get k (count_up counts key)
  = count_get k counts + (if scalar_eqb key k then 1 else 0).
Proof.
  intros counts Hk Hkey. unfold count_get.
  induction counts as [|[k0 n] counts IH]; intros Hd.
  - cbn [count_up find fst]. by destruct (scalar_eqb key k).
  - apply Forall_cons in Hd as [Hk0 Hd]. cbn [fst] in Hk0.
    cbn [count_up]. destruct (scalar_eqb k0 key) eqn:Hk0key.
    + apply (scalar_eqb_simple _ _ Hk0 Hkey) in Hk0key as ->.
      cbn [find fst]. destruct (scalar_eqb key k); simpl; lia.
    + cbn [find fst]. destruct (scalar_eqb k0 k) eqn:Hk0k.
      * apply (scalar_eqb_simple _ _ Hk0 Hk) in Hk0k as ->.
        rewrite (scalar_eqb_sym key k Hkey Hk), Hk0key. simpl. lia.
      * by apply IH.
Qed.

Lemma count_up_keys key : forall counts,
  none_or_str key -> Forall none_or_str (map fst counts) ->
  Forall none_or_str (map fst (count_up counts key)).
Proof.
  intros counts Hkey. induction counts as [|[k0 n] counts IH]; intros Hd.
  - by constructor.
  - apply Forall_cons in Hd as [Hk0 Hd]. cbn [count_up].
    destruct (scalar_eqb k0 key); constructor; auto.
Qed.

(** One more record whose value for the field is [None] or one of the
    names of the extractor. *)
Lemma none_counted_step options d missing v :
  Forall (fun o => o <> [] /\ o <> py "Unknown") options ->
  none_or_in options v ->
  Forall none_or_str (map fst d) ->
  none_counted d missing ->
  exists d',
    bump d v = Some d'
    /\ Forall none_or_str (map fst d')
    /\ none_counted d' (incr_if (negb (truthy v)) missing).
Proof.
  intros Hoptions Hv Hd [Hnone Hunknown].
  assert (Hstr : none_or_str v).
  { destruct Hv as [->|(o & _ & ->)]; [by left|right; by exists o]. }
  exists (count_up d v). unfold bump.
  assert (hashable v = true) as -> by by destruct Hstr as [->|[s ->]].
  split; [done|]. split; [by apply count_up_keys|].
  unfold none_counted.
  rewrite (count_get_count_up VNone v d) by first [by left|assumption].
  rewrite (count_get_count_up (VStr (py "Unknown")) v d)
    by first [assumption|right; by eexists].
  rewrite Hnone, Hunknown.
  destruct Hv as [->|(o & Ho & ->)]; [done|].
  rewrite Forall_forall in Hoptions. destruct (Hoptions o Ho) as [Hne Hunk].
  cbn [scalar_eqb]. unfold str_eqb.
  rewrite bool_decide_eq_false_2 by done.
  destruct o; [done|]. cbn [truthy negb incr_if]. split; lia.
Qed.

Lemma bump_str d s : is_Some (bump d (VStr s)).
Proof. by eexists. Qed.

Ltac dict_lookup r :=
  unfold get, get_or, to_dict, with_birthday; destruct (sc_birthday r);
  reflexivity.

Lemma get_or_character_type r dflt :
  get_or (to_dict r) "character_type" dflt = VStr (sc_character_type r).
Proof. dict_lookup r. Qed.

Lemma get_or_description r dflt :
  get_or (to_dict r) "description" dflt = VStr (sc_description r).
Proof. dict_lookup r. Qed.

Lemma options_named :
  Forall (fun o => o <> [] /\ o <> py "Unknown") elements
  /\ Forall (fun o => o <> [] /\ o <> py "Unknown") weapons
  /\ Forall (fun o => o <> [] /\ o <> py "Unknown") regions.
Proof. repeat split; repeat constructor; done. Qed.

Lemma stats_step_processed stats raw info :
  process_character U raw = Some info ->
  Forall none_or_str (map fst (by_element stats)) ->
  Forall none_or_str (map fst (by_weapon stats)) ->
  Forall none_or_str (map fst (by_region stats)) ->
  none_counted (by_element stats) (missing_element (missing_fields stats)) ->
  none_counted (by_weapon stats) (missing_weapon (missing_fields stats)) ->
  none_counted (by_region stats) (missing_region (missing_fields stats)) ->
  exists stats',
    stats_step stats info = Some stats'
    /\ Forall none_or_str (map fst (by_element stats'))
    /\ Forall none_or_str (map fst (by_weapon stats'))
    /\ Forall none_or_str (map fst (by_region stats'))
    /\ none_counted (by_element stats') (missing_element (missing_fields stats'))
    /\ none_counted (by_weapon stats') (missing_weapon (missing_fields stats'))
    /\ none_counted (by_region stats') (missing_region (missing_fields stats')).
Proof.
  intros Hinfo Hke Hkw Hkr He Hw Hr.
  apply processed_lookup in Hinfo as (text & _ & ->).
  set (r := structured U raw).
  destruct options_named as (Hoe & How & Hor).
  destruct (none_counted_step elements _ _ (opt_str (sc_element r)) Hoe
              (_extract_field_in U _ _) Hke He) as (e & Hbe & Hke' & He').
  destruct (none_counted_step weapons _ _ (opt_str (sc_weapon r)) How
              (_extract_field_in U _ _) Hkw Hw) as (w & Hbw & Hkw' & Hw').
  destruct (none_counted_step regions _ _ (opt_str (sc_region r)) Hor
              (_extract_field_in U _ _) Hkr Hr) as (g & Hbg & Hkr' & Hr').
  unfold stats_step.
  rewrite !get_or_skip_full_text, !get_skip_full_text by done.
  rewrite get_or_element, get_or_weapon, get_or_region, get_or_rarity,
    get_or_role_summary, get_or_character_type, get_or_description,
    get_element, get_weapon, get_region, get_description.
  fold r. rewrite Hbe, Hbw, Hbg. cbn [mbind option_bind bump hashable py_len].
  destruct (negb (truthy (VStr (sc_description r))));
    cbn [mbind option_bind]; eexists; (split; [reflexivity|]);
    cbn [by_element by_weapon by_region missing_fields missing_element
         missing_weapon missing_region]; done.
Qed.

Lemma stats_loop_processed : forall data stats,
  Forall (fun info => exists raw, process_character U raw = Some info) data ->
  Forall none_or_str (map fst (by_element stats)) ->
  Forall none_or_str (map fst (by_weapon stats)) ->
  Forall none_or_str (map fst (by_region stats)) ->
  none_counted (by_element stats) (missing_element (missing_fields stats)) ->
  none_counted (by_weapon stats) (missing_weapon (missing_fields stats)) ->
  none_counted (by_region stats) (missing_region (missing_fields stats)) ->
  exists stats',
    stats_loop stats data = Some stats'
    /\ none_counted (by_element stats') (missing_element (missing_fields stats'))
    /\ none_counted (by_weapon stats') (missing_weapon (missing_fields stats'))
    /\ none_counted (by_region stats') (missing_region (missing_fields stats')).
Proof.
  induction data as [|info data IH]; intros stats Hdata Hke Hkw Hkr He Hw Hr.
  - by exists stats.
  - apply Forall_cons in Hdata as [(raw & Hraw) Hdata].
    destruct (stats_step_processed stats raw info Hraw Hke Hkw Hkr He Hw Hr)
      as (mid & Hstep & Hke' & Hkw' & Hkr' & He' & Hw' & Hr').
    destruct (IH mid Hdata Hke' Hkw' Hkr' He' Hw' Hr') as (stats' & Hloop & Hall).
    exists stats'. cbn [stats_loop]. rewrite Hstep. by split.
Qed.

End ProcessedStatistics.


(** ** Sentences *)

Section Sentences.

Context (U : Unicode).

Lemma split_from_head icase r : forall s p cur,
  exists a post rest,
    split_from U icase r s 0 p cur = (reverse cur ++ a) :: rest
    /\ s = a ++ post.
Proof.
  induction s as [|c s IH]; intros p cur.
  - exists [], [], []. by rewrite app_nil_r.
  - cbn [split_from].
    assert (Hgo : exists a post rest,
              split_from U icase r s 0 (Some c) (c :: cur)
              = (reverse cur ++ a) :: rest /\ c :: s = a ++ post).
    { destruct (IH (Some c) (c :: cur)) as (a & post & rest & Heq & ->).
      exists (c :: a), post, rest. split; [|done].
      rewrite Heq, reverse_cons, <- app_assoc. done. }
    destruct (match_here U icase r p (c :: s)) as [[[p' s'] g]|]; [|done].
    destruct (length (c :: s) - length s'); [done|].
    exists [], (c :: s), (split_from U icase r s n (Some c) []).
    by rewrite app_nil_r.
Qed.

Lemma length_strip s : length (strip U s) <= length s.
Proof.
  unfold strip, lstrip.
  destruct (rstrip_prefix U (skip_spaces U s)) as [b Hb].
  destruct (skip_spaces_suffix U s) as [a Ha].
  rewrite Ha at 2. rewrite Hb at 2. rewrite !length_app. lia.
Qed.

End Sentences.

(** X23: splitting into sentences always gives at least one sentence, and
    the first one starts the text; the fallback of
    [extract_clean_description] for an empty list of sentences is never
    used. *)
Theorem split_sentences_nonempty (U : Unicode) (text : str) :
  exists first rest after,
    split_sentences U text = first :: rest /\ text = first ++ after.
Proof.
  unfold split_sentences, re_split.
  destruct (split_from_head U false re_sentence_end text None [])
    as (a & post & rest & Heq & Htext).
  exists a, rest, post. by split.
Qed.

(** X24: [_extract_marker_lore] returns at most nine sentences, each of 40
    to 400 characters and trimmed; [_extract_role_reveal_lore] returns at
    most as many sentences as it is given, each trimmed and of at most 300
    characters. *)
Theorem lore_sentences_bounded (U : Unicode) (text name : str)
    (sentences : list str) :
  length (_extract_marker_lore U text name) <= 9
  /\ Forall (fun s => 40 <= length s <= 400 /\ trimmed U s = true)
            (_extract_marker_lore U text name)
  /\ length (_extract_role_reveal_lore U sentences) <= length sentences
  /\ Forall (fun s => length s <= 300 /\ trimmed U s = true)
            (_extract_role_reveal_lore U sentences).
Proof.
  assert (Hmarker : forall marker,
            let found :=
              match re_search U true marker text with
              | Some m =>
                  filter (fun s => Is_true (len_between 40 400 s))
                    (map (strip U) (take 3 (split_sentences U (take 800 (f_after m)))))
              | None => []
              end in
            length found <= 3
            /\ Forall (fun s => 40 <= length s <= 400 /\ trimmed U s = true)
                      found).
  { intros marker. cbv zeta.
    destruct (re_search U true marker text) as [m|]; [|split; [simpl; lia|done]].
    split.
    - etransitivity; [apply length_filter|].
      rewrite length_map, length_take. lia.
    - apply Forall_forall. intros s [Hlen Hin]%list_elem_of_filter.
      apply list_elem_of_fmap in Hin as (s' & -> & _).
      apply Is_true_true in Hlen. unfold len_between in Hlen.
      apply andb_true_iff in Hlen as [Hlo Hhi].
      apply Nat.leb_le in Hlo, Hhi. split; [lia|apply strip_trimmed]. }
  repeat split.
  - unfold _extract_marker_lore, MARKERS. cbn [flat_map].
    rewrite app_nil_r, !length_app.
    pose proof (proj1 (Hmarker (cat [L "Playable Characters"; Star sp; Lit name]))).
    pose proof (proj1 (Hmarker (cat [L "Playable Characters"; LazyStar (Chr CAny);
                                     Lit name]))).
    pose proof (proj1 (Hmarker (cat [Lit name; Plus sp; L "is"; Plus sp; L "a";
                                     Plus sp; L "playable"]))).
    cbv zeta in *. lia.
  - unfold _extract_marker_lore, MARKERS. cbn [flat_map]. rewrite app_nil_r.
    repeat (apply Forall_app; split); apply Hmarker.
  - unfold _extract_role_reveal_lore.
    induction sentences as [|s sentences IH]; [done|]. cbn [flat_map].
    rewrite length_app. cbn [length].
    destruct (existsb _ _); [|cbn [length]; lia].
    destruct (len_between 40 300 s); cbn [length]; lia.
  - unfold _extract_role_reveal_lore.
    induction sentences as [|s sentences IH]; [done|]. cbn [flat_map].
    apply Forall_app. split; [|done].
    destruct (existsb _ _); [|done].
    destruct (len_between 40 300 s) eqn:Hlen; [|done].
    constructor; [|done]. split; [|apply strip_trimmed].
    unfold len_between in Hlen. apply andb_true_iff in Hlen as [_ Hhi].
    apply Nat.leb_le in Hhi. pose proof (length_strip U s). lia.
Qed.

(** ** The cleaned sections *)

Section CleanSections.

Context (U : Unicode).

Lemma section_get_dict_set name key value : forall dict,
  section_get name (dict_set dict key value)
  = if str_eqb key name then Some value else section_get name dict.
Proof.
  unfold section_get. induction dict as [|[k v] dict IH].
  - cbn [dict_set find fst]. by destruct (str_eqb key name).
  - cbn [dict_set]. destruct (str_eqb k key) eqn:Hk.
    + apply bool_decide_eq_true in Hk as ->. cbn [find fst].
      by destruct (str_eqb key name).
    + cbn [find fst]. destruct (str_eqb k name) eqn:Hkn; [|exact IH].
      apply bool_decide_eq_true in Hkn as ->.
      destruct (str_eqb key name) eqn:Hkey; [|done].
      apply bool_decide_eq_true in Hkey as ->.
      unfold str_eqb in Hk. by rewrite bool_decide_eq_true_2 in Hk.
Qed.

Lemma section_get_snoc name k v : forall dict,
  section_get name (dict ++ [(k, v)])
  = match section_get name dict with
    | Some x => Some x
    | None => if str_eqb k name then Some v else None
    end.
Proof.
  unfold section_get. induction dict as [|[k0 v0] dict IH].
  - cbn [app find fst]. by destruct (str_eqb k name).
  - cbn [app find fst]. by destruct (str_eqb k0 name).
Qed.

Lemma dict_set_keys key value : forall dict,
  NoDup (map fst dict) ->
  NoDup (map fst (dict_set dict key value))
  /\ (forall k, k ∈ map fst (dict_set dict key value) ->
        k = key \/ k ∈ map fst dict)
  /\ length (dict_set dict key value) <= S (length dict).
Proof.
  induction dict as [|[k v] dict IH]; intros Hd.
  - cbn [dict_set map fst length]. repeat split; [|intros k Hk|lia].
    + apply NoDup_singleton.
    + left. by apply list_elem_of_singleton in Hk.
  - apply NoDup_cons in Hd as [Hk Hd]. cbn [dict_set].
    destruct (str_eqb k key) eqn:Hkey.
    + cbn [map fst length]. repeat split; [|by right|lia].
      by apply NoDup_cons.
    + destruct (IH Hd) as (Hnd & Hin & Hlen).
      cbn [map fst length]. repeat split; [| |lia].
      * apply NoDup_cons. split; [|done]. intros Hk'.
        destruct (Hin _ Hk') as [->|?]; [|done].
        unfold str_eqb in Hkey. by rewrite bool_decide_eq_true_2 in Hkey.
      * intros k' [->|Hk']%elem_of_cons; [right; left|].
        destruct (Hin _ Hk') as [->|?]; [by left|right; by right].
Qed.

Lemma clean_sections_fold : forall sections acc,
  NoDup (map fst acc) ->
  let result :=
    fold_left
      (fun acc kv =>
         if nonempty (snd kv) && Nat.ltb 20 (length (snd kv))
         then dict_set acc (_clean_section_name U (fst kv)) (clean_text U (snd kv))
         else acc)
      sections acc in
  NoDup (map fst result)
  /\ length result
     <= length acc + length (filter (fun kv => kept_section kv = true) sections)
  /\ forall name,
       section_get name result
       = match section_get name (reverse (cleaned_sections U sections)) with
         | Some x => Some x
         | None => section_get name acc
         end.
Proof.
  induction sections as [|kv sections IH]; intros acc Hacc; cbv zeta.
  - cbn [fold_left]. repeat split; first [done | simpl; lia].
  - cbn [fold_left]. unfold cleaned_sections.
    destruct (nonempty (snd kv) && Nat.ltb 20 (length (snd kv))) eqn:Hkept.
    + rewrite filter_cons_True by exact Hkept.
      destruct (dict_set_keys (_clean_section_name U (fst kv))
                  (clean_text U (snd kv)) acc Hacc) as (Hnd & _ & Hlen).
      destruct (IH _ Hnd) as (IH1 & IH2 & IH3). cbv zeta in *.
      repeat split; [done|cbn [length]; lia|]. intros name.
      rewrite IH3, section_get_dict_set. cbn [map]. rewrite reverse_cons.
      rewrite section_get_snoc. fold (cleaned_sections U sections).
      destruct (section_get name (reverse (cleaned_sections U sections)));
        [done|].
      by destruct (str_eqb (_clean_section_name U (fst kv)) name).
    + rewrite filter_cons_False
        by (unfold kept_section; rewrite Hkept; discriminate).
      destruct (IH _ Hacc) as (IH1 & IH2 & IH3). done.
Qed.

End CleanSections.

(** X25: the cleaned sections have distinct names and are at most as many
    as the raw sections longer than 20; when two kept sections get the
    same cleaned name, the text of the later one replaces the text of the
    earlier one. *)
Theorem clean_sections_last_wins (U : Unicode) (sections : list (str * str)) :
  NoDup (map fst (clean_sections U sections))
  /\ length (clean_sections U sections)
     <= length (filter (fun kv => kept_section kv = true) sections)
  /\ forall name,
       section_get name (clean_sections U sections)
       = section_get name (reverse (cleaned_sections U sections)).
Proof.
  destruct (clean_sections_fold U sections [] (NoDup_nil_2 (A:=str))) as (H1 & H2 & H3).
  cbv zeta in *. repeat split; [done|done|].
  intros name. unfold clean_sections. rewrite H3.
  by destruct (section_get name (reverse (cleaned_sections U sections))).
Qed.

(** ** The rendered text *)

Section RagText.

Context (U : Unicode).

Lemma bind_ext {A B} (m : option A) (f g : A -> option B) :
  (forall x, f x = g x) -> m ≫= f = m ≫= g.
Proof. intros H. destruct m; [apply H|done]. Qed.

Lemma mapM_skip {A} (f : A -> option (list str)) (g : list str -> str) x :
  f x = Some [] ->
  forall l1 l2 (h : list str -> list str),
    (mapM f (l1 ++ x :: l2) ≫= fun s => Some (g (h (concat s))))
    = (mapM f (l1 ++ l2) ≫= fun s => Some (g (h (concat s)))).
Proof.
  intros Hx. induction l1 as [|a l1 IH]; intros l2 h.
  - cbn [app mapM]. rewrite Hx. cbn [mbind option_bind].
    destruct (mapM f l2); done.
  - cbn [app mapM]. destruct (f a) as [y|]; [|done]. cbn [mbind option_bind].
    specialize (IH l2 (fun c => h (y ++ c))). cbv beta in IH.
    destruct (mapM f (l1 ++ x :: l2)), (mapM f (l1 ++ l2));
      simpl in *; congruence.
Qed.

Lemma section_lines_skipped k v :
  skipped_section k v = true -> section_lines U (k, VStr v) = Some [].
Proof.
  unfold skipped_section, section_lines. intros H.
  destruct (existsb _ skip_sections); [done|]. cbn [orb negb] in *.
  destruct v as [|c v]; [done|]. cbn [truthy py_len mbind option_bind].
  apply Nat.leb_le in H.
  by rewrite (proj2 (Nat.ltb_ge 30 (length (c :: v))) H).
Qed.

End RagText.

(** X26: a section whose name contains one of the skipped words
    ('Ascensions', 'Stats', 'Wishes', 'Bargains', 'Gallery', 'Trivia') or
    whose text has at most 30 characters leaves no trace in the rendered
    text: the rendering is the same without it. *)
Theorem rag_text_skips_sections (U : Unicode) (info : gmap string pyval)
    (before after : list (str * str)) (k v : str) :
  skipped_section k v = true ->
  _create_rag_text U (<["sections" := VDict (before ++ (k, v) :: after)]> info)
  = _create_rag_text U (<["sections" := VDict (before ++ after)]> info).
Proof.
  intros Hskip. unfold _create_rag_text. cbn [rag_fields flat_map].
  unfold get, get_or. rewrite !lookup_insert_eq.
  rewrite !lookup_insert_ne by done. cbn [default from_option].
  unfold Datatypes.id.
  do 5 (apply bind_ext; intros ?).
  cbn [py_items mbind option_bind]. rewrite !map_app. cbn [map fst snd].
  apply (mapM_skip (section_lines U) (join nl) _
           (section_lines_skipped U k v Hskip) _ _ (fun c => _ ++ c)).
Qed.

Lemma rag_text_skips_sections_witness :
  _create_rag_text ascii_only
    (record_with_gallery [(py "Gallery", py "A long list of pictures that the wiki shows.")])
  = _create_rag_text ascii_only (record_with_gallery []).
Proof.
  apply (rag_text_skips_sections ascii_only
           (<["name" := VStr (py "Amber")]> ∅)
           [(py "Story",
             py "A long story about the outrider of the Knights of Favonius.")]
           [(py "Personality",
             py "Cheerful, honest and always eager to help everyone.")]
           (py "Gallery") (py "A long list of pictures that the wiki shows.")).
  vm_compute. reflexivity.
Defined.

(** ** The header of the rendered text *)

Lemma join_header sep (h x : str) more :
  starts_with (h ++ sep) (join sep (h :: x :: more)) = true.
Proof.
  change (join sep (h :: x :: more)) with (h ++ sep ++ join sep (x :: more)).
  rewrite app_assoc. apply starts_with_refl.
Qed.

Lemma headed_app (h : str) (l l' : list str) :
  (exists x more, l = h :: x :: more) ->
  exists x more, l ++ l' = h :: x :: more.
Proof. intros (x & more & ->). by exists x, (more ++ l'). Qed.

Lemma headed_start (h last : str) (a b : list str) :
  exists x more, (([h] ++ a) ++ b) ++ [last] = h :: x :: more.
Proof. destruct a, b; cbn [app]; by eexists _, _. Qed.

(** X27: the rendered text of a record starts with the line '# ' followed
    by the name, and a record without the key 'name' is not rendered (the
    source raises KeyError). *)
Theorem rag_text_header (U : Unicode) (info : gmap string pyval) :
  (info !! "name" = None -> _create_rag_text U info = None)
  /\ forall text,
       _create_rag_text U info = Some text ->
       exists name,
         info !! "name" = Some name
         /\ starts_with (py "# " ++ py_str U name ++ nl) text = true.
Proof.
  split.
  - intros Hname. unfold _create_rag_text. by rewrite Hname.
  - intros text H. unfold _create_rag_text in H.
    apply bind_Some in H as (name & Hname & H). exists name. split; [done|].
    cbv zeta in H.
    apply bind_Some in H as (affiliations & _ & H).
    apply bind_Some in H as (obtain & _ & H).
    apply bind_Some in H as (actors & _ & H).
    apply bind_Some in H as (about & _ & H).
    apply bind_Some in H as (items & _ & H).
    apply bind_Some in H as (sections & _ & H).
    apply (inj Some) in H. rewrite <- H. clear H.
    match goal with
    | |- starts_with _ (join nl ?parts) = true =>
        assert (Hshape : exists x more,
                  parts = (py "# " ++ py_str U name) :: x :: more)
    end.
    { do 12 apply headed_app. apply headed_start. }
    destruct Hshape as (x & more & ->).
    rewrite app_assoc. apply join_header.
Qed.

Lemma rag_text_header_witness :
  _create_rag_text ascii_only (<["url" := VStr (py "https://wiki/Amber")]> ∅)
  = None.
Proof.
  apply (proj1 (rag_text_header ascii_only
                  (<["url" := VStr (py "https://wiki/Amber")]> ∅))).
  reflexivity.
Defined.

(** ** Scores and the empty introduction *)

Lemma count_in_bounds kws s : (0 <= count_in kws s <= Z.of_nat (length kws))%Z.
Proof.
  unfold count_in.
  pose proof (length_filter (fun kw => Is_true (contains kw s)) kws). lia.
Qed.

(** X28: the score of a sentence lies between -40 and 38, and a sentence
    that mentions the name and has none of the noise words scores at least
    4, the score that makes it eligible for the description. *)
Theorem score_of_named_sentence (U : Unicode) (sentence name : str) :
  (-40 <= _score_sentence U sentence name <= 38)%Z
  /\ (contains (lower U name) (lower U sentence) = true ->
      count_in NOISE (lower U sentence) = 0%Z ->
      (4 <= _score_sentence U sentence name)%Z).
Proof.
  unfold _score_sentence. cbv zeta.
  pose proof (count_in_bounds IDENTITY_KEYWORDS (lower U sentence)) as Hid.
  pose proof (count_in_bounds NOISE (lower U sentence)) as Hnoise.
  change (length IDENTITY_KEYWORDS) with 14 in Hid.
  change (length NOISE) with 10 in Hnoise.
  split.
  - destruct (matched (re_match U false re_article _)),
      (matched (re_search U false re_pronoun_is _)),
      (contains (lower U name) _); lia.
  - intros -> Hzero. rewrite Hzero.
    destruct (matched (re_match U false re_article _)),
      (matched (re_search U false re_pronoun_is _)); lia.
Qed.

Lemma score_of_named_sentence_witness :
  (4 <= _score_sentence ascii_only
          (py "Amber patrols the plains outside the city every day.")
          (py "Amber"))%Z.
Proof.
  apply (proj2 (score_of_named_sentence ascii_only
                  (py "Amber patrols the plains outside the city every day.")
                  (py "Amber")));
    vm_compute; reflexivity.
Defined.

(** X29: with an empty introduction and no official introduction among the
    sections, the description is empty, unless the name or the url marks a
    system character. *)
Theorem empty_introduction_empty_description (U : Unicode)
    (name full_text url : str) (sections : list (str * str)) :
  _is_system_character U name url [] = false ->
  _extract_official_intro U sections = None ->
  extract_clean_description U name [] full_text sections url = [].
Proof.
  intros Hsys Hofficial. unfold extract_clean_description.
  rewrite Hsys, Hofficial. clear Hsys Hofficial.
  destruct name as [|c name]; vm_compute; reflexivity.
Qed.

Lemma empty_introduction_empty_description_witness :
  extract_clean_description ascii_only (py "Amber") [] []
    [(py "Story", py "short")] (py "https://wiki/Amber")
  = [].
Proof.
  apply (empty_introduction_empty_description ascii_only);
    vm_compute; reflexivity.
Defined.

(** ** Section names *)

Section SectionNames.

Context (U : Unicode).

Local Abbreviation bracket_pattern r :=
  (r = re_empty_brackets \/ r = re_bracketed).

Lemma no_bracket_no_match r p s :
  bracket_pattern r -> head s <> Some 91%N -> match_here U false r p s = None.
Proof.
  intros [->| ->] Hs; unfold match_here; cbn [rx cat re_empty_brackets
    re_bracketed L];
    (destruct s as [|c s]; [done|]);
    change (py "[]") with [91%N; 93%N]; change (py "[") with [91%N];
    cbn [lit_match char_eq];
    (destruct (N.eqb c 91) eqn:Hc; [|done]);
    apply N.eqb_eq in Hc as ->; by destruct Hs.
Qed.

(** A substitution changes nothing where the pattern matches nowhere. *)
Lemma sub_from_id r tm : forall s p,
  (forall pre t p', s = pre ++ t -> match_here U false r p' t = None) ->
  sub_from U false r tm s 0 p = s.
Proof.
  induction s as [|c s IH]; intros p Hs; cbn [sub_from].
  - by rewrite (Hs [] [] p eq_refl).
  - rewrite (Hs [] (c :: s) p eq_refl). f_equal. apply IH.
    intros pre t p' ->. by apply (Hs (c :: pre) t p').
Qed.

(** A substitution first copies a prefix in which the pattern matches
    nowhere. *)
Lemma sub_from_prefix r tm t : forall pre p,
  (forall pre1 pre2 p', pre = pre1 ++ pre2 -> pre2 <> [] ->
     match_here U false r p' (pre2 ++ t) = None) ->
  exists p', sub_from U false r tm (pre ++ t) 0 p
             = pre ++ sub_from U false r tm t 0 p'.
Proof.
  induction pre as [|c pre IH]; intros p Hpre.
  - by exists p.
  - assert (H0 : match_here U false r p (c :: pre ++ t) = None).
    { by apply (Hpre [] (c :: pre) p). }
    cbn [app sub_from]. rewrite H0.
    destruct (IH (Some c)) as [p' Hp'].
    { intros pre1 pre2 p' -> Hne. by apply (Hpre (c :: pre1) pre2 p'). }
    exists p'. by rewrite Hp'.
Qed.

Lemma sub_from_skip_all r tm : forall t p,
  (forall p', match_here U false r p' [] = None) ->
  sub_from U false r tm t (length t) p = [].
Proof.
  intros t p Hend. revert p.
  induction t as [|c t IH]; intros p; cbn [length sub_from]; [|apply IH].
  by rewrite Hend.
Qed.

Lemma no_bracket_in_prefix r name t pre1 pre2 p :
  bracket_pattern r -> 91%N ∉ name -> name = pre1 ++ pre2 -> pre2 <> [] ->
  match_here U false r p (pre2 ++ t) = None.
Proof.
  intros Hr Hname -> Hne. apply no_bracket_no_match; [done|].
  destruct pre2 as [|c pre2]; [done|]. cbn [app head]. intros [= ->].
  apply Hname, elem_of_app. right. left.
Qed.

(** The lazy star of [re_bracketed] runs to the closing bracket. *)
Lemma lazy_body body : forall fuel n p g,
  length (body ++ [93%N]) < fuel ->
  Forall (fun c => c <> 91%N /\ c <> 93%N /\ c <> 10%N) body ->
  rep_loop (rx U false (Chr CAny)) 0 None false fuel n p (body ++ [93%N]) g
    (fun p' s' g' => rx U false (Lit [93%N]) p' s' g' finish)
  = Some (Some 93%N, [], g).
Proof.
  induction body as [|b body IH]; intros fuel n p g Hfuel Hbody.
  - destruct fuel; [cbn in Hfuel; lia|]. done.
  - destruct fuel; [cbn in Hfuel; lia|].
    apply Forall_cons in Hbody as [(_ & Hb93 & Hb10) Hbody].
    cbn [app rep_loop Nat.leb below rx lit_match char_eq cset_match].
    apply N.eqb_neq in Hb93, Hb10. rewrite Hb93.
    unfold c_newline. rewrite Hb10. cbn [negb].
    assert (Nat.ltb (length (body ++ [93%N])) (length (b :: body ++ [93%N]))
            = true) as ->.
    { apply Nat.ltb_lt. cbn [length]. lia. }
    apply IH; [|done]. cbn [app length] in Hfuel. lia.
Qed.

Lemma bracketed_match p body :
  Forall (fun c => c <> 91%N /\ c <> 93%N /\ c <> 10%N) body ->
  match_here U false re_bracketed p (91%N :: body ++ [93%N])
  = Some (Some 93%N, [], []).
Proof.
  intros Hbody. unfold match_here, re_bracketed, LazyStar, L.
  change (py "[") with [91%N]. change (py "]") with [93%N].
  cbn [cat rx lit_match char_eq]. rewrite N.eqb_refl.
  apply lazy_body; [lia|done].
Qed.

Lemma empty_brackets_no_match body :
  body <> [] ->
  Forall (fun c => c <> 91%N /\ c <> 93%N /\ c <> 10%N) body ->
  forall pre t p', 91%N :: body ++ [93%N] = pre ++ t ->
    match_here U false re_empty_brackets p' t = None.
Proof.
  intros Hne Hbody pre t p' Heq.
  destruct pre as [|c pre].
  - cbn [app] in Heq. subst t. destruct body as [|b body]; [done|].
    apply Forall_cons in Hbody as [(_ & Hb & _) _].
    unfold match_here, re_empty_brackets, L. change (py "[]") with [91%N; 93%N].
    cbn [rx app lit_match char_eq]. rewrite N.eqb_refl.
    apply N.eqb_neq in Hb. by rewrite Hb.
  - cbn [app] in Heq. injection Heq as _ Heq.
    apply no_bracket_no_match; [by left|].
    destruct t as [|x t]; [done|]. cbn [head]. intros [= ->].
    assert (Hin : 91%N ∈ body ++ [93%N]).
    { rewrite Heq. apply elem_of_app. right. left. }
    apply elem_of_app in Hin as [Hin|Hin].
    + rewrite Forall_forall in Hbody. by destruct (Hbody _ Hin) as [? _].
    + by apply list_elem_of_singleton in Hin.
Qed.

End SectionNames.

(** X30: [_clean_section_name] only trims a name without an opening
    bracket, and it drops a bracketed marker at the end of such a name
    (as in 'Story[edit]'), when the marker has no bracket and no newline
    inside. *)
Theorem clean_section_name_drops_marker (U : Unicode) (name body : str) :
  91%N ∉ name ->
  Forall (fun c => c <> 91%N /\ c <> 93%N /\ c <> 10%N) body ->
  _clean_section_name U name = strip U name
  /\ _clean_section_name U (name ++ 91%N :: body ++ [93%N]) = strip U name.
Proof.
  intros Hname Hbody.
  assert (Hplain : forall r tm p,
            r = re_empty_brackets \/ r = re_bracketed ->
            sub_from U false r tm name 0 p = name).
  { intros r tm p Hr. apply sub_from_id. intros pre t p' ->.
    apply no_bracket_no_match; [done|].
    destruct t as [|c t]; [done|]. cbn [head]. intros [= ->].
    apply Hname, elem_of_app. right. left. }
  assert (Hend : forall r p,
            r = re_empty_brackets \/ r = re_bracketed ->
            match_here U false r p [] = None).
  { intros r p Hr. by apply no_bracket_no_match. }
  unfold _clean_section_name, re_sub.
  fold re_empty_brackets. fold re_bracketed. split.
  - rewrite !Hplain by auto. done.
  - f_equal.
    assert (Hfirst : sub_from U false re_empty_brackets []
                       (name ++ 91%N :: body ++ [93%N]) 0 None
                     = name ++ match body with
                               | [] => []
                               | _ => 91%N :: body ++ [93%N]
                               end).
    { destruct (sub_from_prefix U re_empty_brackets [] (91%N :: body ++ [93%N])
                  name None) as [p' ->].
      { intros pre1 pre2 p' Heq Hne.
        by apply (no_bracket_in_prefix U _ name _ pre1 pre2); [left|..]. }
      f_equal. destruct body as [|b body].
      - cbn [app sub_from]. unfold match_here, re_empty_brackets, L.
        change (py "[]") with [91%N; 93%N].
        cbn [rx lit_match char_eq]. rewrite !N.eqb_refl.
        cbn [finish length Nat.sub expand flat_map app sub_from].
        reflexivity.
      - apply sub_from_id. by apply empty_brackets_no_match. }
    rewrite Hfirst. destruct body as [|b body].
    + rewrite app_nil_r. apply Hplain. auto.
    + destruct (sub_from_prefix U re_bracketed [] (91%N :: (b :: body) ++ [93%N])
                  name None) as [p' ->].
      { intros pre1 pre2 p' Heq Hne.
        by apply (no_bracket_in_prefix U _ name _ pre1 pre2); [right|..]. }
      rewrite <- (app_nil_r name) at 2. f_equal.
      cbn [sub_from]. rewrite (bracketed_match U p' (b :: body) Hbody).
      cbn [expand flat_map app length Nat.sub].
      change (S (length (body ++ [93%N])))
        with (length (b :: body ++ [93%N])).
      apply sub_from_skip_all. intros p''. apply Hend. auto.
Qed.

Lemma clean_section_name_drops_marker_witness :
  _clean_section_name ascii_only (py "Story[edit]") = py "Story".
Proof.
  refine (proj2 (clean_section_name_drops_marker ascii_only
                   (py "Story") (py "edit") _ _)).
  - intros Hin. apply list_elem_of_In in Hin. vm_compute in Hin.
    repeat (destruct Hin as [Hin|Hin]; [discriminate Hin|]). exact Hin.
  - repeat constructor; discriminate.
Defined.
